(** * casEngine: a shallow embedding of the CAS evaluation core

    The development follows [src/js/casEngine.py].  The engine is a thin
    layer of Python around two libraries: SymPy (parsing, substitution,
    simplification, calculus, rendering) and [re] / [str] (the LaTeX surface
    syntax).  The Python of the engine itself is embedded function by
    function:

    - the three module-level dictionaries [_variables], [_functions] and
      [_symbols_cache] become the fields of a [session] record that is
      threaded through every call;
    - a Python call either returns or raises, and keeps whatever it wrote to
      the session in both cases: a computation is a function
      [session -> outcome A * session];
    - Python recursion is bounded by the interpreter's recursion limit; the
      recursive helpers take the remaining depth as a [nat] and raise
      [RecursionError] when it is used up;
    - SymPy is not part of the engine.  Its operations are the fields of the
      class [SymPy]; the engine is embedded over an arbitrary instance.
*)

From stdpp Require Import gmap strings list.
From Stdlib Require Import ZArith Ascii String DecimalString.

Set Warnings "-register-all".

Open Scope string_scope.
Open Scope list_scope.

(** ** Python values shared by all layers *)

(** An exception object, as far as the engine looks at it: [except
    ValueError] asks for the class, [str(exc)] for the message.  Every
    exception modelled here is an instance of [Exception]. *)
Record pyexn := PyExn {
  exn_class : string;
  exn_is_ValueError : bool;
  exn_str : string
}.

Definition ValueError (msg : string) : pyexn := PyExn "ValueError" true msg.
Definition IndexError (msg : string) : pyexn := PyExn "IndexError" false msg.
Definition RecursionError : pyexn :=
  PyExn "RecursionError" false "maximum recursion depth exceeded".

Inductive outcome (A : Type) : Type :=
| Return (a : A)
| Raise (e : pyexn).
Arguments Return {A} a.
Arguments Raise {A} e.

(** What [json.dumps] is applied to.  A result is kept as the dictionary it
    is dumped from; [json.loads (json.dumps d)] is [d]. *)
Inductive json :=
| JBool (b : bool)
| JNum (z : Z)
| JStr (s : string)
| JArr (l : list json).

(** A Python dict with string keys, in insertion order. *)
Definition pydict := list (string * json).

Fixpoint dict_get {V : Type} (k : string) (d : list (string * V)) : option V :=
  match d with
  | [] => None
  | (k', v) :: d' => if String.eqb k k' then Some v else dict_get k d'
  end.

(** [d[k] = v]: overwrite in place, or append. *)
Fixpoint dict_set {V : Type} (k : string) (v : V) (d : list (string * V))
  : list (string * V) :=
  match d with
  | [] => [(k, v)]
  | (k', v') :: d' =>
      if String.eqb k k' then (k, v) :: d' else (k', v') :: dict_set k v d'
  end.

(** [d.update(extra)] *)
Definition dict_update {V : Type} (d extra : list (string * V))
  : list (string * V) :=
  fold_left (fun acc kv => dict_set (fst kv) (snd kv) acc) extra d.

Definition dict_has {V : Type} (k : string) (d : list (string * V)) : bool :=
  match dict_get k d with Some _ => true | None => false end.

(** ** Strings

    A Python [str] is embedded as a [string] of 8-bit characters: an ASCII
    character is itself, a character beyond ASCII is the bytes of its UTF-8
    encoding.  The character classes below are those of [re] and
    [str.strip] on the ASCII range; characters above 127 belong to none of
    them, whereas Python counts some characters beyond ASCII as white
    space, letters or digits, and [re.I] folds a few of them to ASCII
    letters.  The embedding follows the program on the texts of ASCII
    characters ([ascii_text], below); on a text with other characters the
    program may strip, split or match where the functions below do not. *)

Definition is_space (c : ascii) : bool :=
  let n := N_of_ascii c in
  (((9 <=? n) && (n <=? 13)) || ((28 <=? n) && (n <=? 32)))%N.

Definition is_alpha (c : ascii) : bool :=
  let n := N_of_ascii c in
  (((65 <=? n) && (n <=? 90)) || ((97 <=? n) && (n <=? 122)))%N.

Definition is_digit (c : ascii) : bool :=
  let n := N_of_ascii c in ((48 <=? n) && (n <=? 57))%N.

(** [\w] *)
Definition is_word (c : ascii) : bool :=
  is_alpha c || is_digit c || Ascii.eqb c "_".

(** [[a-zA-Z_]] *)
Definition is_ident_start (c : ascii) : bool := is_alpha c || Ascii.eqb c "_".

Definition lower (c : ascii) : ascii :=
  let n := N_of_ascii c in
  if ((65 <=? n) && (n <=? 90))%N then ascii_of_N (n + 32) else c.

Definition str1 (c : ascii) : string := String c "".

(** the longest prefix whose characters satisfy [p], and the rest *)
Fixpoint span (p : ascii -> bool) (s : string) : string * string :=
  match s with
  | String c s' =>
      if p c then let '(a, b) := span p s' in (String c a, b) else ("", s)
  | "" => ("", "")
  end.

Definition lstrip (s : string) : string := snd (span is_space s).

Fixpoint rstrip (s : string) : string :=
  match s with
  | "" => ""
  | String c s' =>
      match rstrip s' with
      | "" => if is_space c then "" else str1 c
      | r => String c r
      end
  end.

(** [s.strip()] *)
Definition strip (s : string) : string := rstrip (lstrip s).

(** [s[len(p):]] when [s.startswith(p)] *)
Fixpoint strip_prefix (p s : string) : option string :=
  match p, s with
  | "", _ => Some s
  | String a p', String b s' =>
      if Ascii.eqb a b then strip_prefix p' s' else None
  | String _ _, "" => None
  end.

(** the same, ignoring ASCII case ([re.I]) *)
Fixpoint strip_prefix_ci (p s : string) : option string :=
  match p, s with
  | "", _ => Some s
  | String a p', String b s' =>
      if Ascii.eqb (lower a) (lower b) then strip_prefix_ci p' s' else None
  | String _ _, "" => None
  end.

Fixpoint contains_char (c : ascii) (s : string) : bool :=
  match s with
  | "" => false
  | String c' s' => Ascii.eqb c c' || contains_char c s'
  end.

(** [s[:-1]] and [s[-1]] of a non-empty string *)
Fixpoint unsnoc (s : string) : option (string * ascii) :=
  match s with
  | "" => None
  | String c s' =>
      match unsnoc s' with
      | None => Some ("", c)
      | Some (init, l) => Some (String c init, l)
      end
  end.

(** the first alternative of a regex alternation that leads to a match *)
Fixpoint first_some {A B} (f : A -> option B) (l : list A) : option B :=
  match l with
  | [] => None
  | a :: l' => match f a with Some b => Some b | None => first_some f l' end
  end.

(** *** [re.sub] and [str.replace]

    [scan rule] rewrites a string from left to right.  At each position the
    [rule] sees the preceding character (for a lookbehind) and the remaining
    text, and either declines or returns the replacement text together with
    the length of the match; scanning resumes after the match.  All patterns
    of the engine match at least one character. *)
Fixpoint scan (rule : option ascii -> string -> option (string * nat))
    (skip : nat) (prev : option ascii) (s : string) : string :=
  match s with
  | "" => ""
  | String c s' =>
      match skip with
      | S k => scan rule k (Some c) s'
      | 0 =>
          match rule prev s with
          | Some (out, S k) => out +:+ scan rule k (Some c) s'
          | Some (_, 0) | None => String c (scan rule 0 (Some c) s')
          end
      end
  end.

Definition re_sub (rule : option ascii -> string -> option (string * nat))
    (s : string) : string :=
  scan rule 0 None s.

(** [s.replace(old, new)] *)
Definition replace (old new s : string) : string :=
  re_sub (fun _ rest =>
            match strip_prefix old rest with
            | Some _ => Some (new, String.length old)
            | None => None
            end) s.

(** [re.search(r'\\[a-zA-Z]', s)] *)
Fixpoint has_latex_command (s : string) : bool :=
  match s with
  | "" => false
  | String c s' =>
      (Ascii.eqb c "\" && match s' with String d _ => is_alpha d | "" => false end)
      || has_latex_command s'
  end.

(** [.+$]: at least one character, none of them a newline, up to the end of
    the string or to its final newline *)
Definition no_newline (s : string) : bool := negb (contains_char "010" s).

Definition dotplus_end (s : string) : option string :=
  match s with
  | "" => None
  | _ =>
      if no_newline s then Some s
      else match unsnoc s with
           | Some (init, l) =>
               if Ascii.eqb l "010" && no_newline init
                  && negb (String.eqb init "")
               then Some init else None
           | None => None
           end
  end.

(** [\s*(.+)$]: the greedy [\s*] gives characters back when [.+] needs them *)
Fixpoint ws_dotplus_end (s : string) : option string :=
  match s with
  | "" => None
  | String c s' =>
      if is_space c then
        match ws_dotplus_end s' with
        | Some g => Some g
        | None => dotplus_end s
        end
      else dotplus_end s
  end.

(** ** LaTeX pre-processing (casEngine.py, [_preprocess_latex]) *)

(** [\\operatorname\{([^}]+)\}] replaced by group 1 *)
Definition rule_operatorname (_ : option ascii) (rest : string)
  : option (string * nat) :=
  match strip_prefix "\operatorname{" rest with
  | Some r =>
      let '(g, r') := span (fun c => negb (Ascii.eqb c "}")) r in
      match g, r' with
      | String _ _, String "}" _ => Some (g, 14 + String.length g + 1)
      | _, _ => None
      end
  | None => None
  end.

Definition bare_function_names : list string :=
  ["sin"; "cos"; "tan"; "cot"; "sec"; "csc"; "arcsin"; "arccos"; "arctan";
   "sinh"; "cosh"; "tanh"; "coth"; "exp"; "log"; "ln"; "det"; "lim"].

(** [(?=\s*[\(\{])] *)
Definition lookahead_open (rest : string) : bool :=
  match lstrip rest with
  | String c _ => Ascii.eqb c "(" || Ascii.eqb c "{"
  | "" => false
  end.

(** [(?<![\w\\])(sin|cos|...)(?=\s*[\(\{])] replaced by [\\\1] *)
Definition rule_function_name (prev : option ascii) (rest : string)
  : option (string * nat) :=
  let behind_ok :=
    match prev with
    | Some p => negb (is_word p || Ascii.eqb p "\")
    | None => true
    end in
  if behind_ok then
    first_some (fun name =>
                  match strip_prefix name rest with
                  | Some r => if lookahead_open r
                              then Some ("\" +:+ name, String.length name)
                              else None
                  | None => None
                  end) bare_function_names
  else None.

(** [\s*([^{\\\s])] after a [^] or [_]: the character to wrap in braces and
    the length of the match *)
Definition single_script_char (r : string) : option (ascii * nat) :=
  let '(ws, r') := span is_space r in
  match r' with
  | String c _ =>
      if Ascii.eqb c "{" || Ascii.eqb c "\" then None
      else Some (c, String.length ws + 1)
  | "" => None
  end.

(** [\^\s*([^{\\\s])] replaced by [^{\1}] *)
Definition rule_superscript (_ : option ascii) (rest : string)
  : option (string * nat) :=
  match rest with
  | String "^" r =>
      match single_script_char r with
      | Some (c, n) => Some ("^{" +:+ str1 c +:+ "}", S n)
      | None => None
      end
  | _ => None
  end.

(** [(?<=[\s})])_\s*([^{\\\s])] replaced by [_{\1}] *)
Definition rule_subscript (prev : option ascii) (rest : string)
  : option (string * nat) :=
  match prev, rest with
  | Some p, String "_" r =>
      if is_space p || Ascii.eqb p "}" || Ascii.eqb p ")" then
        match single_script_char r with
        | Some (c, n) => Some ("_{" +:+ str1 c +:+ "}", S n)
        | None => None
        end
      else None
  | _, _ => None
  end.

(** [(\\(?:int|sum|prod|lim|log|ln))_([^{\\])] replaced by [\1_{\2}] *)
Definition rule_command_subscript (_ : option ascii) (rest : string)
  : option (string * nat) :=
  match rest with
  | String "\" r =>
      first_some (fun name =>
                    match strip_prefix name r with
                    | Some (String "_" (String c _)) =>
                        if Ascii.eqb c "{" || Ascii.eqb c "\" then None
                        else Some ("\" +:+ name +:+ "_{" +:+ str1 c +:+ "}",
                                   String.length name + 3)
                    | _ => None
                    end) ["int"; "sum"; "prod"; "lim"; "log"; "ln"]
  | _ => None
  end.

Definition _preprocess_latex (tex : string) : string :=
  let s := strip tex in
  let s := replace "\right" "" (replace "\left" "" s) in
  let s := replace "\cdot" "*" s in
  let s := replace "\times" "*" s in
  let s := replace "\div" "/" s in
  let s := replace "\pm" "+" s in
  let s := re_sub rule_operatorname s in
  let s := replace "\ln" "\log" s in
  let s := if has_latex_command s then re_sub rule_function_name s else s in
  let s := re_sub rule_superscript s in
  let s := re_sub rule_subscript s in
  let s := re_sub rule_command_subscript s in
  s.

(** [re.sub(r'\\([a-zA-Z]+)', r'\1', s)]: drop the backslash of a command *)
Definition rule_strip_backslash (_ : option ascii) (rest : string)
  : option (string * nat) :=
  match rest with
  | String "\" r =>
      match span is_alpha r with
      | (String c g, _) => Some (String c g, S (String.length (String c g)))
      | _ => None
      end
  | _ => None
  end.

Definition strip_command_backslashes (s : string) : string :=
  re_sub rule_strip_backslash s.

(** ** Command detection (casEngine.py, [_CMD_PATTERNS] and the patterns
    after it)

    Every pattern is anchored at both ends and is applied with [match]. *)

(** [\((.+)\)\s*$] after the command name and [\s*]: group 1 *)
Definition paren_argument (r : string) : option string :=
  match lstrip r with
  | String "(" x =>
      match unsnoc (rstrip x) with
      | Some (String c g, ")"%char) =>
          if no_newline (String c g) then Some (String c g) else None
      | _ => None
      end
  | _ => None
  end.

(** One entry of [_CMD_PATTERNS]: the command, the spellings its pattern
    admits in the order the regex tries them, whether a leading backslash
    is optional, and whether [re.I] is set. *)
Record cmd_pattern := CmdPattern {
  cmd_name : string;
  cmd_spellings : list string;
  cmd_backslash : bool;
  cmd_ignore_case : bool
}.

Definition _CMD_PATTERNS : list cmd_pattern :=
  [ CmdPattern "solve" ["solve"] true true;
    CmdPattern "factor" ["factor"] true true;
    CmdPattern "expand" ["expand"] true true;
    CmdPattern "simplify" ["simplify"] true true;
    CmdPattern "diff" ["diff"] true true;
    CmdPattern "integrate" ["integrate"] true true;
    CmdPattern "limit" ["limit"] true true;
    CmdPattern "series" ["series"] true true;
    CmdPattern "numerical" ["N"] false false;
    CmdPattern "subs" ["subs"] true true;
    CmdPattern "det" ["det"] true true;
    CmdPattern "inv" ["inv"] true true;
    CmdPattern "trace" ["trace"; "tr"] true true;
    CmdPattern "transpose" ["transpose"; "trans"] true true;
    CmdPattern "eigenvals" ["eigenvals"; "eigenval"] true true;
    CmdPattern "eigenvects"
      ["eigenvectsors"; "eigenvectsor"; "eigenvects";
       "eigenvectors"; "eigenvector"; "eigenvect"] true true;
    CmdPattern "rank" ["rank"] true true;
    CmdPattern "rref" ["rref"] true true;
    CmdPattern "charpoly" ["charpoly"] true true;
    CmdPattern "nullspace" ["nullspace"] true true;
    CmdPattern "colspace" ["colspace"] true true ].

(** [pat.match(s)]: group 1 *)
Definition match_cmd (p : cmd_pattern) (s : string) : option string :=
  let s :=
    if cmd_backslash p then
      match s with String "\" r => r | _ => s end
    else s in
  first_some (fun name =>
                match (if cmd_ignore_case p then strip_prefix_ci name s
                       else strip_prefix name s) with
                | Some r => paren_argument r
                | None => None
                end) (cmd_spellings p).

(** an opening [_{] or [^{], the group [[^}]*] and the closing brace: the
    group and what follows the brace *)
Definition braced_after (opener : string) (r : string) : option (string * string) :=
  match strip_prefix opener r with
  | Some r1 =>
      match span (fun c => negb (Ascii.eqb c "}")) r1 with
      | (g, String "}" r2) => Some (g, r2)
      | _ => None
      end
  | None => None
  end.

(** the common tail of [_LATEX_INT_DEF] and [_LATEX_SUM_PROD]: a braced
    subscript, a braced superscript, and [\s*(.+)$] *)
Definition match_bounds_body (r : string) : option (string * string * string) :=
  match braced_after "_{" (lstrip r) with
  | Some (lower_tex, r1) =>
      match braced_after "^{" (lstrip r1) with
      | Some (upper_tex, r2) =>
          match ws_dotplus_end r2 with
          | Some body => Some (lower_tex, upper_tex, body)
          | None => None
          end
      | None => None
      end
  | None => None
  end.

(** [_LATEX_INT_DEF]: groups 1, 2, 3 *)
Definition _LATEX_INT_DEF (s : string) : option (string * string * string) :=
  match strip_prefix "\int" s with
  | Some r => match_bounds_body r
  | None => None
  end.

(** [_LATEX_SUM_PROD]: groups 1, 2, 3, 4 *)
Definition _LATEX_SUM_PROD (s : string)
  : option (string * string * string * string) :=
  first_some (fun op =>
                match strip_prefix ("\" +:+ op) s with
                | Some r =>
                    match match_bounds_body r with
                    | Some (lo, up, body) => Some (op, lo, up, body)
                    | None => None
                    end
                | None => None
                end) ["sum"; "prod"].

(** [\\(?:lim|operatorname\{lim\})]: what follows *)
Definition after_lim (s : string) : option string :=
  first_some (fun w => strip_prefix w s) ["\lim"; "\operatorname{lim}"].

(** the arrows of [_LATEX_LIM_SUB], in the order of the alternation; the
    last one is the three bytes of U+2192 *)
Definition lim_arrows : list string :=
  ["\to"; "\rightarrow";
   String (ascii_of_N 226) (String (ascii_of_N 134) (String (ascii_of_N 146) ""))].

(** the lazy group [[^}]*?] followed by an arrow: the group stops at the
    first arrow that is not behind a closing brace *)
Fixpoint split_at_arrow (s : string) : option (string * string) :=
  match first_some (fun a => strip_prefix a s) lim_arrows with
  | Some r => Some ("", r)
  | None =>
      match s with
      | "" => None
      | String c s' =>
          if Ascii.eqb c "}" then None
          else match split_at_arrow s' with
               | Some (g, r) => Some (String c g, r)
               | None => None
               end
      end
  end.

(** [_LATEX_LIM_SUB]: groups 1, 2, 3 *)
Definition _LATEX_LIM_SUB (s : string) : option (string * string * string) :=
  match after_lim s with
  | Some r =>
      match strip_prefix "_{" (lstrip r) with
      | Some r1 =>
          match split_at_arrow r1 with
          | Some (var_tex, r2) =>
              match span (fun c => negb (Ascii.eqb c "}")) (lstrip r2) with
              | (point_tex, String "}" r3) =>
                  match ws_dotplus_end r3 with
                  | Some body => Some (var_tex, point_tex, body)
                  | None => None
                  end
              | _ => None
              end
          | None => None
          end
      | None => None
      end
  | None => None
  end.

(** [_LATEX_LIM_BARE]: group 1; [\s+] keeps at least one character *)
Definition _LATEX_LIM_BARE (s : string) : option string :=
  match after_lim s with
  | Some (String c r) =>
      if is_space c then
        match ws_dotplus_end r with
        | Some g => Some g
        | None => None
        end
      else None
  | _ => None
  end.

Definition matrix_env_kinds : list string :=
  ["p"; "b"; "v"; "B"; "V"; "small"; ""].

(** [s[:-len(suffix)]] when [s.endswith(suffix)] *)
Fixpoint strip_suffix (suffix s : string) : option string :=
  if String.eqb s suffix then Some ""
  else match s with
       | "" => None
       | String c s' =>
           match strip_suffix suffix s' with
           | Some init => Some (String c init)
           | None => None
           end
       end.

(** [_MATRIX_ENV_RE] (with [re.DOTALL]): group 2.  The closing tag is
    anchored at the end of the string, so the lazy group takes everything
    before it. *)
Definition _MATRIX_ENV_RE (s : string) : option string :=
  match first_some (fun k => strip_prefix ("\begin{" +:+ k +:+ "matrix}") s)
                   matrix_env_kinds with
  | Some r =>
      match first_some (fun k => strip_suffix ("\end{" +:+ k +:+ "matrix}") r)
                       matrix_env_kinds with
      | Some (String c content) => Some (String c content)
      | _ => None
      end
  | None => None
  end.

Definition _is_matrix_expr (tex : string) : bool :=
  match _MATRIX_ENV_RE (strip tex) with Some _ => true | None => false end.

(** the group [[a-zA-Z_]\w*] at the head of the string, and the rest *)
Definition leading_identifier (s : string) : option (string * string) :=
  match s with
  | String c s' =>
      if is_ident_start c then
        let '(w, r) := span is_word s' in Some (String c w, r)
      else None
  | "" => None
  end.

(** [\s*=\s*(.+)$] *)
Definition equals_body (r : string) : option string :=
  match lstrip r with
  | String "=" r' => ws_dotplus_end r'
  | _ => None
  end.

(** [_ASSIGN_VAR]: groups 1 and 2 *)
Definition _ASSIGN_VAR (s : string) : option (string * string) :=
  match leading_identifier s with
  | Some (name, r) =>
      match equals_body r with
      | Some body => Some (name, body)
      | None => None
      end
  | None => None
  end.

(** [_ASSIGN_FUNC]: groups 1, 2, 3 *)
Definition _ASSIGN_FUNC (s : string) : option (string * string * string) :=
  match leading_identifier s with
  | Some (name, r) =>
      match lstrip r with
      | String "(" r1 =>
          match span (fun c => negb (Ascii.eqb c ")")) r1 with
          | (String c ps, String ")" r2) =>
              match equals_body r2 with
              | Some body => Some (name, String c ps, body)
              | None => None
              end
          | _ => None
          end
      | _ => None
      end
  | None => None
  end.

(** [s.split(sep, 1)]: the two halves around the first [sep] *)
Fixpoint split_once (sep : ascii) (s : string) : option (string * string) :=
  match s with
  | "" => None
  | String c s' =>
      if Ascii.eqb c sep then Some ("", s')
      else match split_once sep s' with
           | Some (a, b) => Some (String c a, b)
           | None => None
           end
  end.

(** [s.split(sep)] for a one-character separator *)
Fixpoint split_char (sep : ascii) (s : string) : list string :=
  match s with
  | "" => [""]
  | String c s' =>
      if Ascii.eqb c sep then "" :: split_char sep s'
      else match split_char sep s' with
           | p :: ps => String c p :: ps
           | [] => [str1 c]
           end
  end.

(** [re.split(r'\\\\', s)]: split at each pair of backslashes *)
Fixpoint split_rows (skip : bool) (s : string) : list string :=
  match s with
  | "" => [""]
  | String c s' =>
      if skip then split_rows false s'
      else
        match c, s' with
        | "\"%char, String "\" _ => "" :: split_rows true s'
        | _, _ =>
            match split_rows false s' with
            | p :: ps => String c p :: ps
            | [] => [str1 c]
            end
        end
  end.

(** ** Helpers of the parser that work on text *)

(** [str(n)] for an integer *)
Definition str_of_int (z : Z) : string :=
  DecimalString.NilZero.string_of_int (Z.to_int z).

Definition str_of_nat (n : nat) : string := str_of_int (Z.of_nat n).

(** [s[:n]] *)
Fixpoint take_string (n : nat) (s : string) : string :=
  match n, s with
  | S n', String c s' => String c (take_string n' s')
  | _, _ => ""
  end.

(** [sep.join(l)] *)
Fixpoint join (sep : string) (l : list string) : string :=
  match l with
  | [] => ""
  | [x] => x
  | x :: l' => x +:+ sep +:+ join sep l'
  end.

(** the text inside balanced braces, entered at depth [depth], and what
    follows the closing brace *)
Fixpoint braced_content (depth : nat) (s : string) : option (string * string) :=
  match s with
  | "" => None
  | String c s' =>
      if Ascii.eqb c "{" then
        match braced_content (S depth) s' with
        | Some (g, r) => Some (String c g, r)
        | None => None
        end
      else if Ascii.eqb c "}" then
        match depth with
        | 0 | 1 => Some ("", s')
        | S d =>
            match braced_content d s' with
            | Some (g, r) => Some (String c g, r)
            | None => None
            end
        end
      else
        match braced_content depth s' with
        | Some (g, r) => Some (String c g, r)
        | None => None
        end
  end.

(** [_extract_braced(s, pos)] on [s[pos:]]: the content and [s[end_pos:]] *)
Definition _extract_braced (rest : string) : option (string * string) :=
  match rest with
  | String "{" r => braced_content 1 r
  | _ => None
  end.

(** [s[:idx]] and [s[idx + len(sub):]] for [idx = s.find(sub)] *)
Fixpoint split_at_first (sub s : string) : option (string * string) :=
  match strip_prefix sub s with
  | Some r => Some ("", r)
  | None =>
      match s with
      | "" => None
      | String c s' =>
          match split_at_first sub s' with
          | Some (a, b) => Some (String c a, b)
          | None => None
          end
      end
  end.

(** the [while] loop over [\frac{num}{den}] *)
Fixpoint frac_loop (n : nat) (conv : string -> string) (s : string) : string :=
  match n with
  | 0 => s
  | S n' =>
      match split_at_first "\frac" s with
      | None => s
      | Some (before, after) =>
          match _extract_braced after with
          | None => s
          | Some (num, r1) =>
              match _extract_braced r1 with
              | None => s
              | Some (den, r2) =>
                  frac_loop n' conv
                    (before +:+ "((" +:+ conv num +:+ ")/(" +:+ conv den
                            +:+ "))" +:+ r2)
              end
          end
      end
  end.

(** the [while] loop over [\sqrt[n]{a}] and [\sqrt{a}] *)
Fixpoint sqrt_loop (n : nat) (conv : string -> string) (s : string) : string :=
  match n with
  | 0 => s
  | S n' =>
      match split_at_first "\sqrt" s with
      | None => s
      | Some (before, String "[" r) =>
          match split_at_first "]" r with
          | None => s
          | Some (n_arg, r1) =>
              match _extract_braced r1 with
              | None => s
              | Some (arg, r2) =>
                  sqrt_loop n' conv
                    (before +:+ "((" +:+ conv arg +:+ ")**(1/(" +:+ conv n_arg
                            +:+ ")))" +:+ r2)
              end
          end
      | Some (before, after) =>
          match _extract_braced after with
          | None => s
          | Some (arg, r2) =>
              sqrt_loop n' conv (before +:+ "sqrt(" +:+ conv arg +:+ ")" +:+ r2)
          end
      end
  end.

(** the last loop: a braced exponent becomes a parenthesised power *)
Definition rule_braced_power (conv : string -> string) (_ : option ascii)
    (rest : string) : option (string * nat) :=
  match rest with
  | String "^" r =>
      match _extract_braced r with
      | Some (content, r') =>
          Some ("**(" +:+ conv content +:+ ")",
                S (String.length r - String.length r'))
      | None => None
      end
  | _ => None
  end.

(** [_latex_to_algebra]; [n] bounds the nesting of braces and the number of
    rounds of each loop *)
Fixpoint latex_to_algebra_upto (n : nat) (tex : string) : string :=
  match n with
  | 0 => tex
  | S n' =>
      let conv := latex_to_algebra_upto n' in
      let s := frac_loop n' conv tex in
      let s := sqrt_loop n' conv s in
      re_sub (rule_braced_power conv) s
  end.

Definition _latex_to_algebra (tex : string) : string :=
  latex_to_algebra_upto (S (String.length tex)) tex.

(** the [re.sub] that rewrites a braced subscript [_{k}] to [_k] *)
Definition rule_subscript_braces (_ : option ascii) (rest : string)
  : option (string * nat) :=
  match braced_after "_{" rest with
  | Some (g, _) => Some ("_" +:+ g, String.length g + 3)
  | None => None
  end.

(** [re.findall(r'[a-zA-Z_]\w*', s)] *)
Fixpoint find_names (skip : nat) (s : string) : list string :=
  match s with
  | "" => []
  | String c s' =>
      match skip with
      | S k => find_names k s'
      | 0 =>
          if is_ident_start c then
            let w := fst (span is_word s') in
            String c w :: find_names (String.length w) s'
          else find_names 0 s'
      end
  end.

(** [set(l)], kept in order of first occurrence *)
Fixpoint dedup_names (l : list string) : list string :=
  match l with
  | [] => []
  | x :: l' =>
      x :: filter (fun y => negb (String.eqb x y)) (dedup_names l')
  end.

Definition _KNOWN_NAMES : list string :=
  ["sin"; "cos"; "tan"; "cot"; "sec"; "csc";
   "asin"; "acos"; "atan"; "atan2";
   "arcsin"; "arccos"; "arctan";
   "sinh"; "cosh"; "tanh"; "coth";
   "asinh"; "acosh"; "atanh";
   "sqrt"; "cbrt"; "root"; "abs";
   "log"; "ln"; "exp";
   "factorial"; "binomial"; "gamma";
   "floor"; "ceiling"; "ceil";
   "gcd"; "lcm";
   "pi"; "oo"; "inf";
   "solve"; "factor"; "expand"; "simplify";
   "diff"; "integrate"; "limit"; "series";
   "lim"; "int"; "sum"; "prod";
   "det"; "inv"; "trace"; "tr"; "transpose"; "trans";
   "eigenvals"; "eigenvects"; "eigenvectors"; "rank"; "rref";
   "nullspace"; "colspace"; "charpoly";
   "Rational"; "Integer"; "Float";
   "True"; "False"; "None"].

Definition _MULTICHAR_SYMBOLS : list string :=
  ["alpha"; "beta"; "gamma"; "delta"; "epsilon"; "varepsilon";
   "zeta"; "eta"; "theta"; "vartheta";
   "iota"; "kappa"; "mu"; "nu"; "xi";
   "rho"; "sigma"; "tau"; "upsilon"; "phi"; "varphi";
   "chi"; "psi"; "omega";
   "Gamma"; "Delta"; "Theta"; "Lambda"; "Xi";
   "Sigma"; "Upsilon"; "Phi"; "Psi"; "Omega";
   "infty"; "infinity"].

Definition name_in (n : string) (l : list string) : bool :=
  existsb (String.eqb n) l.

(** [_parse_inner]: split at the commas that are outside every bracket *)
Fixpoint parse_inner_loop (s : string) (depth : Z) (current : string)
  : list string :=
  match s with
  | "" =>
      match current with
      | "" => []
      | _ => [strip current]
      end
  | String ch s' =>
      if name_in (str1 ch) ["("; "{"; "["] then
        parse_inner_loop s' (depth + 1) (current +:+ str1 ch)
      else if name_in (str1 ch) [")"; "}"; "]"] then
        parse_inner_loop s' (depth - 1) (current +:+ str1 ch)
      else if Ascii.eqb ch "," && (depth =? 0)%Z then
        strip current :: parse_inner_loop s' depth ""
      else parse_inner_loop s' depth (current +:+ str1 ch)
  end.

Definition _parse_inner (inner_tex : string) : list string :=
  parse_inner_loop inner_tex 0 "".

(** The [re.sub] of [_handle_latex_int] deletes a match of: optional
    spaces, the letter [d], an identifier [[a-zA-Z_]\w*], optional spaces,
    the end of the string.  Does the whole of [rest] match?  If so, the
    identifier. *)
Definition differential_suffix (rest : string) : option string :=
  match lstrip rest with
  | String "d" r =>
      match leading_identifier r with
      | Some (var, r') =>
          match lstrip r' with
          | "" => Some var
          | _ => None
          end
      | None => None
      end
  | _ => None
  end.

Definition rule_differential (_ : option ascii) (rest : string)
  : option (string * nat) :=
  match differential_suffix rest with
  | Some _ => Some ("", String.length rest)
  | None => None
  end.

(** the same with [d([a-zA-Z])] ([_handle_latex_sum_prod]) *)
Definition rule_differential_letter (_ : option ascii) (rest : string)
  : option (string * nat) :=
  match lstrip rest with
  | String "d" (String c r') =>
      if is_alpha c then
        match lstrip r' with
        | "" => Some ("", String.length rest)
        | _ => None
        end
      else None
  | _ => None
  end.

(** every character of the string satisfies [p] *)
Fixpoint all_chars (p : ascii -> bool) (s : string) : bool :=
  match s with
  | "" => true
  | String c s' => p c && all_chars p s'
  end.

(** the characters of ASCII, and the texts made of them *)
Definition is_ascii (c : ascii) : bool := (N_of_ascii c <? 128)%N.

Definition ascii_text (s : string) : bool := all_chars is_ascii s.

(** the strings that [[a-zA-Z_]\w*] matches in full *)
Definition is_identifier (s : string) : bool :=
  match s with
  | String c w => is_ident_start c && all_chars is_word w
  | "" => false
  end.

(** ** SymPy symbols *)

(** [Symbol(name)] and [Dummy(name)]; the engine never creates symbols with
    assumptions.  A dummy carries the index SymPy gives it. *)
Inductive symbol :=
| Sym (name : string)
| DummySym (name : string) (index : N).

#[global] Instance symbol_eq_dec : EqDecision symbol.
Proof. solve_decision. Defined.

(** [str(sym)]: a dummy prints with a leading underscore. *)
Definition str_of_symbol (s : symbol) : string :=
  match s with
  | Sym n => n
  | DummySym n _ => "_" +:+ n
  end.

(** ** The library interface

    Each field is one operation of SymPy (or, for [py_int], of the Python
    builtins) that the engine calls.  Operations the engine relies on to
    return (attribute reads, rendering) are functions; operations that
    reject some inputs are [outcome]-valued.  Substitution is among the
    latter: substituting matrices of different shapes into a sum raises
    [ShapeError], a [ValueError].  A Python list
    of expressions that SymPy renders (the result of [solve]) is an [expr]
    as well. *)
Class SymPy (expr : Type) := {
  (** a [Symbol] or [Dummy] object used as an expression *)
  of_symbol : symbol -> expr;
  (** [list(expr.free_symbols)], in the iteration order of the set *)
  free_symbols : expr -> list symbol;
  (** [expr.subs(d)] for a dict [d] from symbols to expressions, and
      [expr.subs(old, new)] *)
  subs : list (symbol * expr) -> expr -> outcome expr;
  subs_pair : expr -> expr -> expr -> outcome expr;
  (** [isinstance(expr, AppliedUndef)], with [str(expr.func)] and
      [expr.args] *)
  applied_undef : expr -> option (string * list expr);
  (** [expr.args] when [hasattr(expr, 'args') and expr.args], else [[]] *)
  args : expr -> list expr;
  (** [expr.func( *new_args )] *)
  rebuild : expr -> list expr -> outcome expr;
  (** [==] on expressions *)
  expr_eqb : expr -> expr -> bool;
  (** [S.Zero], [Eq(lhs, rhs)], [Integer(n)] *)
  Zero : expr;
  Eq : expr -> expr -> outcome expr;
  Integer : Z -> expr;
  (** the constants [pi], [E], [I], [oo] *)
  const_pi : expr;
  const_E : expr;
  const_I : expr;
  const_oo : expr;
  (** [getattr(expr, 'is_Integer', False)] *)
  is_Integer : expr -> bool;
  (** [isinstance(m, MatrixBase)] with [(m.rows, m.cols)]; the entries of a
      matrix in row-major order, and the matrix of the same shape with other
      entries (the two halves of [m.applyfunc]) *)
  matrix_shape : expr -> option (Z * Z);
  matrix_entries : expr -> list expr;
  matrix_with_entries : expr -> list expr -> expr;
  (** [Matrix(rows)] and [ImmutableMatrix(m)] *)
  Matrix : list (list expr) -> outcome expr;
  ImmutableMatrix : expr -> expr;
  (** parsing: [parse_latex(tex)] and
      [parse_expr(s, transformations = standard_transformations +
      (implicit_multiplication_application, convert_xor), local_dict = d)];
      an entry of [d] is a symbol ([inl]) or [Function(name)] ([inr]) *)
  parse_latex : string -> outcome expr;
  parse_expr : string -> list (string * (symbol + string)) -> outcome expr;
  (** the builtin [int(s)] *)
  py_int : string -> outcome Z;
  (** rendering: [latex(expr)], [pretty(expr, use_unicode=True)] *)
  latex : expr -> string;
  pretty : expr -> string;
  (** [N(expr)] and [N(expr, prec)] *)
  N_ : expr -> option Z -> outcome expr;
  (** the algebra and calculus entry points *)
  simplify : expr -> outcome expr;
  factor : expr -> outcome expr;
  expand : expr -> outcome expr;
  (** [hasattr(result, 'doit')], [result.doit()], and whether the value
      returned [is] the receiver *)
  has_doit : expr -> bool;
  doit : expr -> outcome expr;
  same_object : expr -> expr -> bool;
  solve : expr -> symbol -> outcome expr;
  diff : expr -> symbol -> Z -> outcome expr;
  (** [integrate(e, var)] and [integrate(e, (var, a, b))] *)
  integrate : expr -> symbol -> option (expr * expr) -> outcome expr;
  limit : expr -> symbol -> expr -> outcome expr;
  series : expr -> symbol -> expr -> Z -> outcome expr;
  summation : expr -> symbol -> expr -> expr -> outcome expr;
  product : expr -> symbol -> expr -> expr -> outcome expr;
  (** [Dummy('x')] *)
  fresh_dummy : string -> symbol;
  (** matrix methods: [m.det()], [m.inv()], [trace(m)], [m.T],
      [m.eigenvals().items()], [m.eigenvects()], [m.rank()], [m.rref()],
      [m.charpoly(lam).as_expr()], [m.nullspace()], [m.columnspace()] *)
  mat_det : expr -> outcome expr;
  mat_inv : expr -> outcome expr;
  mat_trace : expr -> outcome expr;
  mat_T : expr -> outcome expr;
  mat_eigenvals : expr -> outcome (list (expr * Z));
  mat_eigenvects : expr -> outcome (list (expr * Z * list expr));
  mat_rank : expr -> outcome Z;
  mat_rref : expr -> outcome (expr * list Z);
  mat_charpoly : expr -> symbol -> outcome expr;
  mat_nullspace : expr -> outcome (list expr);
  mat_columnspace : expr -> outcome (list expr)
}.

(** ** The session and computations over it *)

Section Engine.

Context {expr : Type} `{SP : SymPy expr}.

(** [_variables[name] = {'expr': ..., 'deps': ...}] *)
Record var_binding := VarBinding {
  vb_expr : expr;
  vb_deps : gset string
}.

(** [_functions[name] = {'params': ..., 'expr': ..., 'deps': ...}] *)
Record fun_binding := FunBinding {
  fb_params : list symbol;
  fb_expr : expr;
  fb_deps : gset string
}.

Record session := Session {
  _variables : gmap string var_binding;
  _functions : gmap string fun_binding;
  _symbols_cache : gmap string symbol
}.

Definition M (A : Type) : Type := session -> outcome A * session.

Definition ret {A} (a : A) : M A := fun st => (Return a, st).
Definition raise {A} (e : pyexn) : M A := fun st => (Raise e, st).
Definition bind {A B} (m : M A) (k : A -> M B) : M B :=
  fun st =>
    match m st with
    | (Return a, st') => k a st'
    | (Raise e, st') => (Raise e, st')
    end.
(** a SymPy call: returns or raises, and does not touch the session *)
Definition lift {A} (o : outcome A) : M A := fun st => (o, st).
(** [try: m  except Exception as exc: h exc] *)
Definition try_except {A} (m : M A) (h : pyexn -> M A) : M A :=
  fun st =>
    match m st with
    | (Return a, st') => (Return a, st')
    | (Raise e, st') => h e st'
    end.
Definition get : M session := fun st => (Return st, st).
Definition put (st' : session) : M unit := fun _ => (Return tt, st').

Notation "'let!' x ':=' m 'in' k" := (bind m (fun x => k))
  (at level 10, x pattern, m at level 100, k at level 200).

(** a [for] loop that threads an accumulator *)
Fixpoint for_each {A B} (l : list A) (acc : B) (body : A -> B -> M B) : M B :=
  match l with
  | [] => ret acc
  | a :: l' => let! acc' := body a acc in for_each l' acc' body
  end.

(** a list comprehension whose element expression may raise *)
Fixpoint map_M {A B} (f : A -> M B) (l : list A) : M (list B) :=
  match l with
  | [] => ret []
  | a :: l' => let! b := f a in let! bs := map_M f l' in ret (b :: bs)
  end.

(** ** Helpers (casEngine.py, section "Helpers") *)

Definition _get_symbol (name : string) : M symbol :=
  let! st := get in
  match _symbols_cache st !! name with
  | Some s => ret s
  | None =>
      let! _ := put (Session (_variables st) (_functions st)
                             (<[name := Sym name]> (_symbols_cache st))) in
      ret (Sym name)
  end.

Definition circular_msg (name : string) : string :=
  "Circular dependency detected involving '" +:+ name +:+ "'".

(** [sn in _variables] *)
Definition is_variable (sn : string) : M bool :=
  let! st := get in ret (bool_decide (is_Some (_variables st !! sn))).

Fixpoint _resolve_variable (depth : nat) (name : string) (visited : gset string)
  : M expr :=
  match depth with
  | 0 => raise RecursionError
  | S depth' =>
      if bool_decide (name ∈ visited) then raise (ValueError (circular_msg name))
      else
        let visited := {[name]} ∪ visited in
        let! st := get in
        match _variables st !! name with
        | None => let! s := _get_symbol name in ret (of_symbol s)
        | Some b =>
            let e := vb_expr b in
            let! sb :=
              for_each (free_symbols e) []
                (fun sym sb =>
                   let sn := str_of_symbol sym in
                   let! bound := is_variable sn in
                   if bound then
                     let! v := _resolve_variable depth' sn visited in
                     ret (sb ++ [(sym, v)])
                   else ret sb) in
            lift (match sb with [] => Return e | _ => subs sb e end)
        end
  end.

(** The body of [_resolve_expr], over the two helpers it calls. *)
Definition resolve_expr_body
    (apply_user_functions : expr -> M expr)
    (resolve_variable : string -> M expr)
    (e : expr) (exclude : gset string) : M expr :=
  let! e := apply_user_functions e in
  let! sb :=
    for_each (free_symbols e) []
      (fun sym sb =>
         let sn := str_of_symbol sym in
         let! bound := is_variable sn in
         if bound && negb (bool_decide (sn ∈ exclude)) then
           let! v := resolve_variable sn in
           ret (sb ++ [(sym, v)])
         else ret sb) in
  lift (match sb with [] => Return e | _ => subs sb e end).

(** [dict(zip(params, args))] for lists of equal length *)
Definition zip_dict (params : list symbol) (actuals : list expr)
  : list (symbol * expr) :=
  fold_left (fun d kv =>
               if bool_decide (Exists (fun kv' => fst kv' = fst kv) d)
               then map (fun kv' => if bool_decide (fst kv' = fst kv)
                                    then (fst kv', snd kv) else kv') d
               else d ++ [kv])
            (combine params actuals) [].

Fixpoint _apply_user_functions (depth : nat) (e : expr) : M expr :=
  match depth with
  | 0 => raise RecursionError
  | S depth' =>
      let descend :=
        match args e with
        | [] => ret e
        | a :: rest =>
            let! new_args := map_M (_apply_user_functions depth') (a :: rest) in
            if negb (bool_decide (Forall2 (fun x y => expr_eqb x y = true)
                                          new_args (a :: rest)))
            then lift (rebuild e new_args)
            else ret e
        end in
      match applied_undef e with
      | Some (fname, actuals) =>
          let! st := get in
          match _functions st !! fname with
          | Some fdef =>
              if bool_decide (List.length actuals = List.length (fb_params fdef)) then
                let! result :=
                  lift (subs (zip_dict (fb_params fdef) actuals) (fb_expr fdef)) in
                let! result := _apply_user_functions depth' result in
                match depth' with
                | 0 => raise RecursionError
                | S depth'' =>
                    resolve_expr_body (_apply_user_functions depth'')
                      (fun sn => _resolve_variable depth'' sn ∅) result ∅
                end
              else descend
          | None => descend
          end
      | None => descend
      end
  end.

Definition _resolve_expr (depth : nat) (e : expr) (exclude_vars : gset string)
  : M expr :=
  match depth with
  | 0 => raise RecursionError
  | S depth' =>
      resolve_expr_body (_apply_user_functions depth')
        (fun sn => _resolve_variable depth' sn ∅) e exclude_vars
  end.

Definition _free_names (e : expr) : gset string :=
  list_to_set (map str_of_symbol (free_symbols e)).

(** ** Parsing (casEngine.py, [_safe_parse_latex] and [_parse_matrix_latex]) *)

(** [_CONSTANT_SUBS] *)
Definition _CONSTANT_SUBS (s : symbol) : option expr :=
  match s with
  | Sym n =>
      if String.eqb n "pi" then Some const_pi
      else if String.eqb n "e" then Some const_E
      else if String.eqb n "i" then Some const_I
      else if String.eqb n "oo" then Some const_oo
      else if String.eqb n "inf" then Some const_oo
      else if String.eqb n "infty" then Some const_oo
      else None
  | DummySym _ _ => None
  end.

Definition _fix_constants (e : expr) : outcome expr :=
  let sb :=
    fold_left (fun sb sym =>
                 match _CONSTANT_SUBS sym with
                 | Some c => sb ++ [(sym, c)]
                 | None => sb
                 end) (free_symbols e) [] in
  match sb with
  | [] => Return e
  | _ => subs sb e
  end.

(** the [local_dict] handed to [parse_expr] *)
Definition build_local_dict (names : list string)
  : M (list (string * (symbol + string))) :=
  for_each names []
    (fun n local =>
       let! st := get in
       if bool_decide (is_Some (_functions st !! n)) then
         ret (dict_set n (inr n) local)
       else if bool_decide (is_Some (_variables st !! n))
                 || name_in n _MULTICHAR_SYMBOLS then
         let! s := _get_symbol n in ret (dict_set n (inl s) local)
       else if name_in n _KNOWN_NAMES then ret local
       else if bool_decide (String.length n = 1) then
         let! s := _get_symbol n in ret (dict_set n (inl s) local)
       else ret local).

Definition _safe_parse_latex (tex : string) : M expr :=
  let fallback : M expr :=
    let algebraic := _latex_to_algebra tex in
    let cleaned := strip_command_backslashes algebraic in
    let cleaned := re_sub rule_subscript_braces cleaned in
    let names_in_expr := dedup_names (find_names 0 cleaned) in
    let! local := build_local_dict names_in_expr in
    let! result := lift (parse_expr cleaned local) in
    lift (_fix_constants result) in
  if has_latex_command tex then
    try_except
      (let! result := lift (parse_latex tex) in lift (_fix_constants result))
      (fun _ => fallback)
  else fallback.

(** the cells of one row *)
Definition parse_cells (cells : list string) : M (list expr) :=
  map_M (fun cell =>
           if String.eqb cell "" then ret Zero else _safe_parse_latex cell)
        cells.

(** the loop over [row_strs] *)
Fixpoint parse_rows (row_strs : list string) : M (list (list expr)) :=
  match row_strs with
  | [] => ret []
  | row_str :: rest =>
      let row_str := strip row_str in
      if String.eqb row_str "" then parse_rows rest
      else
        let cells := map strip (split_char "&" row_str) in
        let! parsed_cells := parse_cells cells in
        let! others := parse_rows rest in
        ret (parsed_cells :: others)
  end.

(** the loop that verifies the rows are of one width *)
Fixpoint check_rectangular (ncols i : nat) (rows : list (list expr)) : M unit :=
  match rows with
  | [] => ret tt
  | row :: rest =>
      if bool_decide (List.length row = ncols) then
        check_rectangular ncols (S i) rest
      else
        raise (ValueError ("Jagged matrix: row " +:+ str_of_nat i +:+ " has "
                           +:+ str_of_nat (List.length row)
                           +:+ " cols, expected " +:+ str_of_nat ncols))
  end.

(** [_parse_matrix_latex] up to the call of [Matrix]: the value of
    [matrix_data] *)
Definition parse_matrix_data (tex : string) : M (list (list expr)) :=
  match _MATRIX_ENV_RE (strip tex) with
  | None =>
      raise (ValueError ("Not a recognized matrix environment: "
                         +:+ take_string 60 tex))
  | Some content =>
      let row_strs := split_rows false content in
      let! matrix_data := parse_rows row_strs in
      match matrix_data with
      | [] => raise (ValueError "Empty matrix")
      | row0 :: _ =>
          let ncols := List.length row0 in
          let! _ := check_rectangular ncols 0 matrix_data in
          ret matrix_data
      end
  end.

Definition _parse_matrix_latex (tex : string) : M expr :=
  let! matrix_data := parse_matrix_data tex in
  lift (Matrix matrix_data).

(** ** Results (casEngine.py, [_make_result] and [_make_matrix_result]) *)

Definition _make_result (e : expr) (result_type : string)
    (skip_numeric : bool) (extra : pydict) : pydict :=
  let sym_latex := latex e in
  let sym_plain := pretty e in
  let result :=
    [("ok", JBool true); ("latex", JStr sym_latex);
     ("plain", JStr sym_plain); ("type", JStr result_type)] in
  let result :=
    if skip_numeric then result
    else
      match N_ e None with
      | Return num_val =>
          let num_lat := latex num_val in
          if negb (String.eqb num_lat sym_latex) && negb (is_Integer e) then
            dict_set "numeric_plain" (JStr (pretty num_val))
              (dict_set "numeric_latex" (JStr num_lat) result)
          else result
      | Raise _ => result
      end in
  dict_update result extra.

Definition AttributeError (msg : string) : pyexn :=
  PyExn "AttributeError" false msg.

Definition _make_matrix_result (mat : expr) (result_type : string)
    (extra : pydict) : M pydict :=
  match matrix_shape mat with
  | Some (rows, cols) =>
      ret (dict_update
             [("ok", JBool true); ("latex", JStr (latex mat));
              ("plain", JStr (pretty mat)); ("type", JStr result_type);
              ("is_matrix", JBool true); ("rows", JNum rows);
              ("cols", JNum cols)] extra)
  | None => raise (AttributeError "object has no attribute 'rows'")
  end.

Definition error_result (msg : string) : pydict :=
  [("ok", JBool false); ("error", JStr msg)].

(** [mat.applyfunc(lambda e: _resolve_expr(e))] *)
Definition resolve_entries (depth : nat) (mat : expr) : M expr :=
  let! entries := map_M (fun e => _resolve_expr depth e ∅) (matrix_entries mat) in
  ret (matrix_with_entries mat entries).

(** ** Command handlers *)

(** [parts[i]] *)
Definition item (parts : list string) (i : nat) : M string :=
  match nth_error parts i with
  | Some p => ret p
  | None => raise (IndexError "list index out of range")
  end.

(** [list(expr.free_symbols)[0]] *)
Definition first_free_symbol (e : expr) : M symbol :=
  match free_symbols e with
  | s :: _ => ret s
  | [] => raise (IndexError "list index out of range")
  end.

(** [_get_symbol(parts[1].strip()) if len(parts) > 1 else
    list(expr.free_symbols)[0]] *)
Definition variable_argument (parts : list string) (e : expr) : M symbol :=
  if bool_decide (1 < List.length parts) then
    let! p1 := item parts 1 in _get_symbol (strip p1)
  else first_free_symbol e.

Definition _cmd_solve (depth : nat) (parts : list string) : M pydict :=
  let! p0 := item parts 0 in
  let! e := _safe_parse_latex p0 in
  let continue (var : symbol) : M pydict :=
    let! e := _resolve_expr depth e {[str_of_symbol var]} in
    let! result := lift (solve e var) in
    ret (_make_result result "command" true []) in
  if bool_decide (2 <= List.length parts) then
    let! p1 := item parts 1 in
    let! var := _get_symbol (strip p1) in
    continue var
  else
    match free_symbols e with
    | [] => ret (error_result "No free variable to solve for")
    | var :: _ => continue var
    end.

Definition _cmd_diff (depth : nat) (parts : list string) : M pydict :=
  let! p0 := item parts 0 in
  let! e := _safe_parse_latex p0 in
  let! var := variable_argument parts e in
  let! order :=
    if bool_decide (2 < List.length parts)
    then let! p2 := item parts 2 in lift (py_int p2)
    else ret 1%Z in
  let! e := _resolve_expr depth e {[str_of_symbol var]} in
  let! result := lift (diff e var order) in
  ret (_make_result result "command" false []).

Definition _cmd_integrate (depth : nat) (parts : list string) : M pydict :=
  let! p0 := item parts 0 in
  let! e := _safe_parse_latex p0 in
  let! var := variable_argument parts e in
  let! e := _resolve_expr depth e {[str_of_symbol var]} in
  let! result :=
    if bool_decide (4 <= List.length parts) then
      let! p2 := item parts 2 in
      let! a := _safe_parse_latex p2 in
      let! p3 := item parts 3 in
      let! b := _safe_parse_latex p3 in
      lift (integrate e var (Some (a, b)))
    else lift (integrate e var None) in
  ret (_make_result result "command" false []).

Definition _cmd_limit (depth : nat) (parts : list string) : M pydict :=
  let! p0 := item parts 0 in
  let! e := _safe_parse_latex p0 in
  let! p1 := item parts 1 in
  let! var := _get_symbol (strip p1) in
  let! e := _resolve_expr depth e {[str_of_symbol var]} in
  let! p2 := item parts 2 in
  let! point := _safe_parse_latex p2 in
  let! result := lift (limit e var point) in
  ret (_make_result result "command" false []).

Definition _cmd_series (depth : nat) (parts : list string) : M pydict :=
  let! p0 := item parts 0 in
  let! e := _safe_parse_latex p0 in
  let! var := variable_argument parts e in
  let! e := _resolve_expr depth e {[str_of_symbol var]} in
  let! point :=
    if bool_decide (2 < List.length parts)
    then let! p2 := item parts 2 in _safe_parse_latex p2
    else ret Zero in
  let! n :=
    if bool_decide (3 < List.length parts)
    then let! p3 := item parts 3 in lift (py_int p3)
    else ret 6%Z in
  let! result := lift (series e var point n) in
  ret (_make_result result "command" true []).

Definition _cmd_subs (depth : nat) (parts : list string) : M pydict :=
  let! p0 := item parts 0 in
  let! e := _safe_parse_latex p0 in
  let! e := _resolve_expr depth e ∅ in
  let! p1 := item parts 1 in
  let! old := _safe_parse_latex p1 in
  let! p2 := item parts 2 in
  let! new := _safe_parse_latex p2 in
  let! result := lift (subs_pair e old new) in
  let! result := lift (simplify result) in
  ret (_make_result result "command" false []).

(** ** Matrix handlers *)

(** [_resolve_matrix_expr] *)
Definition _resolve_matrix_expr (depth : nat) (tex : string) : M expr :=
  let! result := _safe_parse_latex tex in
  for_each (free_symbols result) result
    (fun sym result =>
       let n := str_of_symbol sym in
       let! bound := is_variable n in
       if bound then
         let! val := _resolve_variable depth n ∅ in
         lift (subs_pair result (of_symbol sym) val)
       else ret result).

(** [_resolve_matrix_arg] *)
Definition _resolve_matrix_arg (depth : nat) (tex : string) : M expr :=
  let tex := strip tex in
  if _is_matrix_expr tex then _parse_matrix_latex tex
  else
    let name := strip (strip_command_backslashes tex) in
    let otherwise : M expr :=
      try_except (_resolve_matrix_expr depth tex)
        (fun _ => raise (ValueError ("Cannot interpret as a matrix: "
                                     +:+ take_string 80 tex))) in
    let! bound := is_variable name in
    if bound then
      let! val := _resolve_variable depth name ∅ in
      match matrix_shape val with
      | Some _ => ret val
      | None => otherwise
      end
    else otherwise.

Definition _handle_matrix_literal (depth : nat) (tex : string) : M pydict :=
  try_except
    (let! mat := _parse_matrix_latex tex in
     let! mat := resolve_entries depth mat in
     _make_matrix_result mat "value" [])
    (fun exc => ret (error_result (exn_str exc))).

Definition _handle_matrix_assignment (depth : nat) (name matrix_tex : string)
  : M pydict :=
  try_except
    (let! mat := _parse_matrix_latex matrix_tex in
     let! mat := resolve_entries depth mat in
     let! st := get in
     let! _ := put (Session
                      (<[name := VarBinding (ImmutableMatrix mat) ∅]>
                         (_variables st))
                      (_functions st) (_symbols_cache st)) in
     _make_matrix_result mat "assignment" [("name", JStr name)])
    (fun exc => ret (error_result (exn_str exc))).

Definition not_a_matrix : pydict := error_result "Argument is not a matrix".

(** the common opening of the matrix commands: resolve the argument, check
    that it is a matrix and, where the command asks for it, that it is
    square; [square_msg] builds the message from the shape *)
Definition with_matrix (depth : nat) (parts : list string)
    (square_msg : option (Z -> Z -> string))
    (k : expr -> M pydict) : M pydict :=
  let! p0 := item parts 0 in
  let! mat := _resolve_matrix_arg depth p0 in
  match matrix_shape mat with
  | None => ret not_a_matrix
  | Some (rows, cols) =>
      match square_msg with
      | Some msg =>
          if bool_decide (rows ≠ cols) then ret (error_result (msg rows cols))
          else k mat
      | None => k mat
      end
  end.

(** the multiplication sign and the letter lambda, as UTF-8 *)
Definition utf8_times : string :=
  String (ascii_of_N 195) (String (ascii_of_N 151) "").
Definition utf8_lambda : string :=
  String (ascii_of_N 206) (String (ascii_of_N 187) "").

Definition _cmd_mat_det (depth : nat) (parts : list string) : M pydict :=
  with_matrix depth parts
    (Some (fun r c => "det() requires a square matrix, got " +:+ str_of_int r
                      +:+ utf8_times +:+ str_of_int c))
    (fun mat =>
       let! d := lift (mat_det mat) in
       let! result := lift (simplify d) in
       ret (_make_result result "command" false [])).

Definition _cmd_mat_inv (depth : nat) (parts : list string) : M pydict :=
  with_matrix depth parts
    (Some (fun r c => "inv() requires a square matrix, got " +:+ str_of_int r
                      +:+ utf8_times +:+ str_of_int c))
    (fun mat =>
       try_except
         (let! result := lift (mat_inv mat) in
          _make_matrix_result result "command" [])
         (fun exc =>
            ret (error_result ("Matrix is singular or non-invertible: "
                               +:+ exn_str exc)))).

Definition _cmd_mat_trace (depth : nat) (parts : list string) : M pydict :=
  with_matrix depth parts None
    (fun mat =>
       let! t := lift (mat_trace mat) in
       let! result := lift (simplify t) in
       ret (_make_result result "command" false [])).

Definition _cmd_mat_transpose (depth : nat) (parts : list string) : M pydict :=
  with_matrix depth parts None
    (fun mat =>
       let! t := lift (mat_T mat) in
       _make_matrix_result t "command" []).

Definition command_text (sym_latex sym_plain : string) : pydict :=
  [("ok", JBool true); ("latex", JStr sym_latex); ("plain", JStr sym_plain);
   ("type", JStr "command")].

Definition _cmd_mat_eigenvals (depth : nat) (parts : list string) : M pydict :=
  with_matrix depth parts
    (Some (fun _ _ => "eigenvals() requires a square matrix"))
    (fun mat =>
       let! evals := lift (mat_eigenvals mat) in
       let sym_latex :=
         "\left\{" +:+
         join ",\ " (map (fun vm => latex (fst vm) +:+ " \text{ (mult. "
                                    +:+ str_of_int (snd vm) +:+ ")}") evals)
         +:+ "\right\}" in
       let sym_plain :=
         "{" +:+
         join ", " (map (fun vm => pretty (fst vm) +:+ " (mult. "
                                   +:+ str_of_int (snd vm) +:+ ")") evals)
         +:+ "}" in
       ret (command_text sym_latex sym_plain)).

Definition _cmd_mat_eigenvects (depth : nat) (parts : list string) : M pydict :=
  with_matrix depth parts
    (Some (fun _ _ => "eigenvects() requires a square matrix"))
    (fun mat =>
       let! evects := lift (mat_eigenvects mat) in
       let parts_latex :=
         map (fun t =>
                let '(eigenval, mult, vectors) := t in
                "\lambda=" +:+ latex eigenval +:+ "\ (\times" +:+ str_of_int mult
                +:+ "):\ [" +:+ join ", " (map latex vectors) +:+ "]") evects in
       let parts_plain :=
         map (fun t =>
                let '(eigenval, mult, vectors) := t in
                utf8_lambda +:+ "=" +:+ pretty eigenval +:+ " (" +:+ utf8_times
                +:+ str_of_int mult +:+ "): ["
                +:+ join ", " (map pretty vectors) +:+ "]") evects in
       ret (command_text (join "\\" parts_latex)
                         (join (str1 "010") parts_plain))).

Definition _cmd_mat_rank (depth : nat) (parts : list string) : M pydict :=
  with_matrix depth parts None
    (fun mat =>
       let! r := lift (mat_rank mat) in
       ret (_make_result (Integer r) "command" false [])).

(** [r['plain'] += suffix] on a result that has the key *)
Definition append_plain (suffix : string) (r : pydict) : pydict :=
  match dict_get "plain" r with
  | Some (JStr p) => dict_set "plain" (JStr (p +:+ suffix)) r
  | _ => r
  end.

Definition _cmd_mat_rref (depth : nat) (parts : list string) : M pydict :=
  with_matrix depth parts None
    (fun mat =>
       let! rp := lift (mat_rref mat) in
       let '(rref_mat, pivots) := rp in
       let! r := _make_matrix_result rref_mat "command" [] in
       let r := dict_set "pivots" (JArr (map JNum pivots)) r in
       ret (append_plain (str1 "010" +:+ "Pivot columns: ["
                          +:+ join ", " (map str_of_int pivots) +:+ "]") r)).

Definition _cmd_mat_charpoly (depth : nat) (parts : list string) : M pydict :=
  with_matrix depth parts
    (Some (fun _ _ => "charpoly() requires a square matrix"))
    (fun mat =>
       let lam := Sym "lambda" in
       let! result := lift (mat_charpoly mat lam) in
       ret (_make_result result "command" false [])).

Definition basis_result (basis : list expr) : pydict :=
  match basis with
  | [] => command_text "\{0\}" "{0}"
  | _ =>
      command_text ("\left\{" +:+ join ",\ " (map latex basis) +:+ "\right\}")
                   ("{" +:+ join ", " (map pretty basis) +:+ "}")
  end.

Definition _cmd_mat_nullspace (depth : nat) (parts : list string) : M pydict :=
  with_matrix depth parts None
    (fun mat => let! basis := lift (mat_nullspace mat) in ret (basis_result basis)).

Definition _cmd_mat_colspace (depth : nat) (parts : list string) : M pydict :=
  with_matrix depth parts None
    (fun mat => let! basis := lift (mat_columnspace mat) in ret (basis_result basis)).

Definition _handle_command (depth : nat) (cmd inner_tex : string) : M pydict :=
  let parts := _parse_inner inner_tex in
  let simple (op : expr -> outcome expr) : M pydict :=
    let! p0 := item parts 0 in
    let! e := _safe_parse_latex p0 in
    let! e := _resolve_expr depth e ∅ in
    let! result := lift (op e) in
    ret (_make_result result "command" false []) in
  if String.eqb cmd "solve" then _cmd_solve depth parts
  else if String.eqb cmd "factor" then simple factor
  else if String.eqb cmd "expand" then simple expand
  else if String.eqb cmd "simplify" then simple simplify
  else if String.eqb cmd "diff" then _cmd_diff depth parts
  else if String.eqb cmd "integrate" then _cmd_integrate depth parts
  else if String.eqb cmd "limit" then _cmd_limit depth parts
  else if String.eqb cmd "series" then _cmd_series depth parts
  else if String.eqb cmd "numerical" then
    let! p0 := item parts 0 in
    let! e := _safe_parse_latex p0 in
    let! prec :=
      if bool_decide (1 < List.length parts)
      then let! p1 := item parts 1 in lift (py_int p1)
      else ret 15%Z in
    let! e := _resolve_expr depth e ∅ in
    let! result := lift (N_ e (Some prec)) in
    ret (_make_result result "command" false [])
  else if String.eqb cmd "subs" then _cmd_subs depth parts
  else if String.eqb cmd "det" then _cmd_mat_det depth parts
  else if String.eqb cmd "inv" then _cmd_mat_inv depth parts
  else if String.eqb cmd "trace" then _cmd_mat_trace depth parts
  else if String.eqb cmd "transpose" then _cmd_mat_transpose depth parts
  else if String.eqb cmd "eigenvals" then _cmd_mat_eigenvals depth parts
  else if String.eqb cmd "eigenvects" then _cmd_mat_eigenvects depth parts
  else if String.eqb cmd "rank" then _cmd_mat_rank depth parts
  else if String.eqb cmd "rref" then _cmd_mat_rref depth parts
  else if String.eqb cmd "charpoly" then _cmd_mat_charpoly depth parts
  else if String.eqb cmd "nullspace" then _cmd_mat_nullspace depth parts
  else if String.eqb cmd "colspace" then _cmd_mat_colspace depth parts
  else ret (error_result ("Unknown command: " +:+ cmd)).

(** ** LaTeX calculus notation handlers *)

(** [next((s for s in free if str(s) == 'x'), free[0] if free else None)] *)
Definition choose_integration_variable (free : list symbol) : option symbol :=
  match List.find (fun s => String.eqb (str_of_symbol s) "x") free with
  | Some s => Some s
  | None =>
      match free with
      | s :: _ => Some s
      | [] => None
      end
  end.

(** the lines of [_handle_latex_int] that infer the integration variable
    from the free symbols of the resolved body *)
Definition integration_variable (depth : nat) (body_expr : expr) : M symbol :=
  let! body_expr_resolved_check := _resolve_expr depth body_expr ∅ in
  let free := free_symbols body_expr_resolved_check in
  ret (match choose_integration_variable free with
       | Some v => v
       | None => fresh_dummy "x"
       end).

Definition _handle_latex_int (depth : nat) (lower_tex upper_tex body_tex : string)
  : M pydict :=
  let body_tex := strip (re_sub rule_differential body_tex) in
  let! lower_expr := _safe_parse_latex lower_tex in
  let! upper_expr := _safe_parse_latex upper_tex in
  let! body_expr := _safe_parse_latex body_tex in
  let! var := integration_variable depth body_expr in
  let! body_expr := _resolve_expr depth body_expr {[str_of_symbol var]} in
  let! result := lift (integrate body_expr var (Some (lower_expr, upper_expr))) in
  ret (_make_result result "value" false []).

Definition _handle_latex_sum_prod (depth : nat)
    (op lower_tex upper_tex body_tex : string) : M pydict :=
  let body_tex := strip (re_sub rule_differential_letter body_tex) in
  let! var_lower :=
    match _ASSIGN_VAR (lstrip lower_tex) with
    | Some (var_name, lower_val_tex) =>
        let! var := _get_symbol var_name in
        let! lower_expr := _safe_parse_latex lower_val_tex in
        ret (Some var, lower_expr)
    | None =>
        let! lower_expr := _safe_parse_latex lower_tex in
        ret (None, lower_expr)
    end in
  let '(var, lower_expr) := var_lower in
  let! upper_expr := _safe_parse_latex upper_tex in
  let! body_expr := _safe_parse_latex body_tex in
  let continue (var : symbol) : M pydict :=
    let! body_expr := _resolve_expr depth body_expr {[str_of_symbol var]} in
    if String.eqb op "sum" then
      let! result := lift (summation body_expr var lower_expr upper_expr) in
      ret (_make_result result "value" false [])
    else if String.eqb op "prod" then
      let! result := lift (product body_expr var lower_expr upper_expr) in
      ret (_make_result result "value" false [])
    else ret (error_result ("Unknown operator: " +:+ op)) in
  match var with
  | Some v => continue v
  | None =>
      match free_symbols body_expr with
      | v :: _ => continue v
      | [] => ret (error_result ("Cannot determine variable for \" +:+ op))
      end
  end.

Definition _handle_latex_limit (depth : nat) (var_tex point_tex body_tex : string)
  : M pydict :=
  let! var := _get_symbol (strip var_tex) in
  let! point := _safe_parse_latex (strip point_tex) in
  let! body_expr := _safe_parse_latex body_tex in
  let! body_expr := _resolve_expr depth body_expr {[str_of_symbol var]} in
  let! result := lift (limit body_expr var point) in
  ret (_make_result result "value" false []).

Definition _handle_latex_limit_bare (depth : nat) (body_tex : string) : M pydict :=
  let! body_expr := _safe_parse_latex body_tex in
  let! body_expr := _resolve_expr depth body_expr ∅ in
  let! result := lift (simplify body_expr) in
  ret [("ok", JBool true); ("latex", JStr ("\lim " +:+ latex result));
       ("plain", JStr ("lim " +:+ pretty result)); ("type", JStr "value")].

(** ** Assignment handlers *)

(** the loop of [_handle_var_assignment] over [deps]: [Some r] when the
    loop returns the error result [r] *)
Fixpoint check_dependencies (depth : nat) (name : string) (deps : list string)
  : M (option pydict) :=
  match deps with
  | [] => ret None
  | dep_name :: rest =>
      let! bound := is_variable dep_name in
      if bound then
        fun st =>
          match _resolve_variable depth dep_name {[name]} st with
          | (Return _, st') => check_dependencies depth name rest st'
          | (Raise e, st') =>
              if exn_is_ValueError e
              then (Return (Some (error_result (exn_str e))), st')
              else (Raise e, st')
          end
      else check_dependencies depth name rest
  end.

(** the elements of [deps], in the order the loop visits them *)
Definition dependency_names (e : expr) : list string :=
  dedup_names (map str_of_symbol (free_symbols e)).

Definition _handle_var_assignment (depth : nat) (name body_tex : string)
  : M pydict :=
  let! e := _safe_parse_latex body_tex in
  let deps := _free_names e in
  let! failed := check_dependencies depth name (dependency_names e) in
  match failed with
  | Some r => ret r
  | None =>
      let! st := get in
      let! _ := put (Session (<[name := VarBinding e deps]> (_variables st))
                             (_functions st) (_symbols_cache st)) in
      let! resolved := _resolve_variable depth name ∅ in
      let! simplified := lift (simplify resolved) in
      ret (_make_result simplified "assignment" false [("name", JStr name)])
  end.

Definition _handle_function_def (fname params_str body_tex : string)
  : M pydict :=
  let param_names := map strip (split_char "," params_str) in
  let! param_syms := map_M _get_symbol param_names in
  let! e := _safe_parse_latex body_tex in
  let! st := get in
  let! _ := put (Session (_variables st)
                         (<[fname := FunBinding param_syms e
                                       (_free_names e ∖ list_to_set param_names)]>
                            (_functions st))
                         (_symbols_cache st)) in
  ret (_make_result e "function_def" true
         [("name", JStr fname); ("params", JArr (map JStr param_names))]).

(** ** Main evaluation *)

Definition reserved_constant_names : list string := ["e"; "i"; "pi"; "E"; "I"].

(** step 4 of [_eval_inner], after the expression is resolved *)
Definition plain_result (resolved : expr) : M pydict :=
  match matrix_shape resolved with
  | Some _ => _make_matrix_result resolved "value" []
  | None =>
      let! result := lift (simplify resolved) in
      let! result :=
        if has_doit result then
          try_except
            (let! evaled := lift (doit result) in
             if negb (same_object evaled result) then lift (simplify evaled)
             else ret result)
            (fun _ => ret result)
        else ret result in
      match matrix_shape result with
      | Some _ => _make_matrix_result result "value" []
      | None => ret (_make_result result "value" false [])
      end
  end.

(** step 4 of [_eval_inner]: plain expression evaluation *)
Definition eval_plain (depth : nat) (tex : string) : M pydict :=
  let! e := _safe_parse_latex tex in
  let! resolved := _resolve_expr depth e ∅ in
  plain_result resolved.

(** step 3 of [_eval_inner]: an equation, or else step 4 *)
Definition eval_equation (depth : nat) (tex : string) : M pydict :=
  let plain := eval_plain depth tex in
  if contains_char "=" tex && negb (match tex with String "=" _ => true | _ => false end)
  then
    match split_once "=" tex with
    | Some (lhs_tex, rhs_tex) =>
        if negb (String.eqb (strip lhs_tex) "") && negb (String.eqb (strip rhs_tex) "")
        then
          try_except
            (let! lhs := _safe_parse_latex (_preprocess_latex lhs_tex) in
             let! rhs := _safe_parse_latex (_preprocess_latex rhs_tex) in
             let! eq := lift (Eq lhs rhs) in
             let! eq_resolved := _resolve_expr depth eq ∅ in
             let! result := lift (simplify eq_resolved) in
             ret (_make_result result "equation" false []))
            (fun _ => plain)
        else plain
    | None => plain
    end
  else plain.

(** step 2 of [_eval_inner]: a variable assignment, or else step 3 *)
Definition eval_assignment (depth : nat) (tex plain_cmd : string) : M pydict :=
  match _ASSIGN_VAR plain_cmd with
  | Some (vname, _) =>
      match split_once "=" tex with
      | None => raise (ValueError "substring not found")
      | Some (_, after) =>
          let body_tex := strip after in
          if negb (name_in vname reserved_constant_names) then
            let body_preprocessed := _preprocess_latex body_tex in
            if _is_matrix_expr body_preprocessed
            then _handle_matrix_assignment depth vname body_preprocessed
            else _handle_var_assignment depth vname body_tex
          else eval_equation depth tex
      end
  | None => eval_equation depth tex
  end.

(** the first entry of [_CMD_PATTERNS] that matches *)
Definition find_command (plain_cmd : string) : option (cmd_pattern * string) :=
  first_some (fun p => match match_cmd p plain_cmd with
                       | Some g => Some (p, g)
                       | None => None
                       end) _CMD_PATTERNS.

Definition _eval_inner (depth : nat) (raw_latex : string) : M pydict :=
  let tex := _preprocess_latex raw_latex in
  if String.eqb tex "" then
    ret [("ok", JBool true); ("latex", JStr ""); ("plain", JStr "");
         ("type", JStr "empty")]
  else
    let plain_cmd := strip (strip_command_backslashes tex) in
    match find_command plain_cmd with
    | Some (p, g) =>
        let inner := match match_cmd p (strip tex) with
                     | Some g_orig => g_orig
                     | None => g
                     end in
        _handle_command depth (cmd_name p) inner
    | None =>
    match _LATEX_INT_DEF tex with
    | Some (lo, up, body) => _handle_latex_int depth lo up body
    | None =>
    match _LATEX_SUM_PROD tex with
    | Some (op, lo, up, body) => _handle_latex_sum_prod depth op lo up body
    | None =>
    match _LATEX_LIM_SUB tex with
    | Some (var_tex, point_tex, body) =>
        _handle_latex_limit depth var_tex point_tex body
    | None =>
    match _LATEX_LIM_BARE tex with
    | Some body => _handle_latex_limit_bare depth body
    | None =>
    if _is_matrix_expr tex then _handle_matrix_literal depth tex
    else
    match _ASSIGN_FUNC plain_cmd with
    | Some (fname, params_str, body_tex) =>
        _handle_function_def fname params_str body_tex
    | None => eval_assignment depth tex plain_cmd
    end end end end end end.

Definition cas_evaluate (depth : nat) (raw_latex : string) : M pydict :=
  try_except (_eval_inner depth raw_latex)
    (fun exc => ret (error_result (exn_str exc))).

(** ** State management *)

Definition cas_clear : M pydict :=
  let! _ := put (Session ∅ ∅ ∅) in ret [("ok", JBool true)].

(** one entry of each dictionary of the summary of [cas_get_state] *)
Record var_info := VarInfo {
  vi_latex : string;
  vi_deps : gset string
}.

Record fun_info := FunInfo {
  fi_latex : string;
  fi_params : list string;
  fi_deps : gset string
}.

(** [cas_get_state]: the dictionaries under the keys [variables] and
    [functions].  The keys of a JSON object and the elements of [deps]
    carry no order of their own: the summary is kept as two maps, with
    sets for [deps]. *)
Definition cas_get_state : M (gmap string var_info * gmap string fun_info) :=
  let! st := get in
  ret (fmap (fun info => VarInfo (latex (vb_expr info)) (vb_deps info))
            (_variables st),
       fmap (fun info => FunInfo (latex (fb_expr info))
                                 (map str_of_symbol (fb_params info))
                                 (fb_deps info))
            (_functions st)).

End Engine.

(** * Vocabulary of the statements

    The judgements, relations and restatements in which the properties of
    the engine are stated. *)
Section Vocabulary.

Context {expr : Type} `{SP : SymPy expr}.

Local Abbreviation Comp := (@M expr).
Local Abbreviation state := (@session expr).
Local Abbreviation binding := (@var_binding expr).

(** the first two characters of a string *)
Definition head2 (s : string) : option (ascii * ascii) :=
  match s with
  | String a (String b _) => Some (a, b)
  | _ => None
  end.

(** the first two letters of the command lines on which a big-operator
    pattern or the matrix pattern matches *)
Definition operator_heads : list (ascii * ascii) :=
  [("i", "n"); ("s", "u"); ("p", "r"); ("l", "i"); ("o", "p"); ("b", "e")]%char.

(** [m] leaves the whole session as it found it, whether it returns or
    raises *)
Definition silent {A} (m : Comp A) : Prop :=
  forall st, snd (m st) = st.

(** [st'] has the variable and function tables of [st]; the symbol cache
    may differ *)
Definition same_tables (st st' : state) : Prop :=
  _variables st' = _variables st /\ _functions st' = _functions st.

(** [m] leaves [_variables] and [_functions] as it found them *)
Definition keeps_tables {A} (m : Comp A) : Prop :=
  forall st, same_tables st (snd (m st)).

(** whatever [m] returns satisfies [P] *)
Definition yields {A} (m : Comp A) (P : A -> Prop) : Prop :=
  forall st a st', m st = (Return a, st') -> P a.

(** [{ok: true, latex, plain, type, ...}] with the type among [types] *)
Definition ok_record (types : list string) (r : pydict) : Prop :=
  dict_get "ok" r = Some (JBool true) /\
  (exists l, dict_get "latex" r = Some (JStr l)) /\
  (exists p, dict_get "plain" r = Some (JStr p)) /\
  (exists t, dict_get "type" r = Some (JStr t) /\ In t types).

(** [{ok: false, error}] *)
Definition error_record (r : pydict) : Prop :=
  exists msg, r = error_result msg.

(** one of the two shapes of a result record *)
Definition shaped (types : list string) (r : pydict) : Prop :=
  ok_record types r \/ error_record r.

(** the keys that every [ok: true] record carries *)
Definition core_keys : list string := ["ok"; "latex"; "plain"; "type"].

(** the keys of [extra] are not among the four core keys *)
Definition extra_keys_ok (extra : pydict) : Prop :=
  Forall (fun kv => forall k, In k core_keys -> String.eqb k (fst kv) = false) extra.

(** the result types of the engine *)
Definition all_types : list string :=
  ["value"; "assignment"; "function_def"; "command"; "equation"; "empty"].

(** [x] is bound and its stored body mentions the bound name [y]: the edge
    the resolver follows from [x] to [y]. *)
Definition depends_on (st : state) (x y : string) : Prop :=
  exists b sym,
    _variables st !! x = Some b /\
    sym ∈ free_symbols (vb_expr b) /\
    y = str_of_symbol sym /\
    is_Some (_variables st !! y).

(** the step the loop of [_resolve_variable] takes for one free symbol *)
Definition resolve_step (depth : nat) (visited : gset string)
    (sym : symbol) (sb : list (symbol * expr)) : Comp (list (symbol * expr)) :=
  bind (is_variable (str_of_symbol sym))
       (fun bound : bool =>
          if bound then
            bind (_resolve_variable depth (str_of_symbol sym) visited)
                 (fun v => ret (sb ++ [(sym, v)]))
          else ret sb).

(** a substitution into the stored body of a variable that [x] reaches
    raises [exc] *)
Definition substitution_raises (st : state) (x : string) (exc : pyexn) : Prop :=
  exists y b sb,
    rtc (depends_on st) x y /\
    _variables st !! y = Some b /\
    subs sb (vb_expr b) = Raise exc.

(** a walk along dependency edges *)
Inductive walk (st : state) : string -> list string -> Prop :=
| walk_nil x : walk st x []
| walk_cons x y l : depends_on st x y -> walk st y l -> walk st x (y :: l).

(** [x] lies on a dependency cycle: a non-empty walk leads from [x] back to
    [x]. *)
Definition on_cycle (st : state) (x : string) : Prop :=
  exists l, walk st x (l ++ [x]).

(** what the library guarantees of a bare symbol: it is its own only free
    symbol, it is not an applied function, it has no arguments, and
    substituting for it gives the substituted value *)
Record symbol_laws : Prop := {
  free_symbols_of_symbol : forall s, free_symbols (of_symbol s) = [s];
  applied_undef_of_symbol : forall s, applied_undef (of_symbol s) = None;
  args_of_symbol : forall s, args (of_symbol s) = [];
  subs_of_symbol : forall s v, subs [(s, v)] (of_symbol s) = Return v
}.

(** the names that [_fix_constants] turns into constants *)
Definition constant_names : list string :=
  ["pi"; "e"; "i"; "oo"; "inf"; "infty"].

(** The bare input [x] is read as the variable [x]: it is an identifier,
    not the name of a constant or of a user function, the symbol cache
    holds [Symbol(x)] for it if anything, and [parse_expr] returns that
    symbol for the text [x] when the local dictionary maps [x] to it. *)
Definition reads_as_variable (x : string) (st : state) : Prop :=
  is_identifier x = true /\
  name_in x constant_names = false /\
  _functions st !! x = None /\
  (forall s, _symbols_cache st !! x = Some s -> s = Sym x) /\
  parse_expr x [(x, inl (Sym x))] = Return (of_symbol (Sym x)).

(** The inputs that [_eval_inner] hands to [_handle_var_assignment], with
    the name and the body text it passes: the tests of the dispatcher up to
    step 2, in its order. *)
Definition assignment_form (raw : string) : option (string * string) :=
  let tex := _preprocess_latex raw in
  let plain_cmd := strip (strip_command_backslashes tex) in
  if String.eqb tex "" then None
  else if find_command plain_cmd is Some _ then None
  else if _LATEX_INT_DEF tex is Some _ then None
  else if _LATEX_SUM_PROD tex is Some _ then None
  else if _LATEX_LIM_SUB tex is Some _ then None
  else if _LATEX_LIM_BARE tex is Some _ then None
  else if _is_matrix_expr tex then None
  else if _ASSIGN_FUNC plain_cmd is Some _ then None
  else
    match _ASSIGN_VAR plain_cmd, split_once "=" tex with
    | Some (vname, _), Some (_, after) =>
        if negb (name_in vname reserved_constant_names)
           && negb (_is_matrix_expr (_preprocess_latex (strip after)))
        then Some (vname, strip after)
        else None
    | _, _ => None
    end.

(** [_variables[name] = {'expr': e, 'deps': deps}] *)
Definition store_variable (name : string) (e : expr) (deps : gset string)
    (st : state) : state :=
  Session (<[name := VarBinding e deps]> (_variables st))
          (_functions st) (_symbols_cache st).

(** a loop over [l] that threads an accumulator and stops at the first
    exception, without a session *)
Fixpoint collect {A B} (l : list A) (acc : B) (f : A -> B -> outcome B)
  : outcome B :=
  match l with
  | [] => Return acc
  | a :: l' =>
      match f a acc with
      | Return acc' => collect l' acc' f
      | Raise e => Raise e
      end
  end.

(** substitute, in [e], every free symbol that [vars] binds by what
    [resolve] gives for its name *)
Definition resolve_body_with (resolve : string -> outcome expr)
    (vars : gmap string binding) (e : expr) : outcome expr :=
  match collect (free_symbols e) []
          (fun sym sb =>
             if bool_decide (is_Some (vars !! str_of_symbol sym)) then
               match resolve (str_of_symbol sym) with
               | Return v => Return (sb ++ [(sym, v)])
               | Raise exc => Raise exc
               end
             else Return sb) with
  | Return [] => Return e
  | Return sb => subs sb e
  | Raise exc => Raise exc
  end.

(** the resolver over the variable table alone: a bound name is replaced
    by its stored body in which every free symbol that is itself bound has
    been resolved in turn, the names on the path being kept in [visited] *)
Fixpoint resolve_name (depth : nat) (vars : gmap string binding)
    (visited : gset string) (name : string) : outcome expr :=
  match depth with
  | 0 => Raise RecursionError
  | S depth' =>
      if bool_decide (name ∈ visited) then Raise (ValueError (circular_msg name))
      else
        match vars !! name with
        | None => Return (of_symbol (Sym name))
        | Some b =>
            resolve_body_with (resolve_name depth' vars ({[name]} ∪ visited))
                              vars (vb_expr b)
        end
  end.

(** the resolution of the stored body [e] of [name], [depth] levels deep *)
Definition resolve_body (depth : nat) (vars : gmap string binding)
    (name : string) (e : expr) : outcome expr :=
  resolve_body_with (resolve_name depth vars {[name]}) vars e.

(** what step 4 makes of a resolved value, without the session: the result
    record, or the exception that [simplify] or the rendering raise *)
Definition plain_value (resolved : expr) : outcome pydict :=
  fst (plain_result resolved (Session ∅ ∅ ∅)).

(** the record the entry point returns for an outcome of the evaluation *)
Definition record_of (o : outcome pydict) : pydict :=
  match o with
  | Return r => r
  | Raise exc => error_result (exn_str exc)
  end.

(** sequencing of outcomes *)
Definition and_then {A B} (o : outcome A) (k : A -> outcome B) : outcome B :=
  match o with
  | Return a => k a
  | Raise exc => Raise exc
  end.

(** the extras of a call do not set the numeric fields *)
Definition no_numeric_keys (extra : pydict) : Prop :=
  Forall (fun kv => String.eqb "numeric_latex" (fst kv) = false /\
                    String.eqb "numeric_plain" (fst kv) = false) extra.

(** The inputs that [_eval_inner] hands to [_handle_matrix_assignment], with
    the name and the matrix text it passes. *)
Definition matrix_assignment_form (raw : string) : option (string * string) :=
  let tex := _preprocess_latex raw in
  let plain_cmd := strip (strip_command_backslashes tex) in
  if String.eqb tex "" then None
  else if find_command plain_cmd is Some _ then None
  else if _LATEX_INT_DEF tex is Some _ then None
  else if _LATEX_SUM_PROD tex is Some _ then None
  else if _LATEX_LIM_SUB tex is Some _ then None
  else if _LATEX_LIM_BARE tex is Some _ then None
  else if _is_matrix_expr tex then None
  else if _ASSIGN_FUNC plain_cmd is Some _ then None
  else
    match _ASSIGN_VAR plain_cmd, split_once "=" tex with
    | Some (vname, _), Some (_, after) =>
        if negb (name_in vname reserved_constant_names)
           && _is_matrix_expr (_preprocess_latex (strip after))
        then Some (vname, _preprocess_latex (strip after))
        else None
    | _, _ => None
    end.

(** the brace level after [s], entered at level [d]; [None] when a closing
    brace meets level 0 *)
Fixpoint brace_level (d : nat) (s : string) : option nat :=
  match s with
  | "" => Some d
  | String c s' =>
      if Ascii.eqb c "{" then brace_level (S d) s'
      else if Ascii.eqb c "}" then
        match d with
        | 0 => None
        | S d' => brace_level d' s'
        end
      else brace_level d s'
  end.

(** the depth of brackets after [s], entered at depth [d]; [None] when [s]
    has a comma outside every bracket *)
Fixpoint part_depth (d : Z) (s : string) : option Z :=
  match s with
  | "" => Some d
  | String ch s' =>
      if name_in (str1 ch) ["("; "{"; "["] then part_depth (d + 1) s'
      else if name_in (str1 ch) [")"; "}"; "]"] then part_depth (d - 1) s'
      else if Ascii.eqb ch "," && (d =? 0)%Z then None
      else part_depth d s'
  end.

(** text without backslash and without braces *)
Definition plain_text (s : string) : bool :=
  negb (contains_char "\" s) && negb (contains_char "{" s)
  && negb (contains_char "}" s).

(** the sessions before and after [m] are related by [R], whether [m]
    returns or raises *)
Definition moves (R : state -> state -> Prop) {A} (m : Comp A) : Prop :=
  forall st, R st (snd (m st)).

(** [_symbols_cache[name] = Symbol(name)] for a name not yet cached *)
Definition cache_symbol (name : string) (st : state) : state :=
  Session (_variables st) (_functions st)
          (<[name := Sym name]> (_symbols_cache st)).

(** [_functions[fname] = {'params': ..., 'expr': ..., 'deps': ...}] *)
Definition store_function (fname : string) (fb : @fun_binding expr)
    (st : state) : state :=
  Session (_variables st) (<[fname := fb]> (_functions st)) (_symbols_cache st).

(** The inputs that [_eval_inner] hands to [_handle_function_def], with the
    name, the parameter text and the body text it passes. *)
Definition function_def_form (raw : string) : option (string * string * string) :=
  let tex := _preprocess_latex raw in
  let plain_cmd := strip (strip_command_backslashes tex) in
  if String.eqb tex "" then None
  else if find_command plain_cmd is Some _ then None
  else if _LATEX_INT_DEF tex is Some _ then None
  else if _LATEX_SUM_PROD tex is Some _ then None
  else if _LATEX_LIM_SUB tex is Some _ then None
  else if _LATEX_LIM_BARE tex is Some _ then None
  else if _is_matrix_expr tex then None
  else _ASSIGN_FUNC plain_cmd.

(** the session has the function table of [st], and its variable table but
    for the entry of [name] *)
Definition writes_variable (name : string) (st st' : state) : Prop :=
  _functions st' = _functions st /\
  (_variables st' = _variables st \/
   exists b, _variables st' = <[name := b]> (_variables st)).

(** the session has the variable table of [st], and its function table but
    for the entry of [fname] *)
Definition writes_function (fname : string) (st st' : state) : Prop :=
  _variables st' = _variables st /\
  (_functions st' = _functions st \/
   exists fb, _functions st' = <[fname := fb]> (_functions st)).

(** the cache of [st'] extends that of [st] by symbols cached under their
    own names *)
Definition cache_grows (st st' : state) : Prop :=
  _symbols_cache st ⊆ _symbols_cache st' /\
  forall n s, _symbols_cache st' !! n = Some s ->
              _symbols_cache st !! n = Some s \/ s = Sym n.

(** an unbound name, not the name of a function, enters the [local_dict]
    of [_safe_parse_latex] as a symbol when it is one of the multi-letter
    symbols, or a single character that is not a known name *)
Definition enters_local_dict (n : string) : bool :=
  name_in n _MULTICHAR_SYMBOLS
  || (negb (name_in n _KNOWN_NAMES) && Nat.eqb (String.length n) 1).

(** what [_handle_latex_sum_prod] makes of the resolved body, the variable
    and the bounds *)
Definition big_operator_result (op : string) (body : expr) (var : symbol)
    (lower upper : expr) : outcome pydict :=
  if String.eqb op "sum" then
    match summation body var lower upper with
    | Return result => Return (_make_result result "value" false [])
    | Raise exc => Raise exc
    end
  else if String.eqb op "prod" then
    match product body var lower upper with
    | Return result => Return (_make_result result "value" false [])
    | Raise exc => Raise exc
    end
  else Return (error_result ("Unknown operator: " +:+ op)).

End Vocabulary.

Arguments symbol_laws expr {SP}.

(** * A small instance of the library interface

    [Mini] implements the interface for a fragment that is enough to run the
    engine on concrete inputs: integer literals, identifiers, the four
    constants, sums of these written with the symbols first, matrices of
    such, and definite integrals of a constant or of the integration
    variable between integer bounds.  What lies outside the fragment raises
    [NotImplementedError]. *)
Module Mini.

Inductive term :=
| TInt (z : Z)
| TSym (s : symbol)
| TConst (name : string)
| TFloat (tex plain : string)
| TAdd (a b : term)
| TBool (b : bool)
| TEq (a b : term)
| TMatrix (immutable : bool) (rows : list (list term)).

(** the string of the given UTF-8 bytes *)
Definition utf8 (bytes : list N) : string :=
  string_of_list_ascii (map ascii_of_N bytes).

Definition NotImplementedError : pyexn :=
  PyExn "NotImplementedError" false "outside the fragment".
Definition SyntaxError : pyexn := PyExn "SyntaxError" false "invalid syntax".

(** sums of integers are evaluated on construction, as SymPy does *)
Definition mk_add (a b : term) : term :=
  match a, b with
  | TInt x, TInt y => TInt (x + y)
  | _, _ => TAdd a b
  end.

(** [Eq]: a relation between two numbers is decided on construction *)
Definition mk_eq (a b : term) : term :=
  match a, b with
  | TInt x, TInt y => TBool (x =? y)%Z
  | TInt _, TConst _ | TConst _, TInt _ => TBool false
  | TConst n, TConst n' => TBool (String.eqb n n')
  | _, _ => TEq a b
  end.

Fixpoint symbols_of (t : term) : list symbol :=
  match t with
  | TSym s => [s]
  | TAdd a b | TEq a b => symbols_of a ++ symbols_of b
  | TMatrix _ rows => List.concat (map (fun row => List.concat (map symbols_of row)) rows)
  | _ => []
  end.

Fixpoint dedup_symbols (l : list symbol) : list symbol :=
  match l with
  | [] => []
  | s :: l' => s :: filter (fun s' => negb (bool_decide (s = s'))) (dedup_symbols l')
  end.

Fixpoint lookup_symbol (s : symbol) (sb : list (symbol * term)) : option term :=
  match sb with
  | [] => None
  | (s', v) :: sb' => if bool_decide (s = s') then Some v else lookup_symbol s sb'
  end.

Fixpoint substitute (sb : list (symbol * term)) (t : term) : term :=
  match t with
  | TSym s => match lookup_symbol s sb with Some v => v | None => t end
  | TAdd a b => mk_add (substitute sb a) (substitute sb b)
  | TEq a b => mk_eq (substitute sb a) (substitute sb b)
  | TMatrix im rows => TMatrix im (map (map (substitute sb)) rows)
  | _ => t
  end.

Fixpoint list_eqb {A} (eqb : A -> A -> bool) (l l' : list A) : bool :=
  match l, l' with
  | [], [] => true
  | a :: l, a' :: l' => eqb a a' && list_eqb eqb l l'
  | _, _ => false
  end.

Fixpoint term_eqb (t t' : term) : bool :=
  match t, t' with
  | TInt x, TInt y => (x =? y)%Z
  | TSym s, TSym s' => bool_decide (s = s')
  | TConst n, TConst n' => String.eqb n n'
  | TFloat d p, TFloat d' p' => String.eqb d d' && String.eqb p p'
  | TAdd a b, TAdd a' b' => term_eqb a a' && term_eqb b b'
  | TBool b, TBool b' => Bool.eqb b b'
  | TEq a b, TEq a' b' => term_eqb a a' && term_eqb b b'
  | TMatrix i rows, TMatrix i' rows' =>
      Bool.eqb i i' && list_eqb (list_eqb term_eqb) rows rows'
  | _, _ => false
  end.

(** cut a flat list of entries into rows as long as those of [shape] *)
Fixpoint reshape (shape : list (list term)) (entries : list term)
  : list (list term) :=
  match shape with
  | [] => []
  | row :: shape' =>
      firstn (List.length row) entries
      :: reshape shape' (skipn (List.length row) entries)
  end.

Fixpoint digits_value (acc : Z) (s : string) : Z :=
  match s with
  | "" => acc
  | String c s' => digits_value (10 * acc + (Z.of_N (N_of_ascii c) - 48)) s'
  end.

Definition is_number (s : string) : bool :=
  negb (String.eqb s "") && all_chars is_digit s.

Definition parse_atom (local : list (string * (symbol + string))) (a : string)
  : outcome term :=
  let a := strip a in
  if is_number a then Return (TInt (digits_value 0 a))
  else if is_identifier a then
    match dict_get a local with
    | Some (inl s) => Return (TSym s)
    | Some (inr _) => Raise NotImplementedError
    | None =>
        if name_in a ["pi"; "oo"; "E"; "I"] then Return (TConst a)
        else Raise NotImplementedError
    end
  else Raise SyntaxError.

Fixpoint parse_sum (local : list (string * (symbol + string)))
    (acc : term) (atoms : list string) : outcome term :=
  match atoms with
  | [] => Return acc
  | a :: rest =>
      match parse_atom local a with
      | Return t => parse_sum local (mk_add acc t) rest
      | Raise e => Raise e
      end
  end.

Definition parse_text (s : string) (local : list (string * (symbol + string)))
  : outcome term :=
  match split_char "+" s with
  | [] => Raise SyntaxError
  | a :: rest =>
      match parse_atom local a with
      | Return t => parse_sum local t rest
      | Raise e => Raise e
      end
  end.

Fixpoint render (t : term) : string :=
  match t with
  | TInt z => str_of_int z
  | TSym s => str_of_symbol s
  | TConst n =>
      if String.eqb n "pi" then "\pi"
      else if String.eqb n "oo" then "\infty"
      else if String.eqb n "E" then "e" else "i"
  | TFloat d _ => d
  | TAdd a b => render a +:+ " + " +:+ render b
  | TBool true => "\text{True}"
  | TBool false => "\text{False}"
  | TEq a b => render a +:+ " = " +:+ render b
  | TMatrix _ rows =>
      "\left[\begin{matrix}"
      +:+ join "\\" (map (fun row => join " & " (map render row)) rows)
      +:+ "\end{matrix}\right]"
  end.

Fixpoint render_plain (t : term) : string :=
  match t with
  | TInt z => str_of_int z
  | TSym s => str_of_symbol s
  | TConst n =>
      if String.eqb n "pi" then utf8 [207; 128]%N
      else if String.eqb n "oo" then utf8 [226; 136; 158]%N
      else if String.eqb n "E" then utf8 [226; 132; 175]%N
      else utf8 [226; 133; 136]%N
  | TFloat _ p => p
  | TAdd a b => render_plain a +:+ " + " +:+ render_plain b
  | TBool true => "True"
  | TBool false => "False"
  | TEq a b => render_plain a +:+ " = " +:+ render_plain b
  | TMatrix _ rows =>
      "[" +:+ join "; " (map (fun row => join " " (map render_plain row)) rows)
      +:+ "]"
  end.

(** [N] inside a sum: an integer becomes a float, [pi] and [E] their
    15-digit values *)
Fixpoint numeric_in (t : term) : term :=
  match t with
  | TInt z => TFloat (str_of_int z +:+ ".0") (str_of_int z +:+ ".0")
  | TConst n =>
      if String.eqb n "pi" then TFloat "3.14159265358979" "3.14159265358979"
      else if String.eqb n "E" then TFloat "2.71828182845905" "2.71828182845905"
      else t
  | TAdd a b => TAdd (numeric_in a) (numeric_in b)
  | _ => t
  end.

(** [N]; a float on its own is pretty-printed with full precision *)
Definition numeric (t : term) : outcome term :=
  match t with
  | TInt z =>
      Return (TFloat (str_of_int z +:+ ".0") (str_of_int z +:+ ".00000000000000"))
  | TSym _ | TAdd _ _ => Return (numeric_in t)
  | TConst n =>
      if String.eqb n "I" then Raise NotImplementedError
      else Return (numeric_in t)
  | _ => Raise NotImplementedError
  end.

(** [integrate] with integer bounds, for a constant integrand and for the
    integration variable itself *)
Definition definite_integral (e : term) (var : symbol)
    (bounds : option (term * term)) : outcome term :=
  match e, bounds with
  | TInt c, Some (TInt lo, TInt hi) => Return (TInt (c * (hi - lo)))
  | TSym s, Some (TInt lo, TInt hi) =>
      if bool_decide (s = var) && Z.even (hi * hi - lo * lo)
      then Return (TInt ((hi * hi - lo * lo) / 2))
      else Raise NotImplementedError
  | _, _ => Raise NotImplementedError
  end.

#[global] Instance mini_sympy : SymPy term := {|
  of_symbol := TSym;
  free_symbols := fun t => dedup_symbols (symbols_of t);
  subs := fun sb t => Return (substitute sb t);
  subs_pair := fun e old new =>
    Return (match old with TSym s => substitute [(s, new)] e | _ => e end);
  applied_undef := fun _ => None;
  args := fun t => match t with TAdd a b | TEq a b => [a; b] | _ => [] end;
  rebuild := fun t new_args =>
    match t, new_args with
    | TAdd _ _, [a; b] => Return (mk_add a b)
    | TEq _ _, [a; b] => Return (mk_eq a b)
    | _, _ => Raise NotImplementedError
    end;
  expr_eqb := term_eqb;
  Zero := TInt 0;
  Eq := fun a b => Return (mk_eq a b);
  Integer := TInt;
  const_pi := TConst "pi";
  const_E := TConst "E";
  const_I := TConst "I";
  const_oo := TConst "oo";
  is_Integer := fun t => match t with TInt _ => true | _ => false end;
  matrix_shape := fun t =>
    match t with
    | TMatrix _ rows =>
        Some (Z.of_nat (List.length rows),
              match rows with row :: _ => Z.of_nat (List.length row) | [] => 0%Z end)
    | _ => None
    end;
  matrix_entries := fun t =>
    match t with TMatrix _ rows => List.concat rows | _ => [] end;
  matrix_with_entries := fun t entries =>
    match t with TMatrix im rows => TMatrix im (reshape rows entries) | _ => t end;
  Matrix := fun rows => Return (TMatrix false rows);
  ImmutableMatrix := fun t =>
    match t with TMatrix _ rows => TMatrix true rows | _ => t end;
  parse_latex := fun _ => Raise NotImplementedError;
  parse_expr := parse_text;
  py_int := fun s =>
    if is_number (strip s) then Return (digits_value 0 (strip s))
    else Raise (ValueError "invalid literal for int()");
  latex := render;
  pretty := render_plain;
  N_ := fun t _ => numeric t;
  simplify := fun t =>
    match t with
    | TEq (TInt x) (TInt y) => Return (TBool (x =? y)%Z)
    | _ => Return t
    end;
  factor := Return;
  expand := Return;
  has_doit := fun _ => true;
  doit := Return;
  same_object := fun _ _ => true;
  solve := fun _ _ => Raise NotImplementedError;
  diff := fun _ _ _ => Raise NotImplementedError;
  integrate := definite_integral;
  limit := fun _ _ _ => Raise NotImplementedError;
  series := fun _ _ _ _ => Raise NotImplementedError;
  summation := fun _ _ _ _ => Raise NotImplementedError;
  product := fun _ _ _ _ => Raise NotImplementedError;
  fresh_dummy := fun n => DummySym n 0;
  mat_det := fun _ => Raise NotImplementedError;
  mat_inv := fun _ => Raise NotImplementedError;
  mat_trace := fun _ => Raise NotImplementedError;
  mat_T := fun _ => Raise NotImplementedError;
  mat_eigenvals := fun _ => Raise NotImplementedError;
  mat_eigenvects := fun _ => Raise NotImplementedError;
  mat_rank := fun _ => Raise NotImplementedError;
  mat_rref := fun _ => Raise NotImplementedError;
  mat_charpoly := fun _ _ => Raise NotImplementedError;
  mat_nullspace := fun _ => Raise NotImplementedError;
  mat_columnspace := fun _ => Raise NotImplementedError
|}.

(** the session after [cas_clear] *)
Definition empty_session : session (expr := term) := Session ∅ ∅ ∅.

(** the recursion limit used in the examples *)
Definition depth : nat := 50.

(** evaluate the inputs one after the other; the results, last first, and
    the session reached *)
Fixpoint run (inputs : list string) (st : session (expr := term))
  : list pydict * session (expr := term) :=
  match inputs with
  | [] => ([], st)
  | raw :: rest =>
      match cas_evaluate depth raw st with
      | (Return r, st') => let '(rs, st'') := run rest st' in (rs ++ [r], st'')
      | (Raise _, st') => ([], st')
      end
  end.

(** the result of the last input of a run from the empty session *)
Definition last_result (inputs : list string) : option pydict :=
  match fst (run inputs empty_session) with
  | r :: _ => Some r
  | [] => None
  end.

(** the record of an evaluation that returned one *)
Definition record (o : outcome pydict * session (expr := term)) : pydict :=
  match fst o with
  | Return r => r
  | Raise _ => []
  end.

(** the session after the given inputs *)
Definition after (inputs : list string) : session (expr := term) :=
  snd (run inputs empty_session).

(** the session after [p = q+1] and [q = p+1] *)
Definition cyclic_session : session (expr := term) :=
  after ["p = q+1"; "q = p+1"].

(** the height of a term over its arguments *)
Fixpoint height (t : term) : nat :=
  match t with
  | TAdd a b | TEq a b => S (Nat.max (height a) (height b))
  | _ => 0
  end.

End Mini.

(** * Properties of the text layer

    What the patterns do on a string made of word characters only, and in
    particular on an identifier: pre-processing leaves it unchanged and no
    pattern of the dispatcher matches it. *)

Section TextProperties.

#[local] Arguments Ascii.eqb : simpl never.
#[local] Arguments String.eqb : simpl never.
#[local] Arguments is_space : simpl never.
#[local] Arguments is_word : simpl never.
#[local] Arguments is_alpha : simpl never.
#[local] Arguments is_ident_start : simpl never.

Lemma is_word_facts c :
  is_word c = true ->
  is_space c = false /\
  Ascii.eqb c "\" = false /\ Ascii.eqb "\" c = false /\
  Ascii.eqb c "^" = false /\ Ascii.eqb c "{" = false /\
  Ascii.eqb c "}" = false /\ Ascii.eqb c "(" = false /\
  Ascii.eqb c ")" = false /\ Ascii.eqb c "=" = false /\
  Ascii.eqb "=" c = false.
Proof.
  destruct c as [[] [] [] [] [] [] [] []]; vm_compute; intros H;
    try discriminate H; repeat split.
Qed.

Lemma all_chars_cons p c s :
  all_chars p (String c s) = true -> p c = true /\ all_chars p s = true.
Proof. simpl. intros H. apply andb_true_iff in H. exact H. Qed.

Lemma span_all p s : all_chars p s = true -> span p s = (s, "").
Proof.
  induction s as [|c s IH]; simpl; [reflexivity|].
  intros H. apply andb_true_iff in H as [Hc Hs]. rewrite Hc, (IH Hs). reflexivity.
Qed.

Lemma lstrip_word s : all_chars is_word s = true -> lstrip s = s.
Proof.
  destruct s as [|c s]; [reflexivity|]. intros H.
  apply all_chars_cons in H as [Hc _].
  destruct (is_word_facts c Hc) as (Hsp & _).
  unfold lstrip. simpl. rewrite Hsp. reflexivity.
Qed.

Lemma rstrip_word s : all_chars is_word s = true -> rstrip s = s.
Proof.
  induction s as [|c s IH]; [reflexivity|]. intros H.
  apply all_chars_cons in H as [Hc Hs].
  destruct (is_word_facts c Hc) as (Hsp & _).
  simpl. rewrite (IH Hs). destruct s; [rewrite Hsp|]; reflexivity.
Qed.

Lemma strip_word s : all_chars is_word s = true -> strip s = s.
Proof. intros H. unfold strip. rewrite lstrip_word, rstrip_word; auto. Qed.

(** a rule that declines at every position of a word leaves it unchanged *)
Lemma scan_word_id rule :
  (forall prev c rest,
      is_word c = true -> all_chars is_word rest = true ->
      (forall p, prev = Some p -> is_word p = true) ->
      rule prev (String c rest) = None) ->
  forall s prev,
    all_chars is_word s = true ->
    (forall p, prev = Some p -> is_word p = true) ->
    scan rule 0 prev s = s.
Proof.
  intros Hrule. induction s as [|c s IH]; intros prev Hs Hp; [reflexivity|].
  apply all_chars_cons in Hs as [Hc Hs]. simpl.
  rewrite (Hrule prev c s Hc Hs Hp). f_equal.
  apply IH; [exact Hs|]. intros p [= <-]. exact Hc.
Qed.

Lemma re_sub_word_id rule s :
  (forall prev c rest,
      is_word c = true -> all_chars is_word rest = true ->
      (forall p, prev = Some p -> is_word p = true) ->
      rule prev (String c rest) = None) ->
  all_chars is_word s = true -> re_sub rule s = s.
Proof.
  intros Hrule Hs. apply scan_word_id; [exact Hrule | exact Hs | intros p [=]].
Qed.

Lemma strip_prefix_backslash_word p c rest :
  is_word c = true -> strip_prefix (String "\" p) (String c rest) = None.
Proof.
  intros Hc. destruct (is_word_facts c Hc) as (_ & _ & H & _).
  simpl. rewrite H. reflexivity.
Qed.

Lemma replace_word_id p new s :
  all_chars is_word s = true -> replace (String "\" p) new s = s.
Proof.
  intros Hs. unfold replace. apply re_sub_word_id; [| exact Hs].
  intros prev c rest Hc _ _. rewrite strip_prefix_backslash_word by exact Hc.
  reflexivity.
Qed.

Lemma has_latex_command_word s :
  all_chars is_word s = true -> has_latex_command s = false.
Proof.
  induction s as [|c s IH]; [reflexivity|]. intros H.
  apply all_chars_cons in H as [Hc Hs].
  destruct (is_word_facts c Hc) as (_ & H1 & _).
  simpl. rewrite H1, (IH Hs). reflexivity.
Qed.

Ltac word_cases c Hc :=
  destruct c as [[] [] [] [] [] [] [] []]; vm_compute in Hc;
  try discriminate Hc; try reflexivity.

Lemma rule_operatorname_word prev c rest :
  is_word c = true -> rule_operatorname prev (String c rest) = None.
Proof.
  intros Hc. unfold rule_operatorname.
  rewrite strip_prefix_backslash_word by exact Hc. reflexivity.
Qed.

Lemma rule_superscript_word prev c rest :
  is_word c = true -> rule_superscript prev (String c rest) = None.
Proof. intros Hc. word_cases c Hc. Qed.

Lemma rule_subscript_word prev c rest :
  is_word c = true ->
  (forall p, prev = Some p -> is_word p = true) ->
  rule_subscript prev (String c rest) = None.
Proof.
  intros Hc Hp. destruct prev as [p|]; [| reflexivity].
  specialize (Hp p eq_refl).
  destruct (is_word_facts p Hp) as (Hsp & _ & _ & _ & _ & Hcb & _ & Hcp & _).
  unfold rule_subscript.
  word_cases c Hc. rewrite Hsp, Hcb, Hcp. reflexivity.
Qed.

Lemma rule_command_subscript_word prev c rest :
  is_word c = true -> rule_command_subscript prev (String c rest) = None.
Proof. intros Hc. word_cases c Hc. Qed.

Lemma rule_strip_backslash_word prev c rest :
  is_word c = true -> rule_strip_backslash prev (String c rest) = None.
Proof. intros Hc. word_cases c Hc. Qed.

Lemma rule_braced_power_word conv prev c rest :
  is_word c = true -> rule_braced_power conv prev (String c rest) = None.
Proof. intros Hc. word_cases c Hc. Qed.

Lemma rule_subscript_braces_word prev c rest :
  is_word c = true -> all_chars is_word rest = true ->
  rule_subscript_braces prev (String c rest) = None.
Proof.
  intros Hc Hr. unfold rule_subscript_braces, braced_after.
  word_cases c Hc.
  destruct rest as [|c' rest']; [reflexivity|].
  apply all_chars_cons in Hr as [Hc' _].
  destruct (is_word_facts c' Hc') as (_ & _ & _ & _ & H & _).
  simpl. rewrite Ascii.eqb_sym, H. reflexivity.
Qed.

Lemma preprocess_word s : all_chars is_word s = true -> _preprocess_latex s = s.
Proof.
  intros Hs. unfold _preprocess_latex.
  rewrite strip_word by exact Hs.
  rewrite !(replace_word_id _ _ s) by exact Hs.
  rewrite (re_sub_word_id rule_operatorname s)
    by (auto using rule_operatorname_word).
  rewrite !(replace_word_id _ _ s) by exact Hs.
  rewrite has_latex_command_word by exact Hs.
  rewrite (re_sub_word_id rule_superscript s) by (auto using rule_superscript_word).
  rewrite (re_sub_word_id rule_subscript s) by (auto using rule_subscript_word).
  rewrite (re_sub_word_id rule_command_subscript s)
    by (auto using rule_command_subscript_word).
  reflexivity.
Qed.

Lemma strip_command_backslashes_word s :
  all_chars is_word s = true -> strip_command_backslashes s = s.
Proof.
  intros Hs. apply re_sub_word_id; [| exact Hs].
  auto using rule_strip_backslash_word.
Qed.

Lemma first_some_none {A B} (f : A -> option B) l :
  (forall a, f a = None) -> first_some f l = None.
Proof. intros Hf. induction l as [|a l IH]; simpl; [| rewrite Hf]; auto. Qed.

Lemma strip_prefix_word p : forall s r,
  strip_prefix p s = Some r -> all_chars is_word s = true ->
  all_chars is_word r = true.
Proof.
  induction p as [|a p IH]; intros s r H Hs; simpl in H.
  - injection H as <-. exact Hs.
  - destruct s as [|b s]; [discriminate|].
    destruct (Ascii.eqb a b); [| discriminate].
    apply all_chars_cons in Hs as [_ Hs]. eapply IH; eassumption.
Qed.

Lemma strip_prefix_ci_word p : forall s r,
  strip_prefix_ci p s = Some r -> all_chars is_word s = true ->
  all_chars is_word r = true.
Proof.
  induction p as [|a p IH]; intros s r H Hs; simpl in H.
  - injection H as <-. exact Hs.
  - destruct s as [|b s]; [discriminate|].
    destruct (Ascii.eqb (lower a) (lower b)); [| discriminate].
    apply all_chars_cons in Hs as [_ Hs]. eapply IH; eassumption.
Qed.

Lemma paren_argument_word r : all_chars is_word r = true -> paren_argument r = None.
Proof.
  intros Hr. unfold paren_argument. rewrite lstrip_word by exact Hr.
  destruct r as [|c r]; [reflexivity|].
  apply all_chars_cons in Hr as [Hc _]. word_cases c Hc.
Qed.

Lemma match_cmd_word p s : all_chars is_word s = true -> match_cmd p s = None.
Proof.
  intros Hs. unfold match_cmd.
  assert (Hs' : (if cmd_backslash p
                 then match s with String "\" r => r | _ => s end
                 else s) = s).
  { destruct (cmd_backslash p); [| reflexivity].
    destruct s as [|c s']; [reflexivity|].
    apply all_chars_cons in Hs as [Hc _]. word_cases c Hc. }
  rewrite Hs'. apply first_some_none. intros name.
  destruct (cmd_ignore_case p).
  - destruct (strip_prefix_ci name s) as [r|] eqn:E; [| reflexivity].
    apply paren_argument_word. eapply strip_prefix_ci_word; eassumption.
  - destruct (strip_prefix name s) as [r|] eqn:E; [| reflexivity].
    apply paren_argument_word. eapply strip_prefix_word; eassumption.
Qed.

Lemma find_command_word s : all_chars is_word s = true -> find_command s = None.
Proof.
  intros Hs. unfold find_command. apply first_some_none. intros p.
  rewrite match_cmd_word by exact Hs. reflexivity.
Qed.

Lemma strip_prefix_backslash_words p s :
  all_chars is_word s = true -> strip_prefix (String "\" p) s = None.
Proof.
  destruct s as [|c s]; [reflexivity|]. intros Hs.
  apply all_chars_cons in Hs as [Hc _]. apply strip_prefix_backslash_word, Hc.
Qed.

Lemma LATEX_INT_DEF_word s : all_chars is_word s = true -> _LATEX_INT_DEF s = None.
Proof.
  intros Hs. unfold _LATEX_INT_DEF.
  rewrite strip_prefix_backslash_words by exact Hs. reflexivity.
Qed.

Lemma LATEX_SUM_PROD_word s : all_chars is_word s = true -> _LATEX_SUM_PROD s = None.
Proof.
  intros Hs. unfold _LATEX_SUM_PROD. cbn [first_some].
  change ("\" +:+ "sum") with "\sum". change ("\" +:+ "prod") with "\prod".
  rewrite !strip_prefix_backslash_words by exact Hs. reflexivity.
Qed.

Lemma after_lim_word s : all_chars is_word s = true -> after_lim s = None.
Proof.
  intros Hs. unfold after_lim. cbn [first_some].
  rewrite !strip_prefix_backslash_words by exact Hs. reflexivity.
Qed.

Lemma LATEX_LIM_SUB_word s : all_chars is_word s = true -> _LATEX_LIM_SUB s = None.
Proof. intros Hs. unfold _LATEX_LIM_SUB. rewrite after_lim_word by exact Hs. reflexivity. Qed.

Lemma LATEX_LIM_BARE_word s : all_chars is_word s = true -> _LATEX_LIM_BARE s = None.
Proof. intros Hs. unfold _LATEX_LIM_BARE. rewrite after_lim_word by exact Hs. reflexivity. Qed.

Lemma MATRIX_ENV_RE_word s : all_chars is_word s = true -> _MATRIX_ENV_RE s = None.
Proof.
  intros Hs. unfold _MATRIX_ENV_RE, matrix_env_kinds. cbn [first_some].
  repeat match goal with
         | |- context [strip_prefix (?a +:+ ?k +:+ ?b) s] =>
             let t := eval vm_compute in (a +:+ k +:+ b) in
             change (a +:+ k +:+ b) with t
         end.
  rewrite !strip_prefix_backslash_words by exact Hs. reflexivity.
Qed.

Lemma is_matrix_expr_word s : all_chars is_word s = true -> _is_matrix_expr s = false.
Proof.
  intros Hs. unfold _is_matrix_expr.
  rewrite strip_word, MATRIX_ENV_RE_word by exact Hs. reflexivity.
Qed.

Lemma is_identifier_word s : is_identifier s = true -> all_chars is_word s = true.
Proof.
  destruct s as [|c w]; [discriminate|]. simpl. intros H.
  apply andb_true_iff in H as [Hc Hw]. rewrite Hw, andb_true_r.
  unfold is_word. unfold is_ident_start in Hc.
  apply orb_true_iff in Hc as [->| ->]; [reflexivity | apply orb_true_r].
Qed.

Lemma leading_identifier_id s :
  is_identifier s = true -> leading_identifier s = Some (s, "").
Proof.
  destruct s as [|c w]; [discriminate|]. simpl. intros H.
  apply andb_true_iff in H as [Hc Hw].
  unfold leading_identifier. rewrite Hc, (span_all _ _ Hw). reflexivity.
Qed.

Lemma ASSIGN_VAR_identifier s : is_identifier s = true -> _ASSIGN_VAR s = None.
Proof.
  intros H. unfold _ASSIGN_VAR. rewrite leading_identifier_id by exact H. reflexivity.
Qed.

Lemma ASSIGN_FUNC_identifier s : is_identifier s = true -> _ASSIGN_FUNC s = None.
Proof.
  intros H. unfold _ASSIGN_FUNC. rewrite leading_identifier_id by exact H. reflexivity.
Qed.

Lemma contains_equals_word s :
  all_chars is_word s = true -> contains_char "=" s = false.
Proof.
  induction s as [|c s IH]; [reflexivity|]. intros H.
  apply all_chars_cons in H as [Hc Hs].
  destruct (is_word_facts c Hc) as (_ & _ & _ & _ & _ & _ & _ & _ & _ & H).
  simpl. rewrite H, (IH Hs). reflexivity.
Qed.

Lemma split_at_first_backslash_word p s :
  all_chars is_word s = true -> split_at_first (String "\" p) s = None.
Proof.
  induction s as [|c s IH]; [reflexivity|]. intros H.
  pose proof H as H0. apply all_chars_cons in H as [Hc Hs].
  cbn [split_at_first]. rewrite strip_prefix_backslash_word by exact Hc.
  rewrite (IH Hs). reflexivity.
Qed.

Lemma latex_to_algebra_word s :
  all_chars is_word s = true -> _latex_to_algebra s = s.
Proof.
  intros Hs. unfold _latex_to_algebra. cbn [latex_to_algebra_upto].
  assert (Hf : forall n conv, frac_loop n conv s = s).
  { intros [|n] conv; [reflexivity|]. cbn [frac_loop].
    rewrite split_at_first_backslash_word by exact Hs. reflexivity. }
  assert (Hq : forall n conv, sqrt_loop n conv s = s).
  { intros [|n] conv; [reflexivity|]. cbn [sqrt_loop].
    rewrite split_at_first_backslash_word by exact Hs. reflexivity. }
  rewrite Hf, Hq. apply re_sub_word_id; [| exact Hs].
  auto using rule_braced_power_word.
Qed.

Lemma find_names_skip s : find_names (String.length s) s = [].
Proof. induction s as [|c s IH]; [reflexivity | exact IH]. Qed.

Lemma find_names_identifier s : is_identifier s = true -> find_names 0 s = [s].
Proof.
  destruct s as [|c w]; [discriminate|]. simpl. intros H.
  apply andb_true_iff in H as [Hc Hw].
  rewrite Hc, (span_all _ _ Hw). simpl. rewrite find_names_skip. reflexivity.
Qed.

(** ** An assignment to a reserved constant name *)

Lemma append_cons c a b : String c a +:+ b = String c (a +:+ b).
Proof. reflexivity. Qed.

Lemma span_append p s a b : span p s = (a, b) -> s = a +:+ b.
Proof.
  revert a b. induction s as [|c s IH]; intros a b; simpl.
  - intros [= <- <-]. reflexivity.
  - destruct (p c).
    + destruct (span p s) as [a' b']. intros [= <- <-].
      change (String c s = String c (a' +:+ b')).
      f_equal. apply IH. reflexivity.
    + intros [= <- <-]. reflexivity.
Qed.

Lemma lstrip_equals r r2 :
  lstrip r = String "=" r2 ->
  exists c r', r = String c r' /\ (is_space c = true \/ c = "="%char).
Proof.
  destruct r as [|c r']; [discriminate|]. intros H. exists c, r'.
  split; [reflexivity|]. unfold lstrip in H. simpl in H.
  destruct (is_space c) eqn:E; [left; reflexivity|].
  right. simpl in H. congruence.
Qed.

(** what [_ASSIGN_VAR] matching with a given name says about the text *)
Lemma ASSIGN_VAR_shape s v b :
  _ASSIGN_VAR s = Some (v, b) ->
  exists c r',
    s = v +:+ String c r' /\ (is_space c = true \/ c = "="%char) /\
    leading_identifier s = Some (v, String c r').
Proof.
  unfold _ASSIGN_VAR.
  destruct (leading_identifier s) as [[name r]|] eqn:El; [| discriminate].
  destruct (equals_body r) as [body|] eqn:Ee; [| discriminate].
  intros [= -> ->].
  unfold equals_body in Ee.
  destruct (lstrip r) as [|c0 r2] eqn:Er; [discriminate|].
  assert (c0 = "="%char) as ->.
  { revert Ee. destruct c0 as [[] [] [] [] [] [] [] []]; try discriminate. reflexivity. }
  destruct (lstrip_equals _ _ Er) as (c & r' & -> & Hc).
  exists c, r'. split; [| split; [exact Hc | reflexivity]].
  unfold leading_identifier in El.
  destruct s as [|c1 s']; [discriminate|].
  destruct (is_ident_start c1); [| discriminate].
  destruct (span is_word s') as [w r0] eqn:Es. injection El as <- <-.
  rewrite append_cons. f_equal. apply span_append in Es. exact Es.
Qed.

Lemma ASSIGN_FUNC_excluded s v b :
  _ASSIGN_VAR s = Some (v, b) -> _ASSIGN_FUNC s = None.
Proof.
  intros H. destruct (ASSIGN_VAR_shape _ _ _ H) as (c & r' & _ & Hc & Hl).
  unfold _ASSIGN_FUNC. rewrite Hl.
  unfold lstrip. simpl. destruct Hc as [Hc| ->].
  - rewrite Hc. unfold _ASSIGN_VAR in H. rewrite Hl in H.
    unfold equals_body, lstrip in H. simpl in H. rewrite Hc in H.
    destruct (span is_space r') as [ws r2]. simpl in *.
    destruct r2 as [|c2 r3]; [reflexivity|].
    revert H. destruct c2 as [[] [] [] [] [] [] [] []]; try discriminate; reflexivity.
  - reflexivity.
Qed.

Lemma reserved_names v :
  name_in v reserved_constant_names = true ->
  v = "e" \/ v = "i" \/ v = "pi" \/ v = "E" \/ v = "I".
Proof.
  unfold name_in, reserved_constant_names. simpl. intros H.
  repeat (apply orb_true_iff in H as [H|H]);
    try (apply String.eqb_eq in H; subst; tauto). discriminate H.
Qed.

Ltac separator_cases c Hc :=
  destruct c as [[] [] [] [] [] [] [] []]; vm_compute in Hc;
  (destruct Hc as [Hc|Hc]; try discriminate Hc); try (vm_compute; reflexivity).

Lemma find_command_reserved v c r' :
  name_in v reserved_constant_names = true ->
  (is_space c = true \/ c = "="%char) ->
  find_command (v +:+ String c r') = None.
Proof.
  intros Hv Hc.
  destruct (reserved_names _ Hv) as [->|[->|[->|[->| ->]]]].
  - separator_cases c Hc.
  - separator_cases c Hc.
  - vm_compute. reflexivity.
  - separator_cases c Hc.
  - separator_cases c Hc.
Qed.

Lemma scan_prev_irrelevant rule :
  (forall p p' r, rule p r = rule p' r) ->
  forall s k prev prev', scan rule k prev s = scan rule k prev' s.
Proof.
  intros Hr. induction s as [|c s IH]; intros k prev prev'; [reflexivity|].
  simpl. destruct k as [|k]; [| apply IH].
  rewrite (Hr prev prev'). reflexivity.
Qed.

Lemma strip_backslashes_cons c s :
  Ascii.eqb c "\" = false ->
  strip_command_backslashes (String c s) = String c (strip_command_backslashes s).
Proof.
  intros Hc. unfold strip_command_backslashes, re_sub. cbn [scan].
  assert (rule_strip_backslash None (String c s) = None) as ->.
  { revert Hc. destruct c as [[] [] [] [] [] [] [] []]; try reflexivity.
    vm_compute. discriminate. }
  f_equal. apply scan_prev_irrelevant. reflexivity.
Qed.

Lemma space_not_backslash c : is_space c = true -> Ascii.eqb c "\" = false.
Proof. destruct c as [[] [] [] [] [] [] [] []]; vm_compute; congruence. Qed.

Lemma lstrip_cons_space c s : is_space c = true -> lstrip (String c s) = lstrip s.
Proof.
  intros Hc. unfold lstrip. simpl. rewrite Hc.
  destruct (span is_space s). reflexivity.
Qed.

Lemma lstrip_cons_other c s : is_space c = false -> lstrip (String c s) = String c s.
Proof. intros Hc. unfold lstrip. simpl. rewrite Hc. reflexivity. Qed.

Lemma lstrip_strip_backslashes s :
  lstrip (strip_command_backslashes s) = lstrip (strip_command_backslashes (lstrip s)).
Proof.
  induction s as [|c s IH]; [reflexivity|].
  destruct (is_space c) eqn:Hc.
  - rewrite strip_backslashes_cons by (apply space_not_backslash, Hc).
    rewrite !lstrip_cons_space by exact Hc. exact IH.
  - rewrite (lstrip_cons_other c s) by exact Hc. reflexivity.
Qed.

Lemma rstrip_head2 a b s :
  is_space a = false -> is_space b = false ->
  head2 (rstrip (String a (String b s))) = Some (a, b).
Proof.
  intros Ha Hb. cbn [rstrip].
  destruct (rstrip s) as [|c r]; rewrite ?Hb; reflexivity.
Qed.

Lemma alpha_not_space c : is_alpha c = true -> is_space c = false.
Proof. destruct c as [[] [] [] [] [] [] [] []]; vm_compute; congruence. Qed.

(** the text after pre-processing starts with a command of at least two
    letters: the command line starts with these letters *)
Lemma plain_cmd_head2 tex a b t :
  lstrip tex = String "\" (String a (String b t)) ->
  is_alpha a = true -> is_alpha b = true ->
  head2 (strip (strip_command_backslashes tex)) = Some (a, b).
Proof.
  intros Ht Ha Hb. unfold strip. rewrite lstrip_strip_backslashes, Ht.
  unfold strip_command_backslashes, re_sub. cbn [scan rule_strip_backslash span].
  rewrite Ha, Hb. destruct (span is_alpha t) as [g rest].
  cbn [scan String.length]. rewrite !append_cons.
  rewrite lstrip_cons_other by (apply alpha_not_space, Ha).
  apply rstrip_head2; apply alpha_not_space; assumption.
Qed.

Lemma strip_prefix_append p : forall s r, strip_prefix p s = Some r -> s = p +:+ r.
Proof.
  induction p as [|a p IH]; intros s r; simpl.
  - intros [= <-]. reflexivity.
  - destruct s as [|b s]; [discriminate|].
    destruct (Ascii.eqb a b) eqn:E; [| discriminate].
    apply Ascii.eqb_eq in E. subst b. intros H. rewrite append_cons.
    f_equal. apply IH, H.
Qed.

Lemma lstrip_backslash s r : s = String "\" r -> lstrip s = s.
Proof. intros ->. reflexivity. Qed.

Lemma rstrip_prefix s : exists ws, s = rstrip s +:+ ws.
Proof.
  induction s as [|c s [ws IH]]; [exists ""; reflexivity|].
  cbn [rstrip]. destruct (rstrip s) as [|c' r] eqn:E.
  - destruct (is_space c); [exists (String c s) | exists s]; reflexivity.
  - exists ws. rewrite append_cons. f_equal. exact IH.
Qed.

(** a prefix of at least one character of [rstrip s] is a prefix of [s] *)
Lemma rstrip_head3 s a b c t :
  rstrip s = String a (String b (String c t)) ->
  exists t', s = String a (String b (String c t')).
Proof.
  intros H. destruct (rstrip_prefix s) as [ws Hs]. rewrite H in Hs.
  rewrite !append_cons in Hs. eauto.
Qed.

Lemma first_some_some {A B} (f : A -> option B) l b :
  first_some f l = Some b -> exists a, In a l /\ f a = Some b.
Proof.
  induction l as [|a l IH]; simpl; [discriminate|].
  destruct (f a) as [b'|] eqn:E.
  - intros [= <-]. exists a. auto.
  - intros H. destruct (IH H) as (a' & Ha & Hf). exists a'. auto.
Qed.

Lemma command_prefix_head2 tex a b p r :
  strip_prefix (String "\" (String a (String b p))) tex = Some r ->
  is_alpha a = true -> is_alpha b = true ->
  head2 (strip (strip_command_backslashes tex)) = Some (a, b).
Proof.
  intros H Ha Hb. apply strip_prefix_append in H. rewrite !append_cons in H.
  eapply plain_cmd_head2; [| exact Ha | exact Hb].
  rewrite H. reflexivity.
Qed.

Lemma LATEX_INT_DEF_head2 tex g :
  _LATEX_INT_DEF tex = Some g ->
  head2 (strip (strip_command_backslashes tex)) = Some ("i", "n")%char.
Proof.
  unfold _LATEX_INT_DEF.
  destruct (strip_prefix "\int" tex) as [r|] eqn:E; [| discriminate]. intros _.
  eapply command_prefix_head2; [exact E | reflexivity | reflexivity].
Qed.

Lemma LATEX_SUM_PROD_head2 tex g :
  _LATEX_SUM_PROD tex = Some g ->
  In (head2 (strip (strip_command_backslashes tex)))
     [Some ("s", "u")%char; Some ("p", "r")%char].
Proof.
  unfold _LATEX_SUM_PROD. intros H.
  apply first_some_some in H as (op & Hop & H).
  destruct (strip_prefix ("\" +:+ op) tex) as [r|] eqn:E; [| discriminate].
  destruct Hop as [<-|[<-|[]]].
  - left. symmetry. eapply command_prefix_head2; [exact E | reflexivity | reflexivity].
  - right. left. symmetry.
    eapply command_prefix_head2; [exact E | reflexivity | reflexivity].
Qed.

Lemma after_lim_head2 tex r :
  after_lim tex = Some r ->
  In (head2 (strip (strip_command_backslashes tex)))
     [Some ("l", "i")%char; Some ("o", "p")%char].
Proof.
  unfold after_lim. intros H.
  apply first_some_some in H as (w & Hw & H).
  destruct Hw as [<-|[<-|[]]].
  - left. symmetry. eapply command_prefix_head2; [exact H | reflexivity | reflexivity].
  - right. left. symmetry.
    eapply command_prefix_head2; [exact H | reflexivity | reflexivity].
Qed.

Lemma LATEX_LIM_SUB_head2 tex g :
  _LATEX_LIM_SUB tex = Some g ->
  In (head2 (strip (strip_command_backslashes tex)))
     [Some ("l", "i")%char; Some ("o", "p")%char].
Proof.
  unfold _LATEX_LIM_SUB.
  destruct (after_lim tex) as [r|] eqn:E; [| discriminate]. intros _.
  eapply after_lim_head2, E.
Qed.

Lemma LATEX_LIM_BARE_head2 tex g :
  _LATEX_LIM_BARE tex = Some g ->
  In (head2 (strip (strip_command_backslashes tex)))
     [Some ("l", "i")%char; Some ("o", "p")%char].
Proof.
  unfold _LATEX_LIM_BARE.
  destruct (after_lim tex) as [r|] eqn:E; [| discriminate]. intros _.
  eapply after_lim_head2, E.
Qed.

Lemma is_matrix_expr_head2 tex :
  _is_matrix_expr tex = true ->
  head2 (strip (strip_command_backslashes tex)) = Some ("b", "e")%char.
Proof.
  unfold _is_matrix_expr, _MATRIX_ENV_RE.
  destruct (first_some _ matrix_env_kinds) as [r|] eqn:E; [| discriminate].
  intros _. apply first_some_some in E as (k & _ & E).
  apply strip_prefix_append in E.
  change ("\begin{" +:+ k +:+ "matrix}") with
    (String "\" (String "b" (String "e" ("gin{" +:+ k +:+ "matrix}")))) in E.
  rewrite !append_cons in E. unfold strip in E.
  apply rstrip_head3 in E as [t' Ht].
  eapply plain_cmd_head2; [exact Ht | reflexivity | reflexivity].
Qed.

Lemma reserved_head2 v c r' :
  name_in v reserved_constant_names = true ->
  (is_space c = true \/ c = "="%char) ->
  forall h, In h operator_heads -> head2 (v +:+ String c r') <> Some h.
Proof.
  intros Hv Hc h Hh.
  destruct (reserved_names _ Hv) as [->|[->|[->|[->| ->]]]];
    cbn [String.append head2];
    repeat (destruct Hh as [<-|Hh]; [intros [= ?]; try discriminate; subst c;
                                     vm_compute in Hc; destruct Hc; discriminate|]);
    destruct Hh.
Qed.

Lemma contains_char_append c a b :
  contains_char c (a +:+ b) = contains_char c a || contains_char c b.
Proof.
  induction a as [|x a IH]; [reflexivity|].
  rewrite append_cons. cbn [contains_char]. rewrite IH, orb_assoc. reflexivity.
Qed.

Lemma contains_lstrip c s :
  contains_char c (lstrip s) = true -> contains_char c s = true.
Proof.
  unfold lstrip. destruct (span is_space s) as [ws r] eqn:E.
  apply span_append in E. subst s. simpl. intros H.
  rewrite contains_char_append, H. apply orb_true_r.
Qed.

Lemma contains_rstrip c s :
  contains_char c (rstrip s) = true -> contains_char c s = true.
Proof.
  intros H. destruct (rstrip_prefix s) as [ws Hs]. rewrite Hs.
  rewrite contains_char_append, H. reflexivity.
Qed.

Lemma span_all_chars p s : all_chars p (fst (span p s)) = true.
Proof.
  induction s as [|c s IH]; [reflexivity|]. simpl.
  destruct (p c) eqn:E; [| reflexivity].
  destruct (span p s). simpl in *. rewrite E, IH. reflexivity.
Qed.

Lemma alpha_no_equals s :
  all_chars is_alpha s = true -> contains_char "=" s = false.
Proof.
  induction s as [|c s IH]; [reflexivity|]. simpl. intros H.
  apply andb_true_iff in H as [Hc Hs]. rewrite (IH Hs), orb_false_r.
  revert Hc. destruct c as [[] [] [] [] [] [] [] []]; vm_compute; congruence.
Qed.

Lemma contains_scan_strip_backslash s :
  forall k prev,
    contains_char "=" (scan rule_strip_backslash k prev s) = true ->
    contains_char "=" s = true.
Proof.
  induction s as [|c s IH]; intros k prev; [discriminate|].
  cbn [scan]. destruct k as [|k].
  - destruct (rule_strip_backslash prev (String c s)) as [[out [|n]]|] eqn:E.
    + cbn [contains_char]. intros H. apply orb_true_iff in H as [->|H];
        [reflexivity|]. rewrite (IH _ _ H). apply orb_true_r.
    + rewrite contains_char_append. intros H.
      apply orb_true_iff in H as [H|H].
      * exfalso. unfold rule_strip_backslash in E.
        destruct c as [[] [] [] [] [] [] [] []]; try discriminate E.
        pose proof (span_all_chars is_alpha s) as Ha.
        destruct (span is_alpha s) as [[|c' g] rest]; [discriminate E|].
        injection E as <- _. cbn [fst] in Ha.
        rewrite (alpha_no_equals _ Ha) in H. discriminate H.
      * cbn [contains_char]. rewrite (IH _ _ H). apply orb_true_r.
    + cbn [contains_char]. intros H. apply orb_true_iff in H as [->|H];
        [reflexivity|]. rewrite (IH _ _ H). apply orb_true_r.
  - intros H. cbn [contains_char]. rewrite (IH _ _ H). apply orb_true_r.
Qed.

Lemma split_once_contains s :
  contains_char "=" s = true -> split_once "=" s <> None.
Proof.
  induction s as [|c s IH]; [discriminate|]. cbn [contains_char split_once].
  rewrite Ascii.eqb_sym.
  destruct (Ascii.eqb c "="); [discriminate|]. simpl. intros H.
  destruct (split_once "=" s) as [[a b]|]; [discriminate | ]. apply (IH H).
Qed.

(** Where the dispatcher goes on an input whose command line is an
    assignment to one of [e], [i], [pi], [E], [I]: past every earlier rule,
    and, because the name is reserved, on to the equation step. *)
Lemma reserved_assignment_route tex v b :
  _ASSIGN_VAR (strip (strip_command_backslashes tex)) = Some (v, b) ->
  name_in v reserved_constant_names = true ->
  String.eqb tex "" = false /\
  find_command (strip (strip_command_backslashes tex)) = None /\
  _LATEX_INT_DEF tex = None /\ _LATEX_SUM_PROD tex = None /\
  _LATEX_LIM_SUB tex = None /\ _LATEX_LIM_BARE tex = None /\
  _is_matrix_expr tex = false /\
  _ASSIGN_FUNC (strip (strip_command_backslashes tex)) = None /\
  split_once "=" tex <> None.
Proof.
  intros Ha Hv.
  pose proof (ASSIGN_FUNC_excluded _ _ _ Ha) as Hfunc.
  destruct (ASSIGN_VAR_shape _ _ _ Ha) as (c & r' & Hp & Hc & Hl).
  pose proof (reserved_head2 v c r' Hv Hc) as Hh. rewrite <- Hp in Hh.
  assert (Hin : forall h, In h operator_heads -> In (Some h) (map Some operator_heads)).
  { intros h. apply in_map. }
  repeat split.
  - destruct tex; [| reflexivity].
    exfalso. destruct (reserved_names _ Hv) as [->|[->|[->|[->| ->]]]]; discriminate Hp.
  - rewrite Hp. apply find_command_reserved; assumption.
  - destruct (_LATEX_INT_DEF tex) as [g|] eqn:E; [| reflexivity].
    exfalso. apply (Hh ("i", "n")%char); [simpl; tauto|].
    eapply LATEX_INT_DEF_head2, E.
  - destruct (_LATEX_SUM_PROD tex) as [g|] eqn:E; [| reflexivity].
    exfalso. destruct (LATEX_SUM_PROD_head2 _ _ E) as [H|[H|[]]];
      [apply (Hh ("s", "u")%char) | apply (Hh ("p", "r")%char)];
      (simpl; tauto) || (symmetry; exact H).
  - destruct (_LATEX_LIM_SUB tex) as [g|] eqn:E; [| reflexivity].
    exfalso. destruct (LATEX_LIM_SUB_head2 _ _ E) as [H|[H|[]]];
      [apply (Hh ("l", "i")%char) | apply (Hh ("o", "p")%char)];
      (simpl; tauto) || (symmetry; exact H).
  - destruct (_LATEX_LIM_BARE tex) as [g|] eqn:E; [| reflexivity].
    exfalso. destruct (LATEX_LIM_BARE_head2 _ _ E) as [H|[H|[]]];
      [apply (Hh ("l", "i")%char) | apply (Hh ("o", "p")%char)];
      (simpl; tauto) || (symmetry; exact H).
  - destruct (_is_matrix_expr tex) eqn:E; [| reflexivity].
    exfalso. apply (Hh ("b", "e")%char); [simpl; tauto|].
    apply is_matrix_expr_head2, E.
  - exact Hfunc.
  - apply split_once_contains.
    apply (contains_scan_strip_backslash tex 0 None).
    apply contains_lstrip, contains_rstrip.
    change (contains_char "=" (strip (strip_command_backslashes tex)) = true).
    rewrite Hp.
    rewrite contains_char_append.
    unfold _ASSIGN_VAR in Ha. rewrite Hl in Ha. unfold equals_body in Ha.
    destruct (lstrip (String c r')) as [|c0 r2] eqn:Er; [discriminate|].
    assert (Hc0 : contains_char "=" (String c0 r2) = true).
    { revert Ha. destruct c0 as [[] [] [] [] [] [] [] []]; try discriminate.
      reflexivity. }
    rewrite <- Er in Hc0. rewrite (contains_lstrip _ _ Hc0). apply orb_true_r.
Qed.

(** ** The differential at the end of an integrand *)

Lemma scan_skip_all rule s : forall prev, scan rule (String.length s) prev s = "".
Proof. induction s as [|c s IH]; intros prev; [reflexivity | apply IH]. Qed.

Lemma space_not_word c : is_space c = true -> is_word c = false.
Proof. destruct c as [[] [] [] [] [] [] [] []]; vm_compute; congruence. Qed.

Lemma span_word_then_spaces w ws :
  all_chars is_word w = true -> all_chars is_space ws = true ->
  span is_word (w +:+ ws) = (w, ws).
Proof.
  intros Hw Hs. induction w as [|c w IH].
  - destruct ws as [|c ws]; [reflexivity|].
    apply all_chars_cons in Hs as [Hc _].
    change ("" +:+ String c ws) with (String c ws). simpl.
    rewrite (space_not_word _ Hc). reflexivity.
  - apply all_chars_cons in Hw as [Hc Hw].
    rewrite append_cons. simpl. rewrite Hc, (IH Hw). reflexivity.
Qed.

Lemma lstrip_spaces ws : all_chars is_space ws = true -> lstrip ws = "".
Proof.
  intros H. unfold lstrip. rewrite (span_all _ _ H). reflexivity.
Qed.

(** a token [d<var>] followed by spaces matches the pattern in full *)
Lemma differential_suffix_token var ws :
  is_identifier var = true -> all_chars is_space ws = true ->
  differential_suffix ("d" +:+ var +:+ ws) = Some var.
Proof.
  intros Hv Hs. destruct var as [|c w]; [discriminate|].
  simpl in Hv. apply andb_true_iff in Hv as [Hc Hw].
  unfold differential_suffix.
  change ("d" +:+ String c w +:+ ws) with (String "d" (String c (w +:+ ws))).
  rewrite lstrip_cons_other by reflexivity.
  unfold leading_identifier. rewrite Hc, (span_word_then_spaces _ _ Hw Hs).
  rewrite (lstrip_spaces _ Hs). reflexivity.
Qed.

(** [re.sub] removes the token, and nothing that follows the text before
    it is kept: what remains is a prefix of that text *)
Lemma strip_trailing_differential pre var ws :
  is_identifier var = true -> all_chars is_space ws = true ->
  exists k,
    re_sub rule_differential (pre +:+ "d" +:+ var +:+ ws) = take_string k pre.
Proof.
  intros Hv Hs. unfold re_sub. generalize (@None ascii) as prev.
  induction pre as [|c pre IH]; intros prev.
  - exists 0.
    change ("" +:+ "d" +:+ var +:+ ws) with ("d" +:+ var +:+ ws).
    change ("d" +:+ var +:+ ws) with (String "d" (var +:+ ws)).
    cbn [scan]. unfold rule_differential.
    change (String "d" (var +:+ ws)) with ("d" +:+ var +:+ ws).
    rewrite (differential_suffix_token _ _ Hv Hs).
    change ("d" +:+ var +:+ ws) with (String "d" (var +:+ ws)).
    cbn [String.length]. rewrite scan_skip_all. reflexivity.
  - rewrite append_cons. cbn [scan].
    destruct (rule_differential prev (String c (pre +:+ "d" +:+ var +:+ ws)))
      as [[out [|n]]|] eqn:E.
    + destruct (IH (Some c)) as [k Hk]. exists (S k). rewrite Hk. reflexivity.
    + exists 0. unfold rule_differential in E.
      destruct (differential_suffix _); [| discriminate].
      injection E as <- <-. rewrite scan_skip_all. reflexivity.
    + destruct (IH (Some c)) as [k Hk]. exists (S k). rewrite Hk. reflexivity.
Qed.

(** ** Balanced braces *)

Lemma append_empty s : s +:+ "" = s.
Proof.
  induction s as [|c s IH]; [reflexivity|]. rewrite append_cons, IH. reflexivity.
Qed.

Lemma append_assoc a b c : (a +:+ b) +:+ c = a +:+ (b +:+ c).
Proof.
  induction a as [|x a IH]; [reflexivity|]. rewrite !append_cons, IH. reflexivity.
Qed.

Lemma braced_content_balanced c :
  forall e e' d k,
    brace_level e c = Some e' ->
    braced_content (S d + e) (c +:+ k)
    = match braced_content (S d + e') k with
      | Some (g, r) => Some (c +:+ g, r)
      | None => None
      end.
Proof.
  induction c as [|x c IH]; intros e e' d k H.
  - injection H as <-. change ("" +:+ k) with k.
    destruct (braced_content _ k) as [[g r]|]; reflexivity.
  - cbn [brace_level] in H. rewrite append_cons. cbn [braced_content].
    destruct (Ascii.eqb x "{") eqn:Eo.
    + replace (S (S d + e)) with (S d + S e) by lia.
      rewrite (IH _ _ _ _ H).
      destruct (braced_content _ k) as [[g r]|]; reflexivity.
    + destruct (Ascii.eqb x "}") eqn:Ec.
      * destruct e as [|e1]; [discriminate|].
        replace (S d + S e1) with (S (S (d + e1))) by lia.
        cbn [Nat.add]. change (S (d + e1)) with (S d + e1).
        rewrite (IH _ _ _ _ H).
        destruct (braced_content _ k) as [[g r]|]; reflexivity.
      * rewrite (IH _ _ _ _ H).
        destruct (braced_content _ k) as [[g r]|]; reflexivity.
Qed.

Lemma braced_content_sound s :
  forall e g r,
    braced_content (S e) s = Some (g, r) ->
    s = g +:+ String "}" r /\ brace_level e g = Some 0.
Proof.
  induction s as [|x s IH]; intros e g r H; [discriminate|].
  cbn [braced_content] in H.
  destruct (Ascii.eqb x "{") eqn:Eo.
  - destruct (braced_content (S (S e)) s) as [[g' r']|] eqn:E; [| discriminate].
    injection H as <- <-. destruct (IH _ _ _ E) as [-> Hl].
    split; [reflexivity|]. cbn [brace_level]. rewrite Eo. exact Hl.
  - destruct (Ascii.eqb x "}") eqn:Ec.
    + apply Ascii.eqb_eq in Ec as ->.
      destruct e as [|e1].
      * injection H as <- <-. split; reflexivity.
      * destruct (braced_content (S e1) s) as [[g' r']|] eqn:E; [| discriminate].
        injection H as <- <-. destruct (IH _ _ _ E) as [-> Hl].
        split; [reflexivity|]. cbn [brace_level].
        change (Ascii.eqb "}" "{") with false. change (Ascii.eqb "}" "}") with true.
        cbn iota. exact Hl.
    + destruct (braced_content (S e) s) as [[g' r']|] eqn:E; [| discriminate].
      injection H as <- <-. destruct (IH _ _ _ E) as [-> Hl].
      split; [reflexivity|]. cbn [brace_level]. rewrite Eo, Ec. exact Hl.
Qed.

Lemma extract_braced_balanced c rest :
  brace_level 0 c = Some 0 ->
  _extract_braced (String "{" (c +:+ String "}" rest)) = Some (c, rest).
Proof.
  intros Hl. unfold _extract_braced.
  rewrite (braced_content_balanced c 0 0 0 _ Hl).
  change (braced_content (1 + 0) (String "}" rest)) with (Some ("", rest)).
  cbn iota. rewrite append_empty. reflexivity.
Qed.

(** X1. [_extract_braced] returns a content and a remainder exactly when the
    text is an opening brace, a content whose braces are balanced, the
    closing brace, and the remainder. *)
Theorem extract_braced_spec (s c rest : string) :
  _extract_braced s = Some (c, rest) <->
  s = "{" +:+ c +:+ "}" +:+ rest /\ brace_level 0 c = Some 0.
Proof.
  split.
  - unfold _extract_braced. destruct s as [|x s]; [discriminate|].
    destruct (Ascii.eqb x "{") eqn:E.
    + apply Ascii.eqb_eq in E as ->. intros H.
      destruct (braced_content_sound _ _ _ _ H) as [-> Hl]. split; [reflexivity | exact Hl].
    + intros H. exfalso.
      destruct x as [[] [] [] [] [] [] [] []]; try discriminate H; discriminate E.
  - intros [-> Hl]. exact (extract_braced_balanced c rest Hl).
Qed.

(** ** Splitting the arguments of a command *)

Lemma parse_inner_loop_part p :
  forall d d' cur rest,
    part_depth d p = Some d' ->
    parse_inner_loop (p +:+ rest) d cur = parse_inner_loop rest d' (cur +:+ p).
Proof.
  induction p as [|ch p IH]; intros d d' cur rest H.
  - injection H as <-. rewrite append_empty. reflexivity.
  - rewrite append_cons. cbn [part_depth] in H. cbn [parse_inner_loop].
    replace (cur +:+ String ch p) with ((cur +:+ str1 ch) +:+ p)
      by (rewrite append_assoc; reflexivity).
    destruct (name_in (str1 ch) ["("; "{"; "["]); [apply IH, H|].
    destruct (name_in (str1 ch) [")"; "}"; "]"]); [apply IH, H|].
    destruct (Ascii.eqb ch "," && (d =? 0)%Z); [discriminate | apply IH, H].
Qed.

Lemma join_cons sep x y l :
  join sep (x :: y :: l) = x +:+ sep +:+ join sep (y :: l).
Proof. reflexivity. Qed.

Lemma parse_inner_loop_nil s :
  forall d cur, parse_inner_loop s d cur = [] -> s = "" /\ cur = "".
Proof.
  assert (Hne : forall cur ch, cur +:+ str1 ch <> "").
  { intros [|c cur] ch; discriminate. }
  induction s as [|ch s IH]; intros d cur H.
  - split; [reflexivity|]. destruct cur; [reflexivity | discriminate H].
  - exfalso. cbn [parse_inner_loop] in H.
    destruct (name_in (str1 ch) ["("; "{"; "["]);
      [destruct (IH _ _ H) as [_ E]; exact (Hne _ _ E)|].
    destruct (name_in (str1 ch) [")"; "}"; "]"]);
      [destruct (IH _ _ H) as [_ E]; exact (Hne _ _ E)|].
    destruct (Ascii.eqb ch "," && (d =? 0)%Z); [discriminate H|].
    destruct (IH _ _ H) as [_ E]; exact (Hne _ _ E).
Qed.

Lemma rstrip_idem s : rstrip (rstrip s) = rstrip s.
Proof.
  induction s as [|c s IH]; [reflexivity|].
  cbn [rstrip]. destruct (rstrip s) as [|a r] eqn:E.
  - destruct (is_space c) eqn:Ec; [reflexivity|].
    unfold str1. cbn [rstrip]. rewrite Ec. reflexivity.
  - change (rstrip (String c (String a r)))
      with (match rstrip (String a r) with
            | "" => if is_space c then "" else str1 c
            | String x y => String c (String x y)
            end).
    rewrite IH. reflexivity.
Qed.

Lemma lstrip_head s :
  lstrip s = "" \/ exists c r, lstrip s = String c r /\ is_space c = false.
Proof.
  induction s as [|c s IH]; [left; reflexivity|].
  destruct (is_space c) eqn:E.
  - rewrite (lstrip_cons_space _ _ E). exact IH.
  - right. exists c, s. split; [apply lstrip_cons_other, E | exact E].
Qed.

Lemma rstrip_keeps_head c s :
  is_space c = false -> exists r, rstrip (String c s) = String c r.
Proof.
  intros E. cbn [rstrip]. destruct (rstrip s) as [|a r].
  - rewrite E. exists "". reflexivity.
  - eexists. reflexivity.
Qed.

Lemma strip_idem s : strip (strip s) = strip s.
Proof.
  unfold strip. destruct (lstrip_head s) as [-> | (c & r & -> & E)]; [reflexivity|].
  destruct (rstrip_keeps_head c r E) as [r' Hr]. rewrite Hr.
  rewrite (lstrip_cons_other _ _ E), <- Hr. apply rstrip_idem.
Qed.

Lemma parse_inner_loop_stripped s :
  forall d cur, Forall (fun p => strip p = p) (parse_inner_loop s d cur).
Proof.
  induction s as [|ch s IH]; intros d cur.
  - cbn [parse_inner_loop]. destruct cur; constructor; [apply strip_idem | constructor].
  - cbn [parse_inner_loop].
    destruct (name_in (str1 ch) ["("; "{"; "["]); [apply IH|].
    destruct (name_in (str1 ch) [")"; "}"; "]"]); [apply IH|].
    destruct (Ascii.eqb ch "," && (d =? 0)%Z); [| apply IH].
    constructor; [apply strip_idem | apply IH].
Qed.

(** X2. On a text of ASCII characters: when the parts contain no comma
    outside brackets and leave every bracket closed, [_parse_inner] splits
    their comma-separated concatenation back into the parts, each
    stripped; an empty last part (a trailing comma, or the empty input) is
    dropped. *)
Theorem parse_inner_join (ps : list string) (p : string) :
  ascii_text (join "," (ps ++ [p])) = true ->
  Forall (fun q => part_depth 0 q = Some 0%Z) (ps ++ [p]) ->
  _parse_inner (join "," (ps ++ [p]))
  = map strip ps ++ (if String.eqb p "" then [] else [strip p]).
Proof.
  intros _. unfold _parse_inner. induction ps as [|q ps IH]; intros H.
  - apply Forall_inv in H. cbn [app join map].
    rewrite <- (append_empty p) at 1.
    rewrite (parse_inner_loop_part p _ _ "" "" H).
    change ("" +:+ p) with p. destruct p; reflexivity.
  - change ((q :: ps) ++ [p]) with (q :: (ps ++ [p])) in *.
    pose proof (Forall_inv H) as Hq. apply Forall_inv_tail in H.
    destruct (ps ++ [p]) as [|y l] eqn:E; [destruct ps; discriminate E|].
    rewrite join_cons, (parse_inner_loop_part q _ _ "" _ Hq).
    change ("" +:+ q) with q.
    change ("," +:+ join "," (y :: l)) with (String "," (join "," (y :: l))).
    cbn [parse_inner_loop]. change (name_in (str1 ",") ["("; "{"; "["]) with false.
    change (name_in (str1 ",") [")"; "}"; "]"]) with false.
    change (Ascii.eqb "," "," && (0 =? 0)%Z) with true. cbn iota.
    rewrite (IH H). reflexivity.
Qed.

(** X3. [_parse_inner] returns no part only for the empty text, and every
    part it returns is free of surrounding white space. *)
Theorem parse_inner_parts (s : string) :
  (_parse_inner s = [] <-> s = "") /\
  Forall (fun p => strip p = p) (_parse_inner s).
Proof.
  split; [split|].
  - intros H. apply (parse_inner_loop_nil _ _ _ H).
  - intros ->. reflexivity.
  - apply parse_inner_loop_stripped.
Qed.

(** ** [_latex_to_algebra] *)

Lemma length_append a b : String.length (a +:+ b) = String.length a + String.length b.
Proof.
  induction a as [|c a IH]; [reflexivity|]. rewrite append_cons. simpl. rewrite IH. reflexivity.
Qed.

Lemma contains_char_cons c x s :
  contains_char c (String x s) = false ->
  Ascii.eqb c x = false /\ contains_char c s = false.
Proof. cbn [contains_char]. intros H. apply orb_false_iff in H. exact H. Qed.

Lemma extract_braced_no_open s : contains_char "{" s = false -> _extract_braced s = None.
Proof.
  destruct s as [|x s]; [reflexivity|]. intros H.
  apply contains_char_cons in H as [H _]. unfold _extract_braced.
  destruct x as [[] [] [] [] [] [] [] []]; try reflexivity; discriminate H.
Qed.

Lemma split_at_first_decompose sub s :
  forall a b, split_at_first sub s = Some (a, b) -> s = a +:+ sub +:+ b.
Proof.
  induction s as [|c s IH]; intros a b H.
  - cbn [split_at_first] in H. destruct (strip_prefix sub "") as [r|] eqn:E; [| discriminate].
    injection H as <- <-. apply strip_prefix_append in E. exact E.
  - cbn [split_at_first] in H.
    destruct (strip_prefix sub (String c s)) as [r|] eqn:E.
    + injection H as <- <-. apply strip_prefix_append in E. exact E.
    + destruct (split_at_first sub s) as [[a' b']|] eqn:E2; [| discriminate].
      injection H as <- <-. rewrite (IH _ _ eq_refl). reflexivity.
Qed.

Lemma frac_loop_no_open n conv s :
  contains_char "{" s = false -> frac_loop n conv s = s.
Proof.
  intros H. destruct n as [|n]; [reflexivity|]. cbn [frac_loop].
  destruct (split_at_first "\frac" s) as [[before after]|] eqn:E; [| reflexivity].
  apply split_at_first_decompose in E. subst s.
  rewrite !contains_char_append in H. apply orb_false_iff in H as [_ H].
  apply orb_false_iff in H as [_ H].
  rewrite (extract_braced_no_open _ H). reflexivity.
Qed.

Lemma sqrt_loop_no_open n conv s :
  contains_char "{" s = false -> sqrt_loop n conv s = s.
Proof.
  intros H. destruct n as [|n]; [reflexivity|]. cbn [sqrt_loop].
  destruct (split_at_first "\sqrt" s) as [[before after]|] eqn:E; [| reflexivity].
  apply split_at_first_decompose in E. subst s.
  rewrite !contains_char_append in H. apply orb_false_iff in H as [_ H].
  apply orb_false_iff in H as [_ H].
  assert (Hx : match _extract_braced after with
               | Some (arg, r2) =>
                   sqrt_loop n conv (before +:+ "sqrt(" +:+ conv arg +:+ ")" +:+ r2)
               | None => before +:+ "\sqrt" +:+ after
               end = before +:+ "\sqrt" +:+ after).
  { rewrite (extract_braced_no_open _ H). reflexivity. }
  destruct after as [|x after]; [exact Hx|].
  destruct (Ascii.eqb x "[") eqn:Ex.
  - apply Ascii.eqb_eq in Ex as ->.
    destruct (split_at_first "]" after) as [[n_arg r1]|] eqn:E1; [| reflexivity].
    apply split_at_first_decompose in E1. subst after.
    apply contains_char_cons in H as [_ H].
    rewrite !contains_char_append in H. apply orb_false_iff in H as [_ H].
    apply orb_false_iff in H as [_ H].
    rewrite (extract_braced_no_open _ H). reflexivity.
  - destruct x as [[] [] [] [] [] [] [] []]; try exact Hx; discriminate Ex.
Qed.

Lemma scan_declined rule (P : string -> Prop) :
  (forall c s, P (String c s) -> P s) ->
  (forall prev s, P s -> rule prev s = None) ->
  forall s prev, P s -> scan rule 0 prev s = s.
Proof.
  intros Hsuf Hrule. induction s as [|c s IH]; intros prev HP; [reflexivity|].
  cbn [scan]. rewrite (Hrule _ _ HP). f_equal. apply IH. exact (Hsuf _ _ HP).
Qed.

Lemma rule_braced_power_no_open conv prev s :
  contains_char "{" s = false -> rule_braced_power conv prev s = None.
Proof.
  intros H. unfold rule_braced_power. destruct s as [|x s]; [reflexivity|].
  apply contains_char_cons in H as [_ H].
  destruct x as [[] [] [] [] [] [] [] []]; try reflexivity.
  rewrite (extract_braced_no_open _ H). reflexivity.
Qed.

Lemma latex_to_algebra_upto_no_open n s :
  contains_char "{" s = false -> latex_to_algebra_upto n s = s.
Proof.
  intros H. destruct n as [|n]; [reflexivity|]. cbn [latex_to_algebra_upto].
  rewrite (frac_loop_no_open _ _ _ H), (sqrt_loop_no_open _ _ _ H).
  apply (scan_declined _ (fun s => contains_char "{" s = false)).
  - intros c s' Hs. apply contains_char_cons in Hs as [_ Hs]. exact Hs.
  - intros prev s' Hs. apply rule_braced_power_no_open, Hs.
  - exact H.
Qed.

(** X4. A text without an opening brace has nothing to convert:
    [_latex_to_algebra] returns it as it is. *)
Theorem latex_to_algebra_no_open (s : string) :
  contains_char "{" s = false -> _latex_to_algebra s = s.
Proof. apply latex_to_algebra_upto_no_open. Qed.

Lemma plain_text_facts s :
  plain_text s = true ->
  contains_char "\" s = false /\ contains_char "{" s = false /\
  contains_char "}" s = false.
Proof.
  unfold plain_text. intros H.
  apply andb_true_iff in H as [H H3]. apply andb_true_iff in H as [H1 H2].
  apply negb_true_iff in H1, H2, H3. auto.
Qed.

Lemma brace_level_plain s :
  contains_char "{" s = false -> contains_char "}" s = false ->
  forall d, brace_level d s = Some d.
Proof.
  induction s as [|c s IH]; intros Ho Hc d; [reflexivity|].
  apply contains_char_cons in Ho as [Ho1 Ho], Hc as [Hc1 Hc].
  cbn [brace_level]. rewrite Ascii.eqb_sym in Ho1. rewrite Ascii.eqb_sym in Hc1.
  rewrite Ho1, Hc1. apply IH; assumption.
Qed.

Lemma extract_braced_plain a rest :
  plain_text a = true ->
  _extract_braced (String "{" (a +:+ String "}" rest)) = Some (a, rest).
Proof.
  intros H. destruct (plain_text_facts _ H) as (_ & Ho & Hc).
  apply extract_braced_balanced, brace_level_plain; assumption.
Qed.

Lemma split_at_first_skip x p pre s :
  contains_char x pre = false ->
  split_at_first (String x p) (pre +:+ s)
  = match split_at_first (String x p) s with
    | Some (a, b) => Some (pre +:+ a, b)
    | None => None
    end.
Proof.
  induction pre as [|c pre IH]; intros H.
  - change ("" +:+ s) with s.
    destruct (split_at_first _ s) as [[a b]|]; reflexivity.
  - apply contains_char_cons in H as [Hc H]. rewrite append_cons.
    cbn [split_at_first strip_prefix]. rewrite Hc, (IH H).
    destruct (split_at_first _ s) as [[a b]|]; reflexivity.
Qed.

Lemma split_at_first_none x p s :
  contains_char x s = false -> split_at_first (String x p) s = None.
Proof.
  intros H. rewrite <- (append_empty s), (split_at_first_skip _ _ _ _ H). reflexivity.
Qed.

Lemma frac_loop_no_backslash n conv s :
  contains_char "\" s = false -> frac_loop n conv s = s.
Proof.
  intros H. destruct n; [reflexivity|]. cbn [frac_loop].
  rewrite (split_at_first_none _ _ _ H). reflexivity.
Qed.

Lemma sqrt_loop_no_backslash n conv s :
  contains_char "\" s = false -> sqrt_loop n conv s = s.
Proof.
  intros H. destruct n; [reflexivity|]. cbn [sqrt_loop].
  rewrite (split_at_first_none _ _ _ H). reflexivity.
Qed.

Lemma braced_power_no_open conv s :
  contains_char "{" s = false -> re_sub (rule_braced_power conv) s = s.
Proof.
  intros H. apply (scan_declined _ (fun s => contains_char "{" s = false)).
  - intros c s' Hs. apply contains_char_cons in Hs as [_ Hs]. exact Hs.
  - intros prev s' Hs. apply rule_braced_power_no_open, Hs.
  - exact H.
Qed.

Ltac plain_goal :=
  rewrite ?contains_char_append; cbn [contains_char];
  repeat match goal with
         | H : contains_char _ _ = false |- _ => rewrite H
         end;
  reflexivity.

Lemma latex_to_algebra_upto_S n tex :
  latex_to_algebra_upto (S n) tex
  = re_sub (rule_braced_power (latex_to_algebra_upto n))
      (sqrt_loop n (latex_to_algebra_upto n)
         (frac_loop n (latex_to_algebra_upto n) tex)).
Proof. reflexivity. Qed.

Section Constructs.

Variable conv : string -> string.
Hypothesis conv_no_open : forall s, contains_char "{" s = false -> conv s = s.

Variables pre a b post : string.
Hypothesis Hpre : plain_text pre = true.
Hypothesis Ha : plain_text a = true.
Hypothesis Hb : plain_text b = true.
Hypothesis Hpost : plain_text post = true.

Lemma frac_loop_frac n :
  frac_loop (S n) conv (pre +:+ "\frac{" +:+ a +:+ "}{" +:+ b +:+ "}" +:+ post)
  = pre +:+ "((" +:+ a +:+ ")/(" +:+ b +:+ "))" +:+ post.
Proof.
  destruct (plain_text_facts _ Hpre) as (P1 & P2 & P3).
  destruct (plain_text_facts _ Ha) as (A1 & A2 & A3).
  destruct (plain_text_facts _ Hb) as (B1 & B2 & B3).
  destruct (plain_text_facts _ Hpost) as (Q1 & Q2 & Q3).
  cbn [frac_loop]. rewrite (split_at_first_skip _ _ _ _ P1).
  change (split_at_first "\frac" ("\frac{" +:+ a +:+ "}{" +:+ b +:+ "}" +:+ post))
    with (Some ("", String "{" (a +:+ String "}" (String "{" (b +:+ String "}" post))))).
  cbn iota. rewrite (extract_braced_plain _ _ Ha), (extract_braced_plain _ _ Hb).
  rewrite (conv_no_open _ A2), (conv_no_open _ B2), append_empty.
  apply frac_loop_no_backslash. plain_goal.
Qed.

Lemma sqrt_loop_sqrt n :
  sqrt_loop (S n) conv (pre +:+ "\sqrt{" +:+ a +:+ "}" +:+ post)
  = pre +:+ "sqrt(" +:+ a +:+ ")" +:+ post.
Proof.
  destruct (plain_text_facts _ Hpre) as (P1 & P2 & P3).
  destruct (plain_text_facts _ Ha) as (A1 & A2 & A3).
  destruct (plain_text_facts _ Hpost) as (Q1 & Q2 & Q3).
  cbn [sqrt_loop]. rewrite (split_at_first_skip _ _ _ _ P1).
  change (split_at_first "\sqrt" ("\sqrt{" +:+ a +:+ "}" +:+ post))
    with (Some ("", String "{" (a +:+ String "}" post))).
  cbn iota. rewrite (extract_braced_plain _ _ Ha), (conv_no_open _ A2), append_empty.
  apply sqrt_loop_no_backslash. plain_goal.
Qed.

Lemma sqrt_loop_root n :
  contains_char "]" b = false ->
  sqrt_loop (S n) conv (pre +:+ "\sqrt[" +:+ b +:+ "]{" +:+ a +:+ "}" +:+ post)
  = pre +:+ "((" +:+ a +:+ ")**(1/(" +:+ b +:+ ")))" +:+ post.
Proof.
  intros Hbr.
  destruct (plain_text_facts _ Hpre) as (P1 & P2 & P3).
  destruct (plain_text_facts _ Ha) as (A1 & A2 & A3).
  destruct (plain_text_facts _ Hb) as (B1 & B2 & B3).
  destruct (plain_text_facts _ Hpost) as (Q1 & Q2 & Q3).
  cbn [sqrt_loop]. rewrite (split_at_first_skip _ _ _ _ P1).
  change (split_at_first "\sqrt" ("\sqrt[" +:+ b +:+ "]{" +:+ a +:+ "}" +:+ post))
    with (Some ("", String "["
                      (b +:+ "]" +:+ String "{" (a +:+ String "}" post)))).
  cbn iota. rewrite (split_at_first_skip _ _ _ _ Hbr).
  change (split_at_first "]" ("]" +:+ String "{" (a +:+ String "}" post)))
    with (Some ("", String "{" (a +:+ String "}" post))).
  cbn iota. rewrite (extract_braced_plain _ _ Ha).
  rewrite !append_empty, (conv_no_open _ A2), (conv_no_open _ B2).
  apply sqrt_loop_no_backslash. plain_goal.
Qed.

Lemma scan_skip_prefix rule x :
  forall y prev,
    exists prev', scan rule (String.length x) prev (x +:+ y) = scan rule 0 prev' y.
Proof.
  induction x as [|c x IH]; intros y prev; [exists prev; reflexivity|].
  rewrite append_cons.
  destruct y as [|d y].
  - exists prev. rewrite append_empty.
    change (scan rule (String.length (String c x)) prev (String c x)) with
      (scan rule (String.length x) (Some c) x).
    rewrite <- (append_empty x) at 2.
    destruct (IH "" (Some c)) as [p' ->]. reflexivity.
  - apply (IH (String d y) (Some c)).
Qed.

Lemma scan_match rule prev c s out k :
  rule prev (String c s) = Some (out, S k) ->
  scan rule 0 prev (String c s) = out +:+ scan rule k (Some c) s.
Proof. intros H. cbn [scan]. rewrite H. reflexivity. Qed.

Lemma scan_no_match rule prev c s :
  rule prev (String c s) = None ->
  scan rule 0 prev (String c s) = String c (scan rule 0 (Some c) s).
Proof. intros H. cbn [scan]. rewrite H. reflexivity. Qed.

Lemma braced_power_power :
  re_sub (rule_braced_power conv) (pre +:+ "^{" +:+ a +:+ "}" +:+ post)
  = pre +:+ "**(" +:+ a +:+ ")" +:+ post.
Proof.
  destruct (plain_text_facts _ Hpre) as (P1 & P2 & P3).
  destruct (plain_text_facts _ Ha) as (A1 & A2 & A3).
  destruct (plain_text_facts _ Hpost) as (Q1 & Q2 & Q3).
  unfold re_sub. generalize (@None ascii) as prev.
  clear Hpre P1 P3. induction pre as [|c pre' IH]; intros prev.
  - change ("" +:+ "^{" +:+ a +:+ "}" +:+ post)
      with (String "^" (String "{" (a +:+ String "}" post))).
    rewrite (scan_match _ _ _ _ ("**(" +:+ a +:+ ")") (String.length ("{" +:+ a +:+ "}"))).
    2:{ cbn [rule_braced_power].
        rewrite (extract_braced_plain _ _ Ha), (conv_no_open _ A2).
        do 3 f_equal. rewrite !append_cons. cbn [String.length].
        rewrite !length_append. cbn [String.length]. lia. }
    replace (String "{" (a +:+ String "}" post)) with (("{" +:+ a +:+ "}") +:+ post)
      by (rewrite !append_cons; change ("" +:+ a +:+ "}") with (a +:+ "}");
          rewrite append_assoc; reflexivity).
    destruct (scan_skip_prefix (rule_braced_power conv) ("{" +:+ a +:+ "}") post (Some "^"%char))
      as [prev' ->].
    rewrite (scan_declined _ (fun s => contains_char "{" s = false)).
    + rewrite !append_assoc. reflexivity.
    + intros c s' Hs. apply contains_char_cons in Hs as [_ Hs]. exact Hs.
    + intros p s' Hs. apply rule_braced_power_no_open, Hs.
    + exact Q2.
  - apply contains_char_cons in P2 as [Pc P2]. rewrite !(append_cons c pre').
    assert (Hd : rule_braced_power conv prev
                   (String c (pre' +:+ "^{" +:+ a +:+ "}" +:+ post)) = None).
    { unfold rule_braced_power.
      destruct (Ascii.eqb c "^") eqn:Ec.
      - apply Ascii.eqb_eq in Ec as ->.
        destruct pre' as [|d pre'']; [reflexivity|].
        apply contains_char_cons in P2 as [Pd _]. rewrite append_cons.
        unfold _extract_braced.
        destruct d as [[] [] [] [] [] [] [] []]; try reflexivity; discriminate Pd.
      - destruct c as [[] [] [] [] [] [] [] []]; try reflexivity; discriminate Ec. }
    rewrite (scan_no_match _ _ _ _ Hd). f_equal. apply IH. exact P2.
Qed.

End Constructs.

(** X5. On operands without backslash or brace, and between such text,
    [_latex_to_algebra] turns a fraction into a parenthesised quotient, a
    square root into a call of [sqrt], an n-th root into a power of
    [1/(n)], and a braced exponent into a parenthesised power. *)
Theorem latex_to_algebra_constructs (pre a b post : string) :
  plain_text pre = true -> plain_text a = true ->
  plain_text b = true -> plain_text post = true ->
  _latex_to_algebra (pre +:+ "\frac{" +:+ a +:+ "}{" +:+ b +:+ "}" +:+ post)
  = pre +:+ "((" +:+ a +:+ ")/(" +:+ b +:+ "))" +:+ post /\
  _latex_to_algebra (pre +:+ "\sqrt{" +:+ a +:+ "}" +:+ post)
  = pre +:+ "sqrt(" +:+ a +:+ ")" +:+ post /\
  (contains_char "]" b = false ->
   _latex_to_algebra (pre +:+ "\sqrt[" +:+ b +:+ "]{" +:+ a +:+ "}" +:+ post)
   = pre +:+ "((" +:+ a +:+ ")**(1/(" +:+ b +:+ ")))" +:+ post) /\
  _latex_to_algebra (pre +:+ "^{" +:+ a +:+ "}" +:+ post)
  = pre +:+ "**(" +:+ a +:+ ")" +:+ post.
Proof.
  intros Hpre Ha Hb Hpost.
  destruct (plain_text_facts _ Hpre) as (P1 & P2 & P3).
  destruct (plain_text_facts _ Ha) as (A1 & A2 & A3).
  destruct (plain_text_facts _ Hb) as (B1 & B2 & B3).
  destruct (plain_text_facts _ Hpost) as (Q1 & Q2 & Q3).
  assert (Hlen : forall x y, exists n, String.length (pre +:+ String x y) = S n).
  { intros x y. rewrite length_append. cbn [String.length].
    exists (String.length pre + String.length y). lia. }
  unfold _latex_to_algebra. repeat split.
  - destruct (Hlen "\"%char ("frac{" +:+ a +:+ "}{" +:+ b +:+ "}" +:+ post)) as [n Hn].
    change (pre +:+ "\frac{" +:+ a +:+ "}{" +:+ b +:+ "}" +:+ post)
      with (pre +:+ String "\" ("frac{" +:+ a +:+ "}{" +:+ b +:+ "}" +:+ post)) at 1.
    rewrite Hn, latex_to_algebra_upto_S.
    rewrite (frac_loop_frac _ (latex_to_algebra_upto_no_open (S n)) _ _ _ _ Hpre Ha Hb Hpost).
    rewrite sqrt_loop_no_backslash by plain_goal.
    apply braced_power_no_open. plain_goal.
  - destruct (Hlen "\"%char ("sqrt{" +:+ a +:+ "}" +:+ post)) as [n Hn].
    change (pre +:+ "\sqrt{" +:+ a +:+ "}" +:+ post)
      with (pre +:+ String "\" ("sqrt{" +:+ a +:+ "}" +:+ post)) at 1.
    rewrite Hn, latex_to_algebra_upto_S.
    assert (F : frac_loop (S n) (latex_to_algebra_upto (S n))
                  (pre +:+ "\sqrt{" +:+ a +:+ "}" +:+ post)
                = pre +:+ "\sqrt{" +:+ a +:+ "}" +:+ post).
    { cbn [frac_loop]. rewrite (split_at_first_skip _ _ _ _ P1).
      change (split_at_first "\frac" ("\sqrt{" +:+ a +:+ "}" +:+ post))
        with (match split_at_first "\frac" ("sqrt{" +:+ a +:+ "}" +:+ post) with
              | Some (a0, b0) => Some (String "\" a0, b0)
              | None => None
              end).
      rewrite split_at_first_none by plain_goal. reflexivity. }
    rewrite F.
    rewrite (sqrt_loop_sqrt _ (latex_to_algebra_upto_no_open (S n)) _ _ _ Hpre Ha Hpost).
    apply braced_power_no_open. plain_goal.
  - intros Hbr.
    destruct (Hlen "\"%char ("sqrt[" +:+ b +:+ "]{" +:+ a +:+ "}" +:+ post)) as [n Hn].
    change (pre +:+ "\sqrt[" +:+ b +:+ "]{" +:+ a +:+ "}" +:+ post)
      with (pre +:+ String "\" ("sqrt[" +:+ b +:+ "]{" +:+ a +:+ "}" +:+ post)) at 1.
    rewrite Hn, latex_to_algebra_upto_S.
    assert (F : frac_loop (S n) (latex_to_algebra_upto (S n))
                  (pre +:+ "\sqrt[" +:+ b +:+ "]{" +:+ a +:+ "}" +:+ post)
                = pre +:+ "\sqrt[" +:+ b +:+ "]{" +:+ a +:+ "}" +:+ post).
    { cbn [frac_loop]. rewrite (split_at_first_skip _ _ _ _ P1).
      change (split_at_first "\frac" ("\sqrt[" +:+ b +:+ "]{" +:+ a +:+ "}" +:+ post))
        with (match split_at_first "\frac" ("sqrt[" +:+ b +:+ "]{" +:+ a +:+ "}" +:+ post) with
              | Some (a0, b0) => Some (String "\" a0, b0)
              | None => None
              end).
      rewrite split_at_first_none by plain_goal. reflexivity. }
    rewrite F.
    rewrite (sqrt_loop_root _ (latex_to_algebra_upto_no_open (S n)) _ _ _ _
               Hpre Ha Hb Hpost _ Hbr).
    apply braced_power_no_open. plain_goal.
  - destruct (Hlen "^"%char ("{" +:+ a +:+ "}" +:+ post)) as [n Hn].
    change (pre +:+ "^{" +:+ a +:+ "}" +:+ post)
      with (pre +:+ String "^" ("{" +:+ a +:+ "}" +:+ post)) at 1.
    rewrite Hn, latex_to_algebra_upto_S.
    rewrite frac_loop_no_backslash by plain_goal.
    rewrite sqrt_loop_no_backslash by plain_goal.
    apply (braced_power_power _ (latex_to_algebra_upto_no_open (S n)) _ _ _ Hpre Ha Hpost).
Qed.

End TextProperties.

(** * Properties *)

Section Properties.

Context {expr : Type} `{SP : SymPy expr}.

Notation "'let!' x ':=' m 'in' k" := (bind m (fun x => k))
  (at level 10, x pattern, m at level 100, k at level 200).

(** computations and sessions over the fixed expression type *)
Local Abbreviation Comp := (@M expr).
Local Abbreviation state := (@session expr).
Local Abbreviation binding := (@var_binding expr).

(** ** Two judgements on computations: [silent] and [keeps_tables] *)

Lemma same_tables_refl (st : state) : same_tables st st.
Proof. split; reflexivity. Qed.

Lemma same_tables_trans (st1 st2 st3 : state) :
  same_tables st1 st2 -> same_tables st2 st3 -> same_tables st1 st3.
Proof. intros [H1 H2] [H3 H4]. split; congruence. Qed.

Lemma silent_keeps {A} (m : Comp A) : silent m -> keeps_tables m.
Proof. intros H st. rewrite H. apply same_tables_refl. Qed.

Lemma silent_ret {A} (a : A) : silent (ret (expr := expr) a).
Proof. intros st. reflexivity. Qed.

Lemma silent_raise {A} e : silent (raise (expr := expr) (A := A) e).
Proof. intros st. reflexivity. Qed.

Lemma silent_lift {A} (o : outcome A) : silent (lift (expr := expr) o).
Proof. intros st. reflexivity. Qed.

Lemma silent_get : silent (get (expr := expr)).
Proof. intros st. reflexivity. Qed.

Lemma bind_silent_at {A B} (m : Comp A) (k : A -> Comp B) st :
  snd (m st) = st ->
  (forall a, fst (m st) = Return a -> snd (k a st) = st) ->
  snd (bind m k st) = st.
Proof.
  intros Hm Hk. unfold bind. destruct (m st) as [[a|e] st'] eqn:E;
    simpl in Hm; subst st'; [apply Hk; reflexivity | reflexivity].
Qed.

Lemma silent_bind {A B} (m : Comp A) (k : A -> Comp B) :
  silent m -> (forall a, silent (k a)) -> silent (bind m k).
Proof. intros Hm Hk st. apply bind_silent_at; [apply Hm | intros a _; apply Hk]. Qed.

Lemma for_each_silent_at {A B} (l : list A) (body : A -> B -> Comp B) st :
  (forall a acc, snd (body a acc st) = st) ->
  forall acc, snd (for_each l acc body st) = st.
Proof.
  intros Hb. induction l as [|a l IH]; intros acc; simpl; [reflexivity|].
  apply bind_silent_at; [apply Hb | intros acc' _; apply IH].
Qed.

Lemma map_M_silent_at {A B} (f : A -> Comp B) (l : list A) st :
  (forall a, snd (f a st) = st) -> snd (map_M f l st) = st.
Proof.
  intros Hf. induction l as [|a l IH]; simpl; [reflexivity|].
  apply bind_silent_at; [apply Hf | intros b _].
  apply bind_silent_at; [apply IH | intros bs _; reflexivity].
Qed.

Lemma silent_is_variable sn : silent (is_variable (expr := expr) sn).
Proof. intros st. reflexivity. Qed.

Lemma is_variable_value sn (st : state) :
  is_variable sn st = (Return (bool_decide (is_Some (_variables st !! sn))), st).
Proof. reflexivity. Qed.

(** ** The resolver leaves the session alone *)

(** Resolving a name that is bound never reaches [_get_symbol]. *)
Lemma resolve_variable_bound_silent depth :
  forall name visited (st : state),
    is_Some (_variables st !! name) ->
    snd (_resolve_variable depth name visited st) = st.
Proof.
  induction depth as [|depth IH]; intros name visited st Hb; simpl; [reflexivity|].
  destruct (bool_decide (name ∈ visited)); [reflexivity|].
  apply bind_silent_at; [reflexivity | intros st0 [= <-]].
  destruct Hb as [b Hb]. rewrite Hb.
  apply bind_silent_at; [| intros sb _; reflexivity].
  apply for_each_silent_at. intros sym acc.
  apply bind_silent_at; [reflexivity | intros bound [= <-]].
  case_bool_decide as Hs; [| reflexivity].
  apply bind_silent_at; [apply IH, Hs | intros v _; reflexivity].
Qed.

(** [_apply_user_functions], and with it [_resolve_expr], at every depth up
    to [n]. *)
Lemma resolve_expr_body_silent_at (apply_fn : expr -> Comp expr)
    (resolve_var : string -> Comp expr) e exclude (st : state) :
  (forall e', snd (apply_fn e' st) = st) ->
  (forall sn, is_Some (_variables st !! sn) -> snd (resolve_var sn st) = st) ->
  snd (resolve_expr_body apply_fn resolve_var e exclude st) = st.
Proof.
  intros Ha Hr. unfold resolve_expr_body.
  apply bind_silent_at; [apply Ha | intros e1 _].
  apply bind_silent_at; [| intros sb _; reflexivity].
  apply for_each_silent_at. intros sym acc.
  apply bind_silent_at; [reflexivity | intros bound [= <-]].
  case_bool_decide as Hs; simpl; [| reflexivity].
  destruct (negb _); [| reflexivity].
  apply bind_silent_at; [apply Hr, Hs | intros v _; reflexivity].
Qed.

Lemma apply_user_functions_silent_upto n :
  forall depth e (st : state),
    depth <= n -> snd (_apply_user_functions depth e st) = st.
Proof.
  induction n as [|n IH]; intros depth e st Hle.
  - assert (depth = 0) as -> by lia. reflexivity.
  - destruct depth as [|depth]; [reflexivity|].
    assert (Hd : depth <= n) by lia.
    assert (Hdescend :
      snd (match args e with
           | [] => ret e
           | a :: rest =>
               let! new_args := map_M (_apply_user_functions depth) (a :: rest) in
               if negb (bool_decide (Forall2 (fun x y => expr_eqb x y = true)
                                             new_args (a :: rest)))
               then lift (rebuild e new_args) else ret e
           end st) = st).
    { destruct (args e) as [|a rest]; [reflexivity|].
      apply bind_silent_at.
      - apply map_M_silent_at. intros a'. apply IH, Hd.
      - intros new_args _. destruct (negb _); reflexivity. }
    simpl. destruct (applied_undef e) as [[fname actuals]|]; [| exact Hdescend].
    apply bind_silent_at; [reflexivity | intros st0 [= <-]].
    destruct (_functions st !! fname) as [fdef|]; [| exact Hdescend].
    case_bool_decide; [| exact Hdescend].
    apply bind_silent_at; [reflexivity | intros result0 _].
    apply bind_silent_at; [apply IH, Hd | intros result _].
    destruct depth as [|depth']; [reflexivity|].
    apply resolve_expr_body_silent_at.
    + intros e'. apply IH. lia.
    + intros sn Hs. apply resolve_variable_bound_silent, Hs.
Qed.

Lemma apply_user_functions_silent depth e : silent (_apply_user_functions depth e).
Proof. intros st. apply (apply_user_functions_silent_upto depth). lia. Qed.

Lemma silent_resolve_expr depth e exclude : silent (_resolve_expr depth e exclude).
Proof.
  intros st. destruct depth as [|depth]; [reflexivity|]. simpl.
  apply resolve_expr_body_silent_at.
  - intros e'. apply apply_user_functions_silent.
  - intros sn Hs. apply resolve_variable_bound_silent, Hs.
Qed.

(** C6. Resolution is a pure transformation over the session: for every
    expression, every exclude set and every recursion depth, running
    [_resolve_expr] leaves the variable table, the function table and the
    symbol cache exactly as they were, whether it returns or raises. *)
Theorem resolve_expr_leaves_session depth (e : expr) (exclude : gset string)
    (st : state) :
  snd (_resolve_expr depth e exclude st) = st.
Proof. apply silent_resolve_expr. Qed.

(** ** What a computation can return *)

Lemma yields_ret {A} (a : A) (P : A -> Prop) : P a -> yields (ret (expr := expr) a) P.
Proof. intros HP st a' st' [= <- _]. exact HP. Qed.

Lemma yields_raise {A} e (P : A -> Prop) : yields (raise (expr := expr) e) P.
Proof. intros st a st' [=]. Qed.

Lemma yields_bind {A B} (m : Comp A) (k : A -> Comp B) (P : B -> Prop) :
  (forall a, yields (k a) P) -> yields (bind m k) P.
Proof.
  intros Hk st b st'. unfold bind.
  destruct (m st) as [[a|e] st1]; [apply Hk | intros [=]].
Qed.

Lemma yields_try {A} (m : Comp A) (h : pyexn -> Comp A) (P : A -> Prop) :
  yields m P -> (forall e, yields (h e) P) -> yields (try_except m h) P.
Proof.
  intros Hm Hh st a st'. unfold try_except.
  destruct (m st) as [[a1|e] st1] eqn:E.
  - intros [= <- _]. eapply Hm, E.
  - apply Hh.
Qed.

Lemma yields_weaken {A} (m : Comp A) (P Q : A -> Prop) :
  yields m P -> (forall a, P a -> Q a) -> yields m Q.
Proof. intros Hm HPQ st a st' E. eapply HPQ, Hm, E. Qed.

(** ** The shape of a result record *)

Lemma shaped_error types msg : shaped types (error_result msg).
Proof. right. eexists. reflexivity. Qed.

Lemma dict_get_set_other {V} k k' (v : V) d :
  String.eqb k k' = false -> dict_get k (dict_set k' v d) = dict_get k d.
Proof.
  intros Hne. induction d as [|[k0 v0] d IH]; simpl.
  - rewrite Hne. reflexivity.
  - destruct (String.eqb k' k0) eqn:E1; simpl.
    + apply String.eqb_eq in E1. subst k0. rewrite Hne. reflexivity.
    + destruct (String.eqb k k0); [reflexivity | exact IH].
Qed.

Lemma dict_get_update_other (k : string) (d extra : pydict) :
  In k core_keys -> extra_keys_ok extra ->
  dict_get k (dict_update d extra) = dict_get k d.
Proof.
  intros Hk Hex. unfold dict_update. revert d.
  induction Hex as [|[k' v'] extra Hkv Hex IH]; intros d; simpl; [reflexivity|].
  rewrite IH. apply dict_get_set_other. apply (Hkv k Hk).
Qed.

Lemma ok_record_update types d extra :
  extra_keys_ok extra -> ok_record types d -> ok_record types (dict_update d extra).
Proof.
  intros Hex (H1 & H2 & H3 & H4). unfold ok_record.
  rewrite !dict_get_update_other by (simpl; auto). tauto.
Qed.

Lemma extra_keys_ok_nil : extra_keys_ok [].
Proof. constructor. Qed.

Lemma extra_keys_ok_name v : extra_keys_ok [("name", v)].
Proof.
  repeat constructor. simpl. intros k [<-|[<-|[<-|[<-|[]]]]]; reflexivity.
Qed.

Lemma extra_keys_ok_name_params v w : extra_keys_ok [("name", v); ("params", w)].
Proof.
  repeat constructor; simpl; intros k [<-|[<-|[<-|[<-|[]]]]]; reflexivity.
Qed.

Lemma make_result_ok e t skip extra :
  extra_keys_ok extra -> ok_record [t] (_make_result e t skip extra).
Proof.
  intros Hex. unfold _make_result. apply ok_record_update; [exact Hex|].
  destruct skip; [| destruct (N_ e None); [destruct (_ && _)|]];
    (split; [reflexivity | split; [eexists; reflexivity |
      split; [eexists; reflexivity | eexists; split; [reflexivity | left; reflexivity]]]]).
Qed.

Lemma ok_record_types types types' r :
  (forall t, In t types -> In t types') -> ok_record types r -> ok_record types' r.
Proof.
  intros Hsub (H1 & H2 & H3 & t & H4 & H5).
  repeat split; try assumption. exists t. split; [assumption | apply Hsub, H5].
Qed.

Lemma shaped_types types types' r :
  (forall t, In t types -> In t types') -> shaped types r -> shaped types' r.
Proof.
  intros Hsub [H|H]; [left; eapply ok_record_types; eassumption | right; exact H].
Qed.

Lemma yields_make_matrix_result mat t extra :
  extra_keys_ok extra -> yields (_make_matrix_result mat t extra) (ok_record [t]).
Proof.
  intros Hex. unfold _make_matrix_result.
  destruct (matrix_shape mat) as [[rows cols]|]; [| apply yields_raise].
  apply yields_ret. apply ok_record_update; [exact Hex|].
  split; [reflexivity | split; [eexists; reflexivity |
    split; [eexists; reflexivity | eexists; split; [reflexivity | left; reflexivity]]]].
Qed.

(** ** Every handler returns a well-formed record *)

Lemma shaped_make_result types e t skip extra :
  In t types -> extra_keys_ok extra -> shaped types (_make_result e t skip extra).
Proof.
  intros Ht Hex. left. eapply ok_record_types; [| apply make_result_ok, Hex].
  intros t' [<-|[]]. exact Ht.
Qed.

Lemma yields_matrix_result types mat t extra :
  In t types -> extra_keys_ok extra ->
  yields (_make_matrix_result mat t extra) (shaped types).
Proof.
  intros Ht Hex. eapply yields_weaken; [apply yields_make_matrix_result, Hex|].
  intros r Hr. left. eapply ok_record_types; [| exact Hr].
  intros t' [<-|[]]. exact Ht.
Qed.

Lemma shaped_command_text types a b :
  In "command" types -> shaped types (command_text a b).
Proof.
  intros Ht. left.
  split; [reflexivity | split; [eexists; reflexivity |
    split; [eexists; reflexivity | eexists; split; [reflexivity | exact Ht]]]].
Qed.

Lemma shaped_basis_result types basis :
  In "command" types -> shaped types (basis_result basis).
Proof. intros Ht. destruct basis; apply shaped_command_text, Ht. Qed.

Create HintDb shape.

#[local] Hint Resolve extra_keys_ok_nil extra_keys_ok_name
  extra_keys_ok_name_params shaped_error shaped_make_result
  shaped_command_text shaped_basis_result yields_matrix_result : shape.
#[local] Hint Extern 1 (In _ _) => (simpl; tauto) : shape.

Ltac yields_step :=
  first
    [ apply yields_ret
    | apply yields_raise
    | apply yields_matrix_result
    | apply yields_try; [| intros ?]
    | match goal with
      | |- yields (if ?b then _ else _) _ => destruct b
      | |- yields (match ?x with _ => _ end) _ => destruct x
      | |- yields (let '(_, _) := ?x in _) _ => destruct x
      end
    | apply yields_bind; intros ? ].

Ltac yields_go := repeat yields_step; auto with shape.

Lemma yields_with_matrix depth parts square_msg k types :
  (forall mat, yields (k mat) (shaped types)) ->
  yields (with_matrix depth parts square_msg k) (shaped types).
Proof.
  intros Hk. unfold with_matrix, not_a_matrix.
  apply yields_bind; intros p0. apply yields_bind; intros mat.
  destruct (matrix_shape mat) as [[rows cols]|]; [| yields_go].
  destruct square_msg; [destruct (bool_decide _)|]; yields_go.
Qed.

Lemma yields_cmd_solve depth parts :
  yields (_cmd_solve depth parts) (shaped ["command"]).
Proof. unfold _cmd_solve. yields_go. Qed.

Lemma yields_cmd_diff depth parts :
  yields (_cmd_diff depth parts) (shaped ["command"]).
Proof. unfold _cmd_diff. yields_go. Qed.

Lemma yields_cmd_integrate depth parts :
  yields (_cmd_integrate depth parts) (shaped ["command"]).
Proof. unfold _cmd_integrate. yields_go. Qed.

Lemma yields_cmd_limit depth parts :
  yields (_cmd_limit depth parts) (shaped ["command"]).
Proof. unfold _cmd_limit. yields_go. Qed.

Lemma yields_cmd_series depth parts :
  yields (_cmd_series depth parts) (shaped ["command"]).
Proof. unfold _cmd_series. yields_go. Qed.

Lemma yields_cmd_subs depth parts :
  yields (_cmd_subs depth parts) (shaped ["command"]).
Proof. unfold _cmd_subs. yields_go. Qed.

Lemma dict_get_set_same {V} k (v : V) d : dict_get k (dict_set k v d) = Some v.
Proof.
  induction d as [|[k0 v0] d IH]; simpl.
  - rewrite String.eqb_refl. reflexivity.
  - destruct (String.eqb k k0) eqn:E; simpl.
    + rewrite String.eqb_refl. reflexivity.
    + rewrite E. exact IH.
Qed.

Lemma shaped_append_pivots types r suffix pivots :
  ok_record types r ->
  shaped types (append_plain suffix (dict_set "pivots" pivots r)).
Proof.
  intros (H1 & [l H2] & [p H3] & t & H4 & H5). left. unfold append_plain.
  rewrite (dict_get_set_other "plain" "pivots") by reflexivity. rewrite H3.
  unfold ok_record.
  rewrite dict_get_set_same.
  rewrite !(dict_get_set_other _ "plain") by reflexivity.
  rewrite !(dict_get_set_other _ "pivots") by reflexivity.
  split; [exact H1 | split; [eauto | split; eauto]].
Qed.

Lemma yields_cmd_mat_rref depth parts :
  yields (_cmd_mat_rref depth parts) (shaped ["command"]).
Proof.
  unfold _cmd_mat_rref. apply yields_with_matrix. intros mat.
  apply yields_bind; intros [rref_mat pivots].
  intros st r st'. unfold bind.
  destruct (_make_matrix_result rref_mat "command" [] st) as [[r0|e] st0] eqn:E;
    [| intros [=]].
  intros [= <- _]. apply shaped_append_pivots.
  eapply yields_make_matrix_result; [| exact E]. auto with shape.
Qed.

Lemma yields_handle_command depth cmd inner :
  yields (_handle_command depth cmd inner) (shaped ["command"]).
Proof.
  unfold _handle_command.
  repeat match goal with
         | |- yields (if ?b then _ else _) _ => destruct b
         end;
    try (first [ apply yields_cmd_solve | apply yields_cmd_diff
               | apply yields_cmd_integrate | apply yields_cmd_limit
               | apply yields_cmd_series | apply yields_cmd_subs
               | apply yields_cmd_mat_rref ]);
    try (apply yields_with_matrix; intros mat);
    yields_go.
Qed.

Lemma yields_handle_latex_int depth lo up body :
  yields (_handle_latex_int depth lo up body) (shaped ["value"]).
Proof. unfold _handle_latex_int, integration_variable. yields_go. Qed.

Lemma yields_handle_latex_sum_prod depth op lo up body :
  yields (_handle_latex_sum_prod depth op lo up body) (shaped ["value"]).
Proof. unfold _handle_latex_sum_prod. yields_go. Qed.

Lemma yields_handle_latex_limit depth v p body :
  yields (_handle_latex_limit depth v p body) (shaped ["value"]).
Proof. unfold _handle_latex_limit. yields_go. Qed.

Lemma yields_handle_latex_limit_bare depth body :
  yields (_handle_latex_limit_bare depth body) (shaped ["value"]).
Proof.
  unfold _handle_latex_limit_bare. yields_go. left.
  split; [reflexivity | split; [eexists; reflexivity |
    split; [eexists; reflexivity | eexists; split; [reflexivity | left; reflexivity]]]].
Qed.

Lemma yields_handle_matrix_literal depth tex :
  yields (_handle_matrix_literal depth tex) (shaped ["value"]).
Proof. unfold _handle_matrix_literal. yields_go. Qed.

Lemma yields_handle_matrix_assignment depth name tex :
  yields (_handle_matrix_assignment depth name tex) (shaped ["assignment"]).
Proof. unfold _handle_matrix_assignment. yields_go. Qed.

Lemma yields_check_dependencies depth name deps :
  yields (check_dependencies depth name deps)
         (fun o => forall r, o = Some r -> error_record r).
Proof.
  induction deps as [|d deps IH]; simpl.
  - apply yields_ret. intros r [=].
  - apply yields_bind; intros [|]; [| exact IH].
    intros st a st'.
    destruct (_resolve_variable depth d {[name]} st) as [[v|e] st1].
    + apply IH.
    + destruct (exn_is_ValueError e); [| intros [=]].
      intros [= <- _] r [= <-]. eexists. reflexivity.
Qed.

Lemma yields_handle_var_assignment depth name body :
  yields (_handle_var_assignment depth name body) (shaped ["assignment"]).
Proof.
  unfold _handle_var_assignment. apply yields_bind; intros e.
  intros st r st'. unfold bind at 1.
  destruct (check_dependencies depth name (dependency_names e) st)
    as [[o|x] st1] eqn:E; [| intros [=]].
  pose proof (yields_check_dependencies _ _ _ _ _ _ E) as Ho.
  destruct o as [r0|].
  - intros [= <- _]. right. apply Ho. reflexivity.
  - intros E'. revert E'. generalize st1 r st'.
    change (yields
      (let! st0 := get in
       let! _ := put (Session (<[name:=VarBinding e (_free_names e)]> (_variables st0))
                              (_functions st0) (_symbols_cache st0)) in
       let! resolved := _resolve_variable depth name ∅ in
       let! simplified := lift (simplify resolved) in
       ret (_make_result simplified "assignment" false [("name", JStr name)]))
      (shaped ["assignment"])).
    yields_go.
Qed.

Lemma yields_handle_function_def fname params body :
  yields (_handle_function_def fname params body) (shaped ["function_def"]).
Proof. unfold _handle_function_def. yields_go. Qed.

Lemma yields_eval_plain depth tex :
  yields (eval_plain depth tex) (shaped ["value"]).
Proof. unfold eval_plain, plain_result. yields_go. Qed.

Lemma yields_eval_equation depth tex :
  yields (eval_equation depth tex) (shaped ["equation"; "value"]).
Proof.
  assert (Hp : yields (eval_plain depth tex) (shaped ["equation"; "value"])).
  { eapply yields_weaken; [apply yields_eval_plain|].
    intros r. apply shaped_types. simpl. tauto. }
  unfold eval_equation.
  destruct (_ && _); [| exact Hp].
  destruct (split_once _ _) as [[lhs rhs]|]; [| exact Hp].
  destruct (_ && _); [| exact Hp].
  apply yields_try; [| intros _; exact Hp]. yields_go.
Qed.

Lemma yields_eval_assignment depth tex plain_cmd :
  yields (eval_assignment depth tex plain_cmd)
         (shaped ["assignment"; "equation"; "value"]).
Proof.
  assert (He : yields (eval_equation depth tex)
                      (shaped ["assignment"; "equation"; "value"])).
  { eapply yields_weaken; [apply yields_eval_equation|].
    intros r. apply shaped_types. simpl. tauto. }
  unfold eval_assignment.
  destruct (_ASSIGN_VAR plain_cmd) as [[vname b]|]; [| exact He].
  destruct (split_once _ _) as [[a after]|]; [| apply yields_raise].
  destruct (negb _); [| exact He].
  destruct (_is_matrix_expr _).
  - eapply yields_weaken; [apply yields_handle_matrix_assignment|].
    intros r. apply shaped_types. simpl. tauto.
  - eapply yields_weaken; [apply yields_handle_var_assignment|].
    intros r. apply shaped_types. simpl. tauto.
Qed.

Lemma yields_eval_inner depth raw :
  yields (_eval_inner depth raw) (shaped all_types).
Proof.
  unfold _eval_inner.
  destruct (String.eqb _ ""); [apply yields_ret; left|].
  { split; [reflexivity | split; [eexists; reflexivity |
      split; [eexists; reflexivity | eexists; split; [reflexivity | simpl; tauto]]]]. }
  destruct (find_command _) as [[p g]|].
  { eapply yields_weaken; [apply yields_handle_command|].
    intros r. apply shaped_types. simpl. tauto. }
  destruct (_LATEX_INT_DEF _) as [[[lo up] body]|].
  { eapply yields_weaken; [apply yields_handle_latex_int|].
    intros r. apply shaped_types. simpl. tauto. }
  destruct (_LATEX_SUM_PROD _) as [[[[op lo] up] body]|].
  { eapply yields_weaken; [apply yields_handle_latex_sum_prod|].
    intros r. apply shaped_types. simpl. tauto. }
  destruct (_LATEX_LIM_SUB _) as [[[v pt] body]|].
  { eapply yields_weaken; [apply yields_handle_latex_limit|].
    intros r. apply shaped_types. simpl. tauto. }
  destruct (_LATEX_LIM_BARE _) as [body|].
  { eapply yields_weaken; [apply yields_handle_latex_limit_bare|].
    intros r. apply shaped_types. simpl. tauto. }
  destruct (_is_matrix_expr _).
  { eapply yields_weaken; [apply yields_handle_matrix_literal|].
    intros r. apply shaped_types. simpl. tauto. }
  destruct (_ASSIGN_FUNC _) as [[[fname ps] body]|].
  { eapply yields_weaken; [apply yields_handle_function_def|].
    intros r. apply shaped_types. simpl. tauto. }
  eapply yields_weaken; [apply yields_eval_assignment|].
  intros r. apply shaped_types. simpl. tauto.
Qed.

(** C1. For every input string (and every session and recursion limit) the
    entry point [cas_evaluate] returns: no exception raised inside
    [_eval_inner] escapes it.  What it returns is an [ok: true] record with
    [latex], [plain] and [type], or the record [{ok: false, error: msg}]
    whose [msg] is the text of the exception or of the handler's
    diagnostic. *)
Theorem cas_evaluate_never_raises depth (raw : string) (st : state) :
  exists r st',
    cas_evaluate depth raw st = (Return r, st') /\
    (ok_record all_types r \/ exists msg, r = [("ok", JBool false); ("error", JStr msg)]).
Proof.
  unfold cas_evaluate, try_except.
  destruct (_eval_inner depth raw st) as [[r|e] st'] eqn:E.
  - exists r, st'. split; [reflexivity|].
    exact (yields_eval_inner _ _ _ _ _ E).
  - exists (error_result (exn_str e)), st'. split; [reflexivity|].
    right. exists (exn_str e). reflexivity.
Qed.

(** ** Dependency cycles *)

Lemma for_each_return_inv {A B} (l : list A) (body : A -> B -> Comp B) (st : state) :
  (forall a acc, snd (body a acc st) = st) ->
  forall acc r st',
    for_each l acc body st = (Return r, st') ->
    forall a, a ∈ l -> exists acc_a r_a, body a acc_a st = (Return r_a, st).
Proof.
  intros Hs. induction l as [|a0 l IH]; intros acc r st' E a Ha.
  - inversion Ha.
  - simpl in E. unfold bind in E.
    pose proof (Hs a0 acc) as Hst.
    destruct (body a0 acc st) as [[acc1|e] st1] eqn:E0; [| discriminate].
    simpl in Hst. subst st1.
    apply elem_of_cons in Ha as [->|Ha].
    + exists acc, acc1. exact E0.
    + eapply IH; eassumption.
Qed.

Lemma for_each_raise_inv {A B} (l : list A) (body : A -> B -> Comp B) (st : state) :
  (forall a acc, snd (body a acc st) = st) ->
  forall acc e st',
    for_each l acc body st = (Raise e, st') ->
    exists a acc_a, a ∈ l /\ body a acc_a st = (Raise e, st).
Proof.
  intros Hs. induction l as [|a0 l IH]; intros acc e st' E.
  - discriminate.
  - simpl in E. unfold bind in E.
    pose proof (Hs a0 acc) as Hst.
    destruct (body a0 acc st) as [[acc1|e0] st1] eqn:E0;
      simpl in Hst; subst st1.
    + destruct (IH _ _ _ E) as (a & acc_a & Ha & Hb).
      exists a, acc_a. split; [right; exact Ha | exact Hb].
    + injection E as <- <-. exists a0, acc. split; [left | exact E0].
Qed.

Lemma resolve_step_silent depth visited sym sb (st : state) :
  snd (resolve_step depth visited sym sb st) = st.
Proof.
  unfold resolve_step.
  apply bind_silent_at; [reflexivity | intros bound [= <-]].
  case_bool_decide as Hs; [| reflexivity].
  apply bind_silent_at; [apply resolve_variable_bound_silent, Hs | intros v _; reflexivity].
Qed.

Lemma resolve_variable_unfold depth name visited (st : state) b :
  _variables st !! name = Some b ->
  name ∉ visited ->
  _resolve_variable (S depth) name visited st =
  bind (for_each (free_symbols (vb_expr b)) []
          (resolve_step depth ({[name]} ∪ visited)))
       (fun sb => lift (match sb with
                        | [] => Return (vb_expr b)
                        | _ => subs sb (vb_expr b)
                        end))
       st.
Proof.
  intros Hb Hv. simpl. rewrite bool_decide_eq_false_2 by exact Hv.
  unfold bind at 1, get. simpl. rewrite Hb. reflexivity.
Qed.

(** A normal return means the name was not on the path, and every
    dependency was resolved one level down with the name added. *)
Lemma resolve_variable_return_inv depth name visited (st st' : state) v :
  is_Some (_variables st !! name) ->
  _resolve_variable depth name visited st = (Return v, st') ->
  (name ∉ visited) /\
  forall y, depends_on st name y ->
    exists v', _resolve_variable (pred depth) y ({[name]} ∪ visited) st
               = (Return v', st).
Proof.
  intros [b Hb] E. destruct depth as [|depth]; [discriminate|].
  destruct (decide (name ∈ visited)) as [Hin|Hnin].
  { simpl in E. rewrite bool_decide_eq_true_2 in E by exact Hin. discriminate. }
  split; [exact Hnin|].
  rewrite (resolve_variable_unfold _ _ _ _ _ Hb Hnin) in E.
  unfold bind in E.
  destruct (for_each _ _ _ st) as [[sb|e] st1] eqn:Ef; [| discriminate].
  intros y (b' & sym & Hb' & Hsym & -> & Hy).
  rewrite Hb in Hb'. injection Hb' as <-.
  destruct (for_each_return_inv _ _ _
              (fun a acc => resolve_step_silent _ _ a acc st) _ _ _ Ef _ Hsym)
    as (acc & r & Hstep).
  unfold resolve_step, bind in Hstep. rewrite is_variable_value in Hstep.
  rewrite bool_decide_eq_true_2 in Hstep by exact Hy.
  pose proof (resolve_variable_bound_silent depth (str_of_symbol sym)
                ({[name]} ∪ visited) st Hy) as Hs.
  simpl pred.
  destruct (_resolve_variable depth _ _ st) as [[v'|e] st2]; [| discriminate].
  simpl in Hs. subst st2. exists v'. reflexivity.
Qed.

Lemma resolve_variable_return_walk (st : state) l :
  forall depth x visited v st',
    is_Some (_variables st !! x) ->
    _resolve_variable depth x visited st = (Return v, st') ->
    walk st x l ->
    forall y, y ∈ l -> y ∉ ({[x]} ∪ visited : gset string).
Proof.
  induction l as [|y0 l IH]; intros depth x visited v st' Hb E Hw y Hy.
  - inversion Hy.
  - inversion Hw as [|? ? ? Hdep Hw']; subst.
    destruct (resolve_variable_return_inv _ _ _ _ _ _ Hb E) as [Hx Hdeps].
    destruct (Hdeps _ Hdep) as [v' E'].
    assert (Hby : is_Some (_variables st !! y0)).
    { destruct Hdep as (? & ? & ? & ? & ? & ?). assumption. }
    apply elem_of_cons in Hy as [->|Hy].
    + destruct (resolve_variable_return_inv _ _ _ _ _ _ Hby E') as [Hn _].
      exact Hn.
    + pose proof (IH _ _ _ _ _ Hby E' Hw' y Hy) as Hn.
      intros Hin. apply Hn. apply elem_of_union. right. exact Hin.
Qed.

Lemma on_cycle_bound (st : state) x : on_cycle st x -> is_Some (_variables st !! x).
Proof.
  intros [l Hw]. destruct l as [|y l]; simpl in Hw; inversion Hw as [|? ? ? Hd _]; subst;
    destruct Hd as (b & ? & Hb & _); rewrite Hb; eauto.
Qed.

(** Resolving a member of a cycle never returns normally. *)
Lemma resolve_variable_cycle_no_return depth x visited (st st' : state) v :
  on_cycle st x ->
  _resolve_variable depth x visited st <> (Return v, st').
Proof.
  intros Hc E. pose proof (on_cycle_bound _ _ Hc) as Hb.
  destruct Hc as [l Hw].
  apply (resolve_variable_return_walk _ _ _ _ _ _ _ Hb E Hw x); set_solver.
Qed.

(** What [_resolve_variable] raises on a bound name: the recursion limit,
    the diagnostic for a name [z] that the walk from [name] reaches and
    that is either already on the path or on a cycle of its own, or what a
    substitution into the body of a variable on the walk raises. *)
Lemma resolve_variable_raise_inv depth :
  forall name visited (st st' : state) e,
    is_Some (_variables st !! name) ->
    _resolve_variable depth name visited st = (Raise e, st') ->
    e = RecursionError \/
    (exists z, e = ValueError (circular_msg z) /\
               rtc (depends_on st) name z /\
               (z ∈ visited \/ tc (depends_on st) z z)) \/
    substitution_raises st name e.
Proof.
  induction depth as [|depth IH]; intros name visited st st' e Hb E.
  - left. simpl in E. injection E as <- _. reflexivity.
  - destruct (decide (name ∈ visited)) as [Hin|Hnin].
    { simpl in E. rewrite bool_decide_eq_true_2 in E by exact Hin.
      injection E as <- _. right. left. exists name.
      split; [reflexivity | split; [apply rtc_refl | left; exact Hin]]. }
    destruct Hb as [b Hb].
    rewrite (resolve_variable_unfold _ _ _ _ _ Hb Hnin) in E.
    unfold bind in E.
    destruct (for_each _ _ _ st) as [[sb|e0] st1] eqn:Ef.
    { unfold lift in E. destruct sb as [|kv sb]; [discriminate|].
      injection E as E _. right. right. exists name, b, (kv :: sb).
      split; [apply rtc_refl | split; [exact Hb | exact E]]. }
    injection E as -> ->.
    destruct (for_each_raise_inv _ _ _
                (fun a acc => resolve_step_silent _ _ a acc st) _ _ _ Ef)
      as (sym & acc & Hsym & Hstep).
    unfold resolve_step, bind in Hstep. rewrite is_variable_value in Hstep.
    case_bool_decide as Hy; [| discriminate].
    destruct (_resolve_variable depth _ _ st) as [[v'|e1] st2] eqn:E1;
      [discriminate|].
    injection Hstep as -> _.
    assert (Hdep : depends_on st name (str_of_symbol sym)).
    { exists b, sym. auto. }
    destruct (IH _ _ _ _ _ Hy E1)
      as [->|[(z & -> & Hr & Hz)|(y & by_ & sb & Hr & Hby & Hsb)]];
      [left; reflexivity | |].
    + right. left. exists z. split; [reflexivity|].
      split; [eapply rtc_l; eassumption|].
      destruct Hz as [Hz|Hz]; [| right; exact Hz].
      apply elem_of_union in Hz as [Hz|Hz]; [| left; exact Hz].
      apply elem_of_singleton in Hz. subst z.
      right. eapply tc_rtc_r; [apply tc_once, Hdep | exact Hr].
    + right. right. exists y, by_, sb.
      split; [eapply rtc_l; eassumption | split; assumption].
Qed.

(** With more depth than there are bound names off the path, the recursion
    limit is not reached: what is raised is the diagnostic or comes from a
    substitution. *)
Lemma resolve_variable_raise_deep depth :
  forall name visited (st st' : state) e,
    is_Some (_variables st !! name) ->
    size (dom (_variables st) ∖ visited) < depth ->
    _resolve_variable depth name visited st = (Raise e, st') ->
    (exists z, e = ValueError (circular_msg z) /\
               rtc (depends_on st) name z /\
               (z ∈ visited \/ tc (depends_on st) z z)) \/
    substitution_raises st name e.
Proof.
  induction depth as [|depth IH]; intros name visited st st' e Hb Hsz E; [lia|].
  destruct (decide (name ∈ visited)) as [Hin|Hnin].
  { simpl in E. rewrite bool_decide_eq_true_2 in E by exact Hin.
    injection E as <- _. left. exists name.
    split; [reflexivity | split; [apply rtc_refl | left; exact Hin]]. }
  pose proof Hb as [b Hb'].
  rewrite (resolve_variable_unfold _ _ _ _ _ Hb' Hnin) in E.
  unfold bind in E.
  destruct (for_each _ _ _ st) as [[sb|e0] st1] eqn:Ef.
  { unfold lift in E. destruct sb as [|kv sb]; [discriminate|].
    injection E as E _. right. exists name, b, (kv :: sb).
    split; [apply rtc_refl | split; [exact Hb' | exact E]]. }
  injection E as -> ->.
  destruct (for_each_raise_inv _ _ _
              (fun a acc => resolve_step_silent _ _ a acc st) _ _ _ Ef)
    as (sym & acc & Hsym & Hstep).
  unfold resolve_step, bind in Hstep. rewrite is_variable_value in Hstep.
  case_bool_decide as Hy; [| discriminate].
  destruct (_resolve_variable depth _ _ st) as [[v'|e1] st2] eqn:E1;
    [discriminate|].
  injection Hstep as -> _.
  assert (Hdep : depends_on st name (str_of_symbol sym)).
  { exists b, sym. auto. }
  assert (Hsub : dom (_variables st) ∖ ({[name]} ∪ visited)
                 ⊂ dom (_variables st) ∖ visited).
  { split.
    - intros z Hz. apply elem_of_difference in Hz as [Hz1 Hz2].
      apply elem_of_difference. split; [exact Hz1|].
      intros Hv. apply Hz2. apply elem_of_union. right. exact Hv.
    - intros Hsup. assert (Hn : name ∈ dom (_variables st) ∖ visited).
      { apply elem_of_difference. split; [apply elem_of_dom; exact Hb | exact Hnin]. }
      apply Hsup in Hn. apply elem_of_difference in Hn as [_ Hn].
      apply Hn. apply elem_of_union. left. apply elem_of_singleton. reflexivity. }
  apply subset_size in Hsub.
  assert (Hsz' : size (dom (_variables st) ∖ ({[name]} ∪ visited)) < depth) by lia.
  destruct (IH _ _ _ _ _ Hy Hsz' E1)
    as [(z & -> & Hr & Hz)|(y & by_ & sb & Hr & Hby & Hsb)].
  - left. exists z. split; [reflexivity|].
    split; [eapply rtc_l; eassumption|].
    destruct Hz as [Hz|Hz]; [| right; exact Hz].
    apply elem_of_union in Hz as [Hz|Hz]; [| left; exact Hz].
    apply elem_of_singleton in Hz. subst z.
    right. eapply tc_rtc_r; [apply tc_once, Hdep | exact Hr].
  - right. exists y, by_, sb.
    split; [eapply rtc_l; eassumption | split; assumption].
Qed.

(** Resolving a member of a cycle with enough depth raises: the diagnostic,
    whose name lies on a cycle that the walk from [x] reaches, or what a
    substitution on that walk raised before. *)
Lemma resolve_variable_cycle depth x (st : state) :
  on_cycle st x ->
  size (_variables st) < depth ->
  exists e,
    _resolve_variable depth x ∅ st = (Raise e, st) /\
    ((exists z, e = ValueError (circular_msg z) /\
                rtc (depends_on st) x z /\ tc (depends_on st) z z) \/
     substitution_raises st x e).
Proof.
  intros Hc Hd. pose proof (on_cycle_bound _ _ Hc) as Hb.
  pose proof (resolve_variable_bound_silent depth x ∅ st Hb) as Hs.
  destruct (_resolve_variable depth x ∅ st) as [[v|e] st'] eqn:E;
    simpl in Hs; subst st'.
  - exfalso. eapply resolve_variable_cycle_no_return; eassumption.
  - exists e. split; [reflexivity|].
    assert (Hsz : size (dom (_variables st) ∖ (∅ : gset string)) < depth).
    { rewrite difference_empty_L, size_dom. exact Hd. }
    destruct (resolve_variable_raise_deep _ _ _ _ _ _ Hb Hsz E)
      as [(z & -> & Hr & [Hz|Hz])|Hsubs].
    + inversion Hz.
    + left. exists z. auto.
    + right. exact Hsubs.
Qed.

(** ** Reading a bound variable

    The facts about SymPy that the read of a variable relies on: a symbol
    has itself as only free symbol, is not an applied function, has no
    arguments, and is replaced by what it is mapped to. *)
Lemma fix_constants_variable x :
  symbol_laws expr -> name_in x constant_names = false ->
  _fix_constants (of_symbol (Sym x)) = Return (of_symbol (Sym x)).
Proof.
  intros L Hx. unfold _fix_constants. rewrite (free_symbols_of_symbol L).
  unfold name_in, constant_names in Hx. simpl in Hx.
  repeat (apply orb_false_iff in Hx as [? Hx]).
  simpl. repeat match goal with H : String.eqb x _ = false |- _ => rewrite H; clear H end.
  reflexivity.
Qed.

Lemma get_symbol_variable x (st : state) :
  (forall s, _symbols_cache st !! x = Some s -> s = Sym x) ->
  exists st1, _get_symbol x st = (Return (Sym x), st1) /\ same_tables st st1.
Proof.
  intros Hc. unfold _get_symbol, bind, get. simpl.
  destruct (_symbols_cache st !! x) as [s|] eqn:E.
  - rewrite (Hc s eq_refl). exists st. split; [reflexivity | apply same_tables_refl].
  - eexists. split; [reflexivity | split; reflexivity].
Qed.

Lemma safe_parse_variable x (st : state) :
  symbol_laws expr -> reads_as_variable x st -> is_Some (_variables st !! x) ->
  exists st1,
    _safe_parse_latex x st = (Return (of_symbol (Sym x)), st1) /\
    same_tables st st1.
Proof.
  intros L (Hid & Hconst & Hfun & Hcache & Hparse) Hb.
  pose proof (is_identifier_word _ Hid) as Hw.
  destruct (get_symbol_variable x st Hcache) as (st1 & Hget & Hsame).
  exists st1. split; [| exact Hsame].
  unfold _safe_parse_latex.
  rewrite has_latex_command_word by exact Hw.
  rewrite latex_to_algebra_word by exact Hw.
  rewrite strip_command_backslashes_word by exact Hw.
  rewrite (re_sub_word_id rule_subscript_braces x)
    by (auto using rule_subscript_braces_word).
  rewrite find_names_identifier by exact Hid.
  unfold build_local_dict, dedup_names, filter; simpl.
  unfold bind, get; simpl. rewrite Hfun.
  rewrite (bool_decide_eq_false_2 _ (is_Some_None (A := fun_binding))).
  rewrite (bool_decide_eq_true_2 _ Hb). simpl.
  rewrite Hget. unfold ret, lift. simpl. rewrite Hparse.
  rewrite (fix_constants_variable _ L Hconst). reflexivity.
Qed.

Lemma eval_inner_identifier depth x :
  is_identifier x = true -> _eval_inner depth x = eval_plain depth x.
Proof.
  intros Hid. pose proof (is_identifier_word _ Hid) as Hw.
  unfold _eval_inner. rewrite preprocess_word by exact Hw.
  assert (String.eqb x "" = false) as ->.
  { destruct x; [discriminate | reflexivity]. }
  rewrite strip_command_backslashes_word, strip_word by exact Hw.
  rewrite find_command_word, LATEX_INT_DEF_word, LATEX_SUM_PROD_word,
    LATEX_LIM_SUB_word, LATEX_LIM_BARE_word, is_matrix_expr_word by exact Hw.
  rewrite ASSIGN_FUNC_identifier by exact Hid.
  unfold eval_assignment. rewrite ASSIGN_VAR_identifier by exact Hid.
  unfold eval_equation. rewrite contains_equals_word by exact Hw.
  reflexivity.
Qed.

(** resolving the symbol of a bound variable is resolving the variable *)
Lemma resolve_expr_variable depth x (st : state) :
  symbol_laws expr -> is_Some (_variables st !! x) ->
  _resolve_expr (S (S depth)) (of_symbol (Sym x)) ∅ st
  = _resolve_variable (S depth) x ∅ st.
Proof.
  intros L Hb. cbn [_resolve_expr]. unfold resolve_expr_body.
  cbn [_apply_user_functions].
  rewrite (applied_undef_of_symbol L), (args_of_symbol L).
  unfold bind, ret, is_variable, get. cbn -[_resolve_variable].
  rewrite (free_symbols_of_symbol L). cbn -[_resolve_variable].
  unfold bind, ret. cbn -[_resolve_variable].
  rewrite (bool_decide_eq_true_2 _ Hb).
  rewrite bool_decide_eq_false_2 by apply not_elem_of_empty.
  cbn -[_resolve_variable].
  destruct (_resolve_variable (S depth) x ∅ st) as [[v|e] st']; [| reflexivity].
  rewrite (subs_of_symbol L). reflexivity.
Qed.

(** The evaluation of a bare, bound variable name: parse (which may fill
    the symbol cache), resolve the variable, finish as step 4 does. *)
Lemma eval_inner_variable depth x (st : state) :
  symbol_laws expr -> reads_as_variable x st -> is_Some (_variables st !! x) ->
  exists st1,
    same_tables st st1 /\
    _eval_inner (S (S depth)) x st
    = bind (_resolve_variable (S depth) x ∅) plain_result st1.
Proof.
  intros L Hr Hb.
  destruct (safe_parse_variable x st L Hr Hb) as (st1 & Hparse & Hsame).
  exists st1. split; [exact Hsame|].
  rewrite eval_inner_identifier by apply Hr.
  unfold eval_plain. unfold bind at 1. rewrite Hparse.
  assert (Hb1 : is_Some (_variables st1 !! x)).
  { destruct Hsame as [-> _]. exact Hb. }
  unfold bind. rewrite (resolve_expr_variable _ _ _ L Hb1). reflexivity.
Qed.

Lemma depends_on_same_variables (st st1 : state) x y :
  _variables st1 = _variables st -> depends_on st x y -> depends_on st1 x y.
Proof.
  intros Hv (b & sym & H1 & H2 & H3 & H4). exists b, sym. rewrite Hv. auto.
Qed.

Lemma walk_same_variables (st st1 : state) x l :
  _variables st1 = _variables st -> walk st x l -> walk st1 x l.
Proof.
  intros Hv Hw. induction Hw; constructor; eauto using depends_on_same_variables.
Qed.

Lemma on_cycle_same_variables (st st1 : state) x :
  _variables st1 = _variables st -> on_cycle st x -> on_cycle st1 x.
Proof. intros Hv [l Hw]. exists l. eapply walk_same_variables; eassumption. Qed.

Lemma substitution_raises_same_variables (st st1 : state) x exc :
  _variables st1 = _variables st ->
  substitution_raises st x exc -> substitution_raises st1 x exc.
Proof.
  intros Hv (y & b & sb & Hr & Hb & Hs). exists y, b, sb.
  split; [| split; [rewrite Hv; exact Hb | exact Hs]].
  eapply rtc_congruence with (f := fun a => a); [| exact Hr].
  intros a c. apply depends_on_same_variables. exact Hv.
Qed.

(** ** Variable assignment *)

Lemma eval_inner_assignment depth raw name body_tex :
  assignment_form raw = Some (name, body_tex) ->
  _eval_inner (expr := expr) depth raw = _handle_var_assignment depth name body_tex.
Proof.
  unfold assignment_form, _eval_inner, eval_assignment.
  destruct (String.eqb _ ""); [discriminate|].
  destruct (find_command _); [discriminate|].
  destruct (_LATEX_INT_DEF _); [discriminate|].
  destruct (_LATEX_SUM_PROD _); [discriminate|].
  destruct (_LATEX_LIM_SUB _); [discriminate|].
  destruct (_LATEX_LIM_BARE _); [discriminate|].
  destruct (_is_matrix_expr (_preprocess_latex raw)); [discriminate|].
  destruct (_ASSIGN_FUNC _); [discriminate|].
  destruct (_ASSIGN_VAR _) as [[vname b]|]; [| discriminate].
  destruct (split_once _ _) as [[a after]|]; [| discriminate].
  destruct (negb (name_in vname reserved_constant_names)); [| discriminate].
  destruct (_is_matrix_expr _); [discriminate|].
  simpl. intros [= <- <-]. reflexivity.
Qed.

(** C10. Variable assignment is not atomic on error.  Take an input that
    the dispatcher routes to [_handle_var_assignment] with [name] and a
    body that parses to [e].  If the check before the store passes (no
    dependency that is already bound fails to resolve), but resolving
    [name] after the store raises the circular-dependency error, then the
    entry point returns [{ok: false, error: ...}] with that diagnostic, and
    the session it leaves still binds [name] to [e]. *)
Theorem assignment_not_atomic depth (raw name body_tex z : string)
    (e : expr) (st st1 st2 : state) :
  assignment_form raw = Some (name, body_tex) ->
  _safe_parse_latex body_tex st = (Return e, st1) ->
  check_dependencies depth name (dependency_names e) st1 = (Return None, st2) ->
  fst (_resolve_variable depth name ∅ (store_variable name e (_free_names e) st2))
  = Raise (ValueError (circular_msg z)) ->
  exists st',
    cas_evaluate depth raw st
    = (Return [("ok", JBool false); ("error", JStr (circular_msg z))], st') /\
    _variables st' !! name = Some (VarBinding e (_free_names e)).
Proof.
  intros Hform Hparse Hcheck Hres.
  exists (store_variable name e (_free_names e) st2).
  split; [| apply lookup_insert_eq].
  unfold cas_evaluate, try_except.
  rewrite (eval_inner_assignment _ _ _ _ Hform).
  unfold _handle_var_assignment, bind at 1. rewrite Hparse.
  unfold bind at 1. rewrite Hcheck.
  unfold bind at 1, get. unfold bind at 1, put.
  fold (store_variable name e (_free_names e) st2).
  assert (Hs : snd (_resolve_variable depth name ∅
                      (store_variable name e (_free_names e) st2))
               = store_variable name e (_free_names e) st2).
  { apply resolve_variable_bound_silent.
    unfold store_variable. simpl. rewrite lookup_insert_eq. eauto. }
  unfold bind.
  destruct (_resolve_variable depth name ∅ _) as [[v|exc] st3];
    simpl in Hres, Hs; [discriminate|].
  injection Hres as ->. subst st3. reflexivity.
Qed.

(** ** Resolution as a function of the variable table

    The resolver agrees with its restatement [resolve_name] over the table
    alone. *)

Lemma for_each_collect {A B} (l : list A) (body : A -> B -> Comp B)
    (f : A -> B -> outcome B) (st : state) :
  (forall a acc, body a acc st = (f a acc, st)) ->
  forall acc, for_each l acc body st = (collect l acc f, st).
Proof.
  intros Hb. induction l as [|a l IH]; intros acc; simpl; [reflexivity|].
  unfold bind. rewrite Hb. destruct (f a acc); [apply IH | reflexivity].
Qed.

Lemma resolve_variable_is_resolve_name depth :
  forall name visited (st : state),
    is_Some (_variables st !! name) ->
    _resolve_variable depth name visited st
    = (resolve_name depth (_variables st) visited name, st).
Proof.
  induction depth as [|depth IH]; intros name visited st Hb; [reflexivity|].
  destruct (decide (name ∈ visited)) as [Hin|Hnin].
  { simpl. rewrite !bool_decide_eq_true_2 by exact Hin. reflexivity. }
  destruct Hb as [b Hb].
  rewrite (resolve_variable_unfold _ _ _ _ _ Hb Hnin).
  simpl. rewrite bool_decide_eq_false_2 by exact Hnin. rewrite Hb.
  unfold bind, resolve_body_with.
  rewrite (for_each_collect _ _
             (fun sym sb =>
                if bool_decide (is_Some (_variables st !! str_of_symbol sym)) then
                  match resolve_name depth (_variables st) ({[name]} ∪ visited)
                          (str_of_symbol sym) with
                  | Return v => Return (sb ++ [(sym, v)])
                  | Raise exc => Raise exc
                  end
                else Return sb)).
  - destruct (collect _ _ _) as [[|kv sb]|exc]; reflexivity.
  - intros sym acc. unfold resolve_step, bind. rewrite is_variable_value.
    case_bool_decide as Hy; [| reflexivity].
    rewrite (IH _ _ _ Hy). destruct (resolve_name _ _ _ _); reflexivity.
Qed.

Lemma plain_result_is_plain_value resolved (st : state) :
  plain_result resolved st = (plain_value resolved, st).
Proof.
  unfold plain_value, plain_result, _make_matrix_result, bind, lift, ret, try_except, raise.
  destruct (matrix_shape resolved) as [[? ?]|]; [reflexivity|].
  destruct (simplify resolved) as [result|exc]; [| reflexivity].
  destruct (has_doit result).
  - destruct (doit result) as [evaled|exc]; simpl.
    + destruct (negb (same_object evaled result)).
      * destruct (simplify evaled) as [r2|exc]; simpl;
          [destruct (matrix_shape r2) as [[? ?]|] | destruct (matrix_shape result) as [[? ?]|]];
          reflexivity.
      * destruct (matrix_shape result) as [[? ?]|]; reflexivity.
    + destruct (matrix_shape result) as [[? ?]|]; reflexivity.
  - simpl. destruct (matrix_shape result) as [[? ?]|]; reflexivity.
Qed.

(** Reading a bound variable: the record is computed from the variable
    table of the session in which the read takes place. *)
Lemma read_variable depth x b (st : state) :
  symbol_laws expr -> reads_as_variable x st ->
  _variables st !! x = Some b ->
  exists st',
    same_tables st st' /\
    cas_evaluate (S (S depth)) x st
    = (Return (record_of (and_then (resolve_body depth (_variables st) x (vb_expr b))
                                   plain_value)), st').
Proof.
  intros L Hr Hb.
  assert (Hsome : is_Some (_variables st !! x)) by eauto.
  destruct (eval_inner_variable depth x st L Hr Hsome) as (st1 & Hsame & He).
  exists st1. split; [exact Hsame|].
  unfold cas_evaluate, try_except. rewrite He. unfold bind.
  assert (Hsome1 : is_Some (_variables st1 !! x)).
  { destruct Hsame as [-> _]. exact Hsome. }
  rewrite (resolve_variable_is_resolve_name _ _ _ _ Hsome1).
  destruct Hsame as [Hv _]. rewrite Hv.
  cbn [resolve_name]. rewrite bool_decide_eq_false_2 by apply not_elem_of_empty.
  rewrite Hb. unfold resolve_body.
  assert (({[x]} ∪ ∅ : gset string) = {[x]}) as -> by apply (right_id_L ∅ (∪)).
  destruct (resolve_body_with _ _ _) as [v|exc]; [| reflexivity].
  simpl. rewrite plain_result_is_plain_value.
  destruct (plain_value v); reflexivity.
Qed.

Lemma error_result_not_ok msg :
  dict_get "ok" (error_result msg) <> Some (JBool true).
Proof. discriminate. Qed.

(** a successful assignment has stored the parsed body, unresolved *)
Lemma successful_assignment_stores depth name body_tex (st st1 : state) r :
  try_except (_handle_var_assignment depth name body_tex)
    (fun exc => ret (error_result (exn_str exc))) st = (Return r, st1) ->
  dict_get "ok" r = Some (JBool true) ->
  exists e,
    fst (_safe_parse_latex body_tex st) = Return e /\
    _variables st1 !! name = Some (VarBinding e (_free_names e)).
Proof.
  unfold try_except, _handle_var_assignment, bind at 1.
  destruct (_safe_parse_latex body_tex st) as [[e|exc] sta];
    [| intros [= <- _] Hok; destruct (error_result_not_ok _ Hok)].
  unfold bind at 1.
  destruct (check_dependencies depth name (dependency_names e) sta)
    as [[[r0|]|exc] stb] eqn:Ec.
  - intros [= <- _] Hok.
    destruct (yields_check_dependencies _ _ _ _ _ _ Ec r0 eq_refl) as [msg ->].
    destruct (error_result_not_ok _ Hok).
  - unfold bind at 1, get. unfold bind at 1, put.
    fold (store_variable name e (_free_names e) stb).
    assert (Hs : snd (_resolve_variable depth name ∅
                        (store_variable name e (_free_names e) stb))
                 = store_variable name e (_free_names e) stb).
    { apply resolve_variable_bound_silent.
      unfold store_variable. simpl. rewrite lookup_insert_eq. eauto. }
    unfold bind, lift, ret.
    destruct (_resolve_variable depth name ∅ _) as [[v|exc] stc];
      simpl in Hs; subst stc;
      [| intros [= <- _] Hok; destruct (error_result_not_ok _ Hok)].
    destruct (simplify v) as [v'|exc];
      [| intros [= <- _] Hok; destruct (error_result_not_ok _ Hok)].
    intros [= _ <-] _. exists e. split; [reflexivity | apply lookup_insert_eq].
  - intros [= <- _] Hok. destruct (error_result_not_ok _ Hok).
Qed.


(** ** Handlers that leave the tables alone *)

Lemma keeps_ret {A} (a : A) : keeps_tables (ret (expr := expr) a).
Proof. apply silent_keeps, silent_ret. Qed.

Lemma keeps_raise {A} e : keeps_tables (raise (expr := expr) (A := A) e).
Proof. apply silent_keeps, silent_raise. Qed.

Lemma keeps_lift {A} (o : outcome A) : keeps_tables (lift (expr := expr) o).
Proof. apply silent_keeps, silent_lift. Qed.

Lemma keeps_bind {A B} (m : Comp A) (k : A -> Comp B) :
  keeps_tables m -> (forall a, keeps_tables (k a)) -> keeps_tables (bind m k).
Proof.
  intros Hm Hk st. unfold bind. specialize (Hm st).
  destruct (m st) as [[a|e] st1]; simpl in Hm; [| exact Hm].
  eapply same_tables_trans; [exact Hm | apply Hk].
Qed.

Lemma keeps_try {A} (m : Comp A) (h : pyexn -> Comp A) :
  keeps_tables m -> (forall e, keeps_tables (h e)) -> keeps_tables (try_except m h).
Proof.
  intros Hm Hh st. unfold try_except. specialize (Hm st).
  destruct (m st) as [[a|e] st1]; simpl in Hm; [exact Hm|].
  eapply same_tables_trans; [exact Hm | apply Hh].
Qed.

Lemma keeps_for_each {A B} (l : list A) (body : A -> B -> Comp B) :
  (forall a acc, keeps_tables (body a acc)) ->
  forall acc, keeps_tables (for_each l acc body).
Proof.
  intros Hb. induction l as [|a l IH]; intros acc; simpl.
  - apply keeps_ret.
  - apply keeps_bind; [apply Hb | intros acc'; apply IH].
Qed.

Lemma keeps_get_symbol name : keeps_tables (_get_symbol (expr := expr) name).
Proof.
  intros st. unfold _get_symbol, bind, get, put, ret. simpl.
  destruct (_symbols_cache st !! name); split; reflexivity.
Qed.

Lemma keeps_get {B} (k : state -> Comp B) :
  (forall st, keeps_tables (k st)) -> keeps_tables (bind get k).
Proof. intros Hk. apply keeps_bind; [apply silent_keeps, silent_get | exact Hk]. Qed.

Lemma keeps_build_local_dict names :
  keeps_tables (build_local_dict (expr := expr) names).
Proof.
  unfold build_local_dict. apply keeps_for_each. intros n local.
  apply keeps_get. intros st.
  repeat match goal with
         | |- keeps_tables (if ?b then _ else _) => destruct b
         end;
    try apply keeps_ret;
    (apply keeps_bind; [apply keeps_get_symbol | intros s; apply keeps_ret]).
Qed.

Lemma keeps_safe_parse_latex tex : keeps_tables (_safe_parse_latex tex).
Proof.
  assert (Hf : forall s,
    keeps_tables (expr := expr)
      (let! local := build_local_dict (dedup_names (find_names 0 s)) in
       let! result := lift (parse_expr s local) in
       lift (_fix_constants result))).
  { intros s. apply keeps_bind; [apply keeps_build_local_dict | intros local].
    apply keeps_bind; [apply keeps_lift | intros r; apply keeps_lift]. }
  unfold _safe_parse_latex. destruct (has_latex_command tex); [| apply Hf].
  apply keeps_try; [| intros _; apply Hf].
  apply keeps_bind; [apply keeps_lift | intros r; apply keeps_lift].
Qed.

Lemma keeps_resolve_expr depth e exclude :
  keeps_tables (_resolve_expr depth e exclude).
Proof. apply silent_keeps, silent_resolve_expr. Qed.

Lemma silent_plain_result resolved : silent (plain_result resolved).
Proof. intros st. rewrite plain_result_is_plain_value. reflexivity. Qed.

Lemma keeps_eval_plain depth tex : keeps_tables (eval_plain depth tex).
Proof.
  unfold eval_plain.
  apply keeps_bind; [apply keeps_safe_parse_latex | intros e].
  apply keeps_bind; [apply keeps_resolve_expr | intros resolved].
  apply silent_keeps, silent_plain_result.
Qed.

Lemma keeps_eval_equation depth tex : keeps_tables (eval_equation depth tex).
Proof.
  unfold eval_equation.
  destruct (_ && _); [| apply keeps_eval_plain].
  destruct (split_once _ _) as [[lhs rhs]|]; [| apply keeps_eval_plain].
  destruct (_ && _); [| apply keeps_eval_plain].
  apply keeps_try; [| intros _; apply keeps_eval_plain].
  apply keeps_bind; [apply keeps_safe_parse_latex | intros l].
  apply keeps_bind; [apply keeps_safe_parse_latex | intros r].
  apply keeps_bind; [apply keeps_lift | intros eq].
  apply keeps_bind; [apply keeps_resolve_expr | intros eq'].
  apply keeps_bind; [apply keeps_lift | intros res; apply keeps_ret].
Qed.

Lemma eval_inner_reserved depth raw vname body :
  _ASSIGN_VAR (strip (strip_command_backslashes (_preprocess_latex raw)))
  = Some (vname, body) ->
  name_in vname reserved_constant_names = true ->
  _eval_inner (expr := expr) depth raw = eval_equation depth (_preprocess_latex raw).
Proof.
  intros Ha Hv.
  destruct (reserved_assignment_route _ _ _ Ha Hv)
    as (H0 & H1 & H2 & H3 & H4 & H5 & H6 & H7 & H8).
  unfold _eval_inner, eval_assignment.
  rewrite H0, H1, H2, H3, H4, H5, H6, H7, Ha.
  destruct (split_once "=" (_preprocess_latex raw)) as [[a after]|];
    [| destruct H8; reflexivity].
  rewrite Hv. reflexivity.
Qed.

(** C9. For every input whose command line has the form [name = body]
    with [name] one of [e], [i], [pi], [E], [I], the evaluation does not
    take the assignment path: it is exactly the evaluation of steps 3 and 4
    (an equation, or a plain expression when the equation cannot be
    built).  It leaves [_variables] and [_functions] unchanged, and the
    type of the result is never [assignment]. *)
Theorem reserved_name_is_not_assigned depth (raw vname body : string) (st : state) :
  _ASSIGN_VAR (strip (strip_command_backslashes (_preprocess_latex raw)))
  = Some (vname, body) ->
  name_in vname reserved_constant_names = true ->
  _eval_inner (expr := expr) depth raw = eval_equation depth (_preprocess_latex raw) /\
  same_tables st (snd (cas_evaluate depth raw st)) /\
  forall r, fst (cas_evaluate depth raw st) = Return r ->
            dict_get "type" r <> Some (JStr "assignment").
Proof.
  intros Ha Hv. pose proof (eval_inner_reserved depth raw vname body Ha Hv) as He.
  split; [exact He|]. unfold cas_evaluate. rewrite He. split.
  - apply (keeps_try _ _ (keeps_eval_equation depth _)). intros e. apply keeps_ret.
  - intros r Hr.
    assert (Hy : yields (try_except (eval_equation depth (_preprocess_latex raw))
                           (fun exc => ret (error_result (exn_str exc))))
                        (shaped ["equation"; "value"])).
    { apply yields_try; [apply yields_eval_equation|].
      intros e. apply yields_ret, shaped_error. }
    destruct (try_except _ _ st) as [[r0|e] st'] eqn:E; simpl in Hr; [| discriminate].
    injection Hr as ->.
    destruct (Hy _ _ _ E) as [(_ & _ & _ & t & Ht & Hin)|[msg ->]].
    + rewrite Ht. intros [= ->]. simpl in Hin. destruct Hin as [|[|[]]]; discriminate.
    + discriminate.
Qed.

(** ** The integration variable of [\int_{a}^{b} body] *)

Lemma choose_integration_variable_spec (free : list symbol) :
  match choose_integration_variable free with
  | Some var =>
      (str_of_symbol var = "x" /\ var ∈ free) \/
      ((forall s, s ∈ free -> str_of_symbol s <> "x") /\
       exists rest, free = var :: rest)
  | None => free = []
  end.
Proof.
  unfold choose_integration_variable.
  destruct (List.find _ free) as [s|] eqn:E.
  - left. apply find_some in E as [Hin Hx].
    split; [apply String.eqb_eq, Hx | apply list_elem_of_In, Hin].
  - destruct free as [|s rest]; [reflexivity|].
    right. split; [| eauto].
    intros s' Hs' Hx. apply list_elem_of_In in Hs'.
    pose proof (find_none _ _ E s' Hs') as Hn. simpl in Hn.
    rewrite Hx in Hn. discriminate Hn.
Qed.


(** ** Numeric fields of a result record *)

Lemma dict_get_update_numeric (k : string) (d extra : pydict) :
  (k = "numeric_latex" \/ k = "numeric_plain") -> no_numeric_keys extra ->
  dict_get k (dict_update d extra) = dict_get k d.
Proof.
  intros Hk Hex. unfold dict_update. revert d.
  induction Hex as [|[k' v'] extra [H1 H2] Hex IH]; intros d; simpl; [reflexivity|].
  rewrite IH. apply dict_get_set_other. destruct Hk as [->| ->]; assumption.
Qed.


(** ** The matrix parser *)

Lemma map_M_length {A B} (f : A -> Comp B) (l : list A) :
  forall (st st' : state) bs,
    map_M f l st = (Return bs, st') -> List.length bs = List.length l.
Proof.
  induction l as [|a l IH]; intros st st' bs; simpl.
  - intros [= <- _]. reflexivity.
  - unfold bind.
    destruct (f a st) as [[b|e] st1]; [| discriminate].
    destruct (map_M f l st1) as [[bs'|e] st2] eqn:E; [| discriminate].
    intros [= <- _]. simpl. f_equal. eapply IH, E.
Qed.

Lemma split_char_nonempty sep s : split_char sep s <> [].
Proof.
  destruct s as [|c s]; simpl; [discriminate|].
  destruct (Ascii.eqb c sep); [discriminate|].
  destruct (split_char sep s); discriminate.
Qed.

Lemma parse_cells_zero cells :
  forall (st st' : state) parsed,
    parse_cells cells st = (Return parsed, st') ->
    Forall2 (fun cell p => cell = "" -> p = Zero) cells parsed.
Proof.
  unfold parse_cells. induction cells as [|cell cells IH]; intros st st' parsed; simpl.
  - intros [= <- _]. constructor.
  - unfold bind.
    destruct (String.eqb cell "") eqn:Ec.
    + unfold ret at 1.
      destruct (map_M _ cells st) as [[ps|e] st1] eqn:E; [| discriminate].
      intros [= <- _]. constructor; [reflexivity | eapply IH, E].
    + destruct (_safe_parse_latex cell st) as [[p|e] st1]; [| discriminate].
      destruct (map_M _ cells st1) as [[ps|e] st2] eqn:E; [| discriminate].
      intros [= <- _]. constructor; [| eapply IH, E].
      intros ->. discriminate Ec.
Qed.

Lemma parse_rows_nonempty_rows row_strs :
  forall (st st' : state) data,
    parse_rows row_strs st = (Return data, st') ->
    Forall (fun row => 0 < List.length row) data.
Proof.
  induction row_strs as [|row_str rest IH]; intros st st' data; simpl.
  - intros [= <- _]. constructor.
  - destruct (String.eqb (strip row_str) ""); [apply IH|].
    unfold bind.
    destruct (parse_cells _ st) as [[cells|e] st1] eqn:Ec; [| discriminate].
    destruct (parse_rows rest st1) as [[others|e] st2] eqn:Er; [| discriminate].
    intros [= <- _]. constructor; [| eapply IH, Er].
    apply map_M_length in Ec. rewrite Ec, length_map.
    pose proof (split_char_nonempty "&" (strip row_str)) as Hne.
    destruct (split_char "&" (strip row_str)); [destruct Hne; reflexivity | simpl; lia].
Qed.

Lemma check_rectangular_spec ncols rows :
  forall i (st : state),
    (Forall (fun row => List.length row = ncols) rows /\
     check_rectangular ncols i rows st = (Return tt, st)) \/
    (~ Forall (fun row => List.length row = ncols) rows /\
     exists j n,
       check_rectangular ncols i rows st
       = (Raise (ValueError ("Jagged matrix: row " +:+ j +:+ " has " +:+ n
                             +:+ " cols, expected " +:+ str_of_nat ncols)), st)).
Proof.
  induction rows as [|row rows IH]; intros i st; simpl.
  - left. split; [constructor | reflexivity].
  - case_bool_decide as Hlen.
    + destruct (IH (S i) st) as [[Hall Hok]|[Hnot Hj]].
      * left. split; [constructor; assumption | exact Hok].
      * right. split; [| exact Hj]. intros Hall. apply Hnot.
        inversion Hall; assumption.
    + right. split.
      * intros Hall. apply Hlen. inversion Hall; assumption.
      * eexists _, _. reflexivity.
Qed.

(** what makes the loops over the cells and over the rows raise: a cell
    that is not empty and that [_safe_parse_latex] rejects *)
Lemma parse_cells_raise cells (st st' : state) exc :
  parse_cells cells st = (Raise exc, st') ->
  exists cell sta,
    cell ∈ cells /\ cell <> "" /\ _safe_parse_latex cell sta = (Raise exc, st').
Proof.
  unfold parse_cells. revert st.
  induction cells as [|c cells IH]; intros st; simpl; [discriminate|].
  unfold bind at 1.
  destruct (String.eqb c "") eqn:Ec.
  - unfold ret at 1. unfold bind at 1.
    destruct (map_M _ cells st) as [[bs|e] st1] eqn:Em; [discriminate|].
    intros [= -> ->]. destruct (IH _ Em) as (cell & sta & Hin & Hne & Hp).
    exists cell, sta. split; [right; exact Hin | split; assumption].
  - destruct (_safe_parse_latex c st) as [[b|e] st1] eqn:Ep.
    + unfold bind at 1.
      destruct (map_M _ cells st1) as [[bs|e] st2] eqn:Em; [discriminate|].
      intros [= -> ->]. destruct (IH _ Em) as (cell & sta & Hin & Hne & Hp).
      exists cell, sta. split; [right; exact Hin | split; assumption].
    + intros [= -> ->]. exists c, st. split; [left|].
      split; [| exact Ep]. intros ->. discriminate Ec.
Qed.

Lemma parse_rows_raise row_strs (st st' : state) exc :
  parse_rows row_strs st = (Raise exc, st') ->
  exists row cell sta,
    row ∈ row_strs /\
    cell ∈ map strip (split_char "&" (strip row)) /\ cell <> "" /\
    _safe_parse_latex cell sta = (Raise exc, st').
Proof.
  revert st. induction row_strs as [|row rest IH]; intros st; simpl; [discriminate|].
  assert (Hrest : forall st0, parse_rows rest st0 = (Raise exc, st') ->
            exists row' cell sta,
              row' ∈ row :: rest /\
              cell ∈ map strip (split_char "&" (strip row')) /\ cell <> "" /\
              _safe_parse_latex cell sta = (Raise exc, st')).
  { intros st0 Hr. destruct (IH _ Hr) as (row' & cell & sta & Hin & Hc).
    exists row', cell, sta. split; [right; exact Hin | exact Hc]. }
  destruct (String.eqb (strip row) ""); [apply Hrest|].
  unfold bind at 1.
  destruct (parse_cells _ st) as [[parsed|e] st1] eqn:Ec.
  - unfold bind at 1.
    destruct (parse_rows rest st1) as [[others|e] st2] eqn:Er; [discriminate|].
    intros [= -> ->]. exact (Hrest _ Er).
  - intros [= -> ->].
    destruct (parse_cells_raise _ _ _ _ Ec) as (cell & sta & Hin & Hne & Hp).
    exists row, cell, sta. split; [left | split; [exact Hin | split; assumption]].
Qed.


(** ** Matrix assignment *)

Lemma eval_inner_matrix_assignment depth raw name matrix_tex :
  matrix_assignment_form raw = Some (name, matrix_tex) ->
  _eval_inner (expr := expr) depth raw
  = _handle_matrix_assignment depth name matrix_tex.
Proof.
  unfold matrix_assignment_form, _eval_inner, eval_assignment.
  destruct (String.eqb _ ""); [discriminate|].
  destruct (find_command _); [discriminate|].
  destruct (_LATEX_INT_DEF _); [discriminate|].
  destruct (_LATEX_SUM_PROD _); [discriminate|].
  destruct (_LATEX_LIM_SUB _); [discriminate|].
  destruct (_LATEX_LIM_BARE _); [discriminate|].
  destruct (_is_matrix_expr (_preprocess_latex raw)); [discriminate|].
  destruct (_ASSIGN_FUNC _); [discriminate|].
  destruct (_ASSIGN_VAR _) as [[vname b]|]; [| discriminate].
  destruct (split_once _ _) as [[a after]|]; [| discriminate].
  destruct (negb (name_in vname reserved_constant_names)); [| discriminate].
  destruct (_is_matrix_expr _); [| discriminate].
  simpl. intros [= <- <-]. reflexivity.
Qed.

Lemma map_M_silent {A B} (f : A -> Comp B) (l : list A) :
  (forall a, silent (f a)) -> silent (map_M f l).
Proof.
  intros Hf. induction l as [|a l IH]; intros st; simpl; [reflexivity|].
  unfold bind. pose proof (Hf a st) as Ha.
  destruct (f a st) as [[b|e] st1]; simpl in Ha; subst st1; [| reflexivity].
  pose proof (IH st) as Hl.
  destruct (map_M f l st) as [[bs|e] st2]; simpl in Hl; subst st2; reflexivity.
Qed.

(** a successful matrix assignment has stored the matrix of the entries as
    they resolve in the session of the assignment, with no dependencies *)
Lemma successful_matrix_assignment_stores depth name matrix_tex
    (st st1 : state) r :
  try_except (_handle_matrix_assignment depth name matrix_tex)
    (fun exc => ret (error_result (exn_str exc))) st = (Return r, st1) ->
  dict_get "ok" r = Some (JBool true) ->
  exists mat sta entries,
    _parse_matrix_latex matrix_tex st = (Return mat, sta) /\
    map_M (fun e => _resolve_expr depth e ∅) (matrix_entries mat) sta
    = (Return entries, sta) /\
    st1 = store_variable name
            (ImmutableMatrix (matrix_with_entries mat entries)) ∅ sta.
Proof.
  unfold try_except at 1, _handle_matrix_assignment, try_except, bind at 1.
  destruct (_parse_matrix_latex matrix_tex st) as [[mat|exc] sta];
    [| intros [= <- _] Hok; destruct (error_result_not_ok _ Hok)].
  unfold resolve_entries, bind at 1. unfold bind at 1.
  pose proof (map_M_silent (fun e => _resolve_expr depth e ∅)
                (matrix_entries mat)
                (fun e => silent_resolve_expr depth e ∅) sta) as Hs.
  destruct (map_M _ (matrix_entries mat) sta) as [[entries|exc] stb] eqn:Em;
    simpl in Hs; subst stb;
    [| intros [= <- _] Hok; destruct (error_result_not_ok _ Hok)].
  unfold ret at 1. unfold bind at 1, get. unfold bind at 1, put.
  fold (store_variable name
          (ImmutableMatrix (matrix_with_entries mat entries)) ∅ sta).
  unfold _make_matrix_result.
  destruct (matrix_shape _) as [[rows cols]|];
    [| intros [= <- _] Hok; destruct (error_result_not_ok _ Hok)].
  intros [= _ <-] _. exists mat, sta, entries. repeat split. exact Em.
Qed.


(** C3 (amended).  In a session where the bound name [x] lies on a
    dependency cycle (a walk along the edges from a variable to the bound
    names its stored body mentions leads from [x] back to [x]; two
    variables that mention each other are the smallest case after the
    self-loop), and where the bare input [x] is read as the variable of
    that name, evaluating [x] never succeeds: it returns an [ok: false]
    record.  The error is ["Circular dependency detected involving 'z'"],
    where [z] is the variable under resolution when the repetition is
    found, a variable reached from [x] that lies on a cycle; or, when a
    substitution into the body of a variable reached from [x] raises
    before a repetition is found, the message of that exception.  The
    recursion limit is assumed to exceed the number of bindings. *)
Theorem cycle_member_reports_circular depth (x : string) (st : state) :
  symbol_laws expr ->
  reads_as_variable x st ->
  on_cycle st x ->
  size (_variables st) < depth ->
  exists st',
    same_tables st st' /\
    ((exists z,
         cas_evaluate (S (S depth)) x st
         = (Return [("ok", JBool false);
                    ("error", JStr ("Circular dependency detected involving '"
                                    +:+ z +:+ "'"))], st') /\
         rtc (depends_on st) x z /\ tc (depends_on st) z z) \/
     (exists exc,
         substitution_raises st x exc /\
         cas_evaluate (S (S depth)) x st
         = (Return [("ok", JBool false); ("error", JStr (exn_str exc))], st'))).
Proof.
  intros L Hr Hc Hd. pose proof (on_cycle_bound _ _ Hc) as Hb.
  destruct (eval_inner_variable depth x st L Hr Hb) as (st1 & [Hv Hf] & He).
  destruct (resolve_variable_cycle (S depth) x st1) as (exc & Hz & Hwhy).
  { eapply on_cycle_same_variables; eassumption. }
  { rewrite Hv. lia. }
  exists st1. split; [split; assumption|].
  assert (Hrun : cas_evaluate (S (S depth)) x st
                 = (Return (error_result (exn_str exc)), st1)).
  { unfold cas_evaluate, try_except. rewrite He. unfold bind. rewrite Hz.
    reflexivity. }
  assert (Hsub : forall a b, depends_on st1 a b -> depends_on st a b).
  { intros a b. apply depends_on_same_variables. symmetry. exact Hv. }
  destruct Hwhy as [(z & -> & Hrtc & Htc)|Hsubs].
  - left. exists z. split; [exact Hrun|]. split.
    + eapply rtc_congruence with (f := fun a => a); [| exact Hrtc]. exact Hsub.
    + eapply tc_congruence with (f := fun a => a); [| exact Htc]. exact Hsub.
  - right. exists exc. split; [| exact Hrun].
    eapply substitution_raises_same_variables; [| exact Hsubs].
    symmetry. exact Hv.
Qed.

(** ** What an evaluation writes

    Every write to the session is one of three: caching the symbol of a
    name not yet cached, storing a variable binding, storing a function
    binding.  A relation between sessions that contains the identity, is
    transitive and holds across each kind of write that a computation can
    make, holds across the computation. *)

Section Frame.

Variable R : state -> state -> Prop.
Hypothesis R_refl : forall st, R st st.
Hypothesis R_trans : forall st1 st2 st3, R st1 st2 -> R st2 st3 -> R st1 st3.
Hypothesis R_cache :
  forall st name, _symbols_cache st !! name = None -> R st (cache_symbol name st).

Lemma moves_silent {A} (m : Comp A) : silent m -> moves R m.
Proof. intros H st. rewrite H. apply R_refl. Qed.

Lemma moves_ret {A} (a : A) : moves R (ret (expr := expr) a).
Proof. intros st. apply R_refl. Qed.

Lemma moves_raise {A} e : moves R (raise (expr := expr) (A := A) e).
Proof. intros st. apply R_refl. Qed.

Lemma moves_lift {A} (o : outcome A) : moves R (lift (expr := expr) o).
Proof. intros st. apply R_refl. Qed.

Lemma moves_bind {A B} (m : Comp A) (k : A -> Comp B) :
  moves R m -> (forall a, moves R (k a)) -> moves R (bind m k).
Proof.
  intros Hm Hk st. unfold bind. specialize (Hm st).
  destruct (m st) as [[a|e] st1]; simpl in Hm; [| exact Hm].
  exact (R_trans _ _ _ Hm (Hk a st1)).
Qed.

Lemma moves_try {A} (m : Comp A) (h : pyexn -> Comp A) :
  moves R m -> (forall e, moves R (h e)) -> moves R (try_except m h).
Proof.
  intros Hm Hh st. unfold try_except. specialize (Hm st).
  destruct (m st) as [[a|e] st1]; simpl in Hm; [exact Hm|].
  exact (R_trans _ _ _ Hm (Hh e st1)).
Qed.

Lemma moves_get {B} (k : state -> Comp B) :
  (forall st, moves R (k st)) -> moves R (bind get k).
Proof. intros Hk. apply moves_bind; [apply moves_silent, silent_get | exact Hk]. Qed.

Lemma moves_for_each {A B} (l : list A) (body : A -> B -> Comp B) :
  (forall a acc, moves R (body a acc)) ->
  forall acc, moves R (for_each l acc body).
Proof.
  intros Hb. induction l as [|a l IH]; intros acc; simpl; [apply moves_ret|].
  apply moves_bind; [apply Hb | intros acc'; apply IH].
Qed.

Lemma moves_map_M {A B} (f : A -> Comp B) (l : list A) :
  (forall a, moves R (f a)) -> moves R (map_M f l).
Proof.
  intros Hf. induction l as [|a l IH]; simpl; [apply moves_ret|].
  apply moves_bind; [apply Hf | intros b].
  apply moves_bind; [exact IH | intros bs; apply moves_ret].
Qed.

Lemma moves_get_symbol name : moves R (_get_symbol (expr := expr) name).
Proof.
  intros st. unfold _get_symbol, bind, get, put, ret. simpl.
  destruct (_symbols_cache st !! name) eqn:E; simpl; [apply R_refl|].
  apply (R_cache st name E).
Qed.

Lemma moves_resolve_expr depth e exclude : moves R (_resolve_expr depth e exclude).
Proof. apply moves_silent, silent_resolve_expr. Qed.

Lemma moves_item parts i : moves R (item (expr := expr) parts i).
Proof. unfold item. destruct (nth_error parts i); [apply moves_ret | apply moves_raise]. Qed.

Lemma moves_first_free_symbol e : moves R (first_free_symbol e).
Proof.
  unfold first_free_symbol. destruct (free_symbols e); [apply moves_raise | apply moves_ret].
Qed.

Lemma moves_make_matrix_result mat t extra : moves R (_make_matrix_result mat t extra).
Proof.
  unfold _make_matrix_result.
  destruct (matrix_shape mat) as [[? ?]|]; [apply moves_ret | apply moves_raise].
Qed.

Lemma moves_plain_result resolved : moves R (plain_result resolved).
Proof. apply moves_silent, silent_plain_result. Qed.

Lemma moves_resolve_variable depth name visited :
  moves R (_resolve_variable depth name visited).
Proof.
  intros st. destruct (_variables st !! name) as [b|] eqn:E.
  - rewrite resolve_variable_bound_silent by eauto. apply R_refl.
  - destruct depth as [|depth]; [apply R_refl|]. simpl.
    destruct (bool_decide (name ∈ visited)); [apply R_refl|].
    unfold bind at 1, get. rewrite E.
    apply (moves_bind (_get_symbol name) (fun s => ret (of_symbol s)));
      [apply moves_get_symbol | intros s; apply moves_ret].
Qed.

Lemma moves_is_variable sn : moves R (is_variable (expr := expr) sn).
Proof. apply moves_silent, silent_is_variable. Qed.

Ltac moves_step :=
  first
    [ apply moves_ret
    | apply moves_raise
    | apply moves_lift
    | apply moves_get_symbol
    | apply moves_resolve_expr
    | apply moves_resolve_variable
    | apply moves_is_variable
    | apply moves_item
    | apply moves_first_free_symbol
    | apply moves_make_matrix_result
    | apply moves_plain_result
    | match goal with
      | |- moves _ (bind get _) => apply moves_get; intros ?
      | |- moves _ (for_each _ _ _) => apply moves_for_each; intros ? ?
      | |- moves _ (map_M _ _) => apply moves_map_M; intros ?
      | |- moves _ (try_except _ _) => apply moves_try; [| intros ?]
      | |- moves _ (if ?b then _ else _) => destruct b
      | |- moves _ (match ?x with _ => _ end) => destruct x
      | |- moves _ (let '(_, _) := ?x in _) => destruct x
      | |- moves _ (bind _ _) => apply moves_bind; [| intros ?]
      end ].

Ltac moves_go := repeat moves_step.

Lemma moves_build_local_dict names :
  moves R (build_local_dict (expr := expr) names).
Proof. unfold build_local_dict. moves_go. Qed.

Lemma moves_safe_parse_latex tex : moves R (_safe_parse_latex tex).
Proof.
  unfold _safe_parse_latex.
  destruct (has_latex_command tex);
    repeat first [ apply moves_build_local_dict | moves_step ].
Qed.

Lemma moves_parse_rows row_strs : moves R (parse_rows (expr := expr) row_strs).
Proof.
  induction row_strs as [|row rest IH]; simpl; [apply moves_ret|].
  destruct (String.eqb (strip row) ""); [exact IH|].
  apply moves_bind.
  - unfold parse_cells. apply moves_map_M. intros cell.
    destruct (String.eqb cell ""); [apply moves_ret | apply moves_safe_parse_latex].
  - intros cells. apply moves_bind; [exact IH | intros others; apply moves_ret].
Qed.

Lemma moves_check_rectangular ncols rows :
  forall i, moves R (check_rectangular (expr := expr) ncols i rows).
Proof.
  induction rows as [|row rows IH]; intros i; simpl; [apply moves_ret|].
  destruct (bool_decide _); [apply IH | apply moves_raise].
Qed.

Lemma moves_parse_matrix_latex tex : moves R (_parse_matrix_latex (expr := expr) tex).
Proof.
  unfold _parse_matrix_latex, parse_matrix_data.
  repeat first [ apply moves_parse_rows | apply moves_check_rectangular | moves_step ].
Qed.

Lemma moves_resolve_entries depth mat : moves R (resolve_entries depth mat).
Proof. unfold resolve_entries. moves_go. Qed.

Lemma moves_resolve_matrix_expr depth tex : moves R (_resolve_matrix_expr depth tex).
Proof.
  unfold _resolve_matrix_expr.
  repeat first [ apply moves_safe_parse_latex | moves_step ].
Qed.

Lemma moves_resolve_matrix_arg depth tex : moves R (_resolve_matrix_arg depth tex).
Proof.
  unfold _resolve_matrix_arg.
  repeat first [ apply moves_parse_matrix_latex | apply moves_resolve_matrix_expr
               | moves_step ].
Qed.

Lemma moves_with_matrix depth parts square_msg k :
  (forall mat, moves R (k mat)) -> moves R (with_matrix depth parts square_msg k).
Proof.
  intros Hk. unfold with_matrix, not_a_matrix.
  repeat first [ apply moves_resolve_matrix_arg | apply Hk | moves_step ].
Qed.

Lemma moves_variable_argument parts e : moves R (variable_argument parts e).
Proof. unfold variable_argument. moves_go. Qed.

Ltac moves_all :=
  repeat first [ apply moves_safe_parse_latex | apply moves_variable_argument
               | apply moves_parse_matrix_latex | apply moves_resolve_entries
               | apply moves_with_matrix; intros ?
               | moves_step ].

Lemma moves_handle_command depth cmd inner :
  moves R (_handle_command depth cmd inner).
Proof.
  unfold _handle_command, _cmd_solve, _cmd_diff, _cmd_integrate, _cmd_limit,
    _cmd_series, _cmd_subs, _cmd_mat_det, _cmd_mat_inv, _cmd_mat_trace,
    _cmd_mat_transpose, _cmd_mat_eigenvals, _cmd_mat_eigenvects, _cmd_mat_rank,
    _cmd_mat_rref, _cmd_mat_charpoly, _cmd_mat_nullspace, _cmd_mat_colspace.
  moves_all.
Qed.

Lemma moves_integration_variable depth e : moves R (integration_variable depth e).
Proof. unfold integration_variable. moves_all. Qed.

Lemma moves_handle_latex_int depth lo up body :
  moves R (_handle_latex_int depth lo up body).
Proof.
  unfold _handle_latex_int.
  repeat first [ apply moves_integration_variable | moves_all ].
Qed.

Lemma moves_handle_latex_sum_prod depth op lo up body :
  moves R (_handle_latex_sum_prod depth op lo up body).
Proof. unfold _handle_latex_sum_prod. moves_all. Qed.

Lemma moves_handle_latex_limit depth v p body :
  moves R (_handle_latex_limit depth v p body).
Proof. unfold _handle_latex_limit. moves_all. Qed.

Lemma moves_handle_latex_limit_bare depth body :
  moves R (_handle_latex_limit_bare depth body).
Proof. unfold _handle_latex_limit_bare. moves_all. Qed.

Lemma moves_handle_matrix_literal depth tex :
  moves R (_handle_matrix_literal depth tex).
Proof. unfold _handle_matrix_literal. moves_all. Qed.

Lemma moves_eval_plain depth tex : moves R (eval_plain depth tex).
Proof. unfold eval_plain. moves_all. Qed.

Lemma moves_eval_equation depth tex : moves R (eval_equation depth tex).
Proof.
  unfold eval_equation.
  repeat first [ apply moves_eval_plain | moves_all ].
Qed.

Lemma moves_check_dependencies depth name deps :
  moves R (check_dependencies depth name deps).
Proof.
  induction deps as [|dep rest IH]; simpl; [apply moves_ret|].
  intros st. unfold bind at 1. rewrite is_variable_value.
  case_bool_decide as Hb; [| apply IH].
  rewrite <- (resolve_variable_bound_silent depth dep {[name]} st Hb) at 1.
  destruct (_resolve_variable depth dep {[name]} st) as [[v|e] st1]; simpl.
  - apply IH.
  - destruct (exn_is_ValueError e); apply R_refl.
Qed.

Lemma moves_eval_inner_other depth raw :
  function_def_form raw = None ->
  matrix_assignment_form raw = None ->
  assignment_form raw = None ->
  moves R (_eval_inner depth raw).
Proof.
  unfold function_def_form, matrix_assignment_form, assignment_form,
    _eval_inner, eval_assignment.
  destruct (String.eqb _ ""); [intros; apply moves_ret|].
  destruct (find_command _) as [[p g]|]; [intros; apply moves_handle_command|].
  destruct (_LATEX_INT_DEF _) as [[[lo up] body]|];
    [intros; apply moves_handle_latex_int|].
  destruct (_LATEX_SUM_PROD _) as [[[[op lo] up] body]|];
    [intros; apply moves_handle_latex_sum_prod|].
  destruct (_LATEX_LIM_SUB _) as [[[v pt] body]|];
    [intros; apply moves_handle_latex_limit|].
  destruct (_LATEX_LIM_BARE _) as [body|];
    [intros; apply moves_handle_latex_limit_bare|].
  destruct (_is_matrix_expr (_preprocess_latex raw));
    [intros; apply moves_handle_matrix_literal|].
  destruct (_ASSIGN_FUNC _) as [[[f ps] b]|]; [intros [=]|].
  destruct (_ASSIGN_VAR _) as [[v b]|]; [| intros; apply moves_eval_equation].
  destruct (split_once _ _) as [[a0 after]|]; [| intros; apply moves_raise].
  destruct (negb (name_in v reserved_constant_names));
    [| intros; apply moves_eval_equation].
  destruct (_is_matrix_expr _); simpl; intros; discriminate.
Qed.

(** a write: the session is replaced by [f] of itself *)
Lemma moves_update {B} (f : state -> state) (k : state -> unit -> Comp B) :
  (forall st, R st (f st)) -> (forall st u, moves R (k st u)) ->
  moves R (bind get (fun st => bind (put (f st)) (k st))).
Proof.
  intros Hf Hk st. unfold bind at 1 2, get, put.
  exact (R_trans _ _ _ (Hf st) (Hk st tt (f st))).
Qed.

Lemma moves_handle_var_assignment depth name body :
  (forall st e deps, R st (store_variable name e deps st)) ->
  moves R (_handle_var_assignment depth name body).
Proof.
  intros Hw. unfold _handle_var_assignment.
  apply moves_bind; [apply moves_safe_parse_latex | intros e].
  apply moves_bind; [apply moves_check_dependencies | intros [r|]]; [apply moves_ret|].
  apply (moves_update (store_variable name e (_free_names e))); [intros st; apply Hw|].
  intros st u. moves_all.
Qed.

Lemma moves_handle_matrix_assignment depth name tex :
  (forall st e deps, R st (store_variable name e deps st)) ->
  moves R (_handle_matrix_assignment depth name tex).
Proof.
  intros Hw. unfold _handle_matrix_assignment.
  apply moves_try; [| intros exc; apply moves_ret].
  apply moves_bind; [apply moves_parse_matrix_latex | intros mat].
  apply moves_bind; [apply moves_resolve_entries | intros mat'].
  apply (moves_update (store_variable name (ImmutableMatrix mat') ∅));
    [intros st; apply Hw|].
  intros st u. moves_all.
Qed.

Lemma moves_handle_function_def fname params body :
  (forall st fb, R st (store_function fname fb st)) ->
  moves R (_handle_function_def fname params body).
Proof.
  intros Hw. unfold _handle_function_def.
  apply moves_bind; [apply moves_map_M; intros p; apply moves_get_symbol | intros syms].
  apply moves_bind; [apply moves_safe_parse_latex | intros e].
  apply (moves_update
           (store_function fname
              (FunBinding syms e
                 (_free_names e ∖ list_to_set (map strip (split_char "," params))))));
    [intros st; apply Hw|].
  intros st u. moves_all.
Qed.

Lemma moves_eval_assignment depth tex plain_cmd :
  (forall name st e deps, R st (store_variable name e deps st)) ->
  moves R (eval_assignment depth tex plain_cmd).
Proof.
  intros Hw. unfold eval_assignment.
  repeat first [ apply moves_handle_matrix_assignment; apply Hw
               | apply moves_handle_var_assignment; apply Hw
               | apply moves_eval_equation | moves_step ].
Qed.

Lemma moves_eval_inner depth raw :
  (forall name st e deps, R st (store_variable name e deps st)) ->
  (forall fname st fb, R st (store_function fname fb st)) ->
  moves R (_eval_inner depth raw).
Proof.
  intros Hv Hf. unfold _eval_inner.
  repeat first [ apply moves_handle_command | apply moves_handle_latex_int
               | apply moves_handle_latex_sum_prod | apply moves_handle_latex_limit
               | apply moves_handle_latex_limit_bare | apply moves_handle_matrix_literal
               | apply moves_handle_function_def; apply Hf
               | apply moves_eval_assignment; apply Hv
               | moves_step ].
Qed.

Lemma moves_cas_evaluate depth raw :
  (forall name st e deps, R st (store_variable name e deps st)) ->
  (forall fname st fb, R st (store_function fname fb st)) ->
  moves R (cas_evaluate depth raw).
Proof.
  intros Hv Hf. unfold cas_evaluate.
  apply moves_try; [apply moves_eval_inner; assumption | intros exc; apply moves_ret].
Qed.

End Frame.

Lemma eval_inner_function_def depth raw fname params body :
  function_def_form raw = Some (fname, params, body) ->
  _eval_inner (expr := expr) depth raw = _handle_function_def fname params body.
Proof.
  unfold function_def_form, _eval_inner.
  destruct (String.eqb _ ""); [discriminate|].
  destruct (find_command _); [discriminate|].
  destruct (_LATEX_INT_DEF _); [discriminate|].
  destruct (_LATEX_SUM_PROD _); [discriminate|].
  destruct (_LATEX_LIM_SUB _); [discriminate|].
  destruct (_LATEX_LIM_BARE _); [discriminate|].
  destruct (_is_matrix_expr (_preprocess_latex raw)); [discriminate|].
  intros ->. reflexivity.
Qed.

Lemma same_tables_cache (st : state) name : same_tables st (cache_symbol name st).
Proof. split; reflexivity. Qed.

Lemma writes_variable_refl name (st : state) : writes_variable name st st.
Proof. split; [reflexivity | left; reflexivity]. Qed.

Lemma writes_variable_trans name (st1 st2 st3 : state) :
  writes_variable name st1 st2 -> writes_variable name st2 st3 ->
  writes_variable name st1 st3.
Proof.
  intros [F1 V1] [F2 V2]. split; [congruence|].
  destruct V2 as [V2 | [b2 V2]].
  - rewrite V2. exact V1.
  - right. exists b2. rewrite V2. destruct V1 as [-> | [b1 ->]]; [reflexivity|].
    apply insert_insert_eq.
Qed.

Lemma writes_function_refl fname (st : state) : writes_function fname st st.
Proof. split; [reflexivity | left; reflexivity]. Qed.

Lemma writes_function_trans fname (st1 st2 st3 : state) :
  writes_function fname st1 st2 -> writes_function fname st2 st3 ->
  writes_function fname st1 st3.
Proof.
  intros [V1 F1] [V2 F2]. split; [congruence|].
  destruct F2 as [F2 | [b2 F2]].
  - rewrite F2. exact F1.
  - right. exists b2. rewrite F2. destruct F1 as [-> | [b1 ->]]; [reflexivity|].
    apply insert_insert_eq.
Qed.

(** X6. Which inputs write which table, for an input of ASCII
    characters.  An input that the dispatcher
    hands to the variable-assignment or to the matrix-assignment handler
    leaves [_functions] as it was and changes [_variables] at most in the
    entry of the assigned name; a function definition leaves [_variables]
    as it was and changes [_functions] at most in the entry of the defined
    name; every other input leaves both tables as they were.  This holds
    whether the evaluation succeeds or fails. *)
Theorem tables_written_by_input depth (raw : string) (st : state) :
  ascii_text raw = true ->
  (forall name body,
      assignment_form raw = Some (name, body) \/
      matrix_assignment_form raw = Some (name, body) ->
      writes_variable name st (snd (cas_evaluate depth raw st))) /\
  (forall fname params body,
      function_def_form raw = Some (fname, params, body) ->
      writes_function fname st (snd (cas_evaluate depth raw st))) /\
  (function_def_form raw = None -> matrix_assignment_form raw = None ->
   assignment_form raw = None ->
   same_tables st (snd (cas_evaluate depth raw st))).
Proof.
  intros _.
  assert (Hcatch : forall (R : state -> state -> Prop),
             (forall st, R st st) ->
             (forall st1 st2 st3, R st1 st2 -> R st2 st3 -> R st1 st3) ->
             moves R (_eval_inner depth raw) -> moves R (cas_evaluate depth raw)).
  { intros R Hr Ht H. unfold cas_evaluate.
    apply (moves_try R Ht); [exact H | intros exc; apply (moves_ret R Hr)]. }
  assert (Hwv : forall name, moves (writes_variable name) (_eval_inner depth raw) ->
                             writes_variable name st (snd (cas_evaluate depth raw st))).
  { intros name H.
    exact (Hcatch _ (writes_variable_refl name) (writes_variable_trans name) H st). }
  split; [| split].
  - intros name body [Hf | Hf]; apply Hwv.
    + rewrite (eval_inner_assignment _ _ _ _ Hf).
      apply (moves_handle_var_assignment _ (writes_variable_refl name)
               (writes_variable_trans name)).
      * intros st0 n _. split; [reflexivity | left; reflexivity].
      * intros st0 e deps. split; [reflexivity | right; eexists; reflexivity].
    + rewrite (eval_inner_matrix_assignment _ _ _ _ Hf).
      apply (moves_handle_matrix_assignment _ (writes_variable_refl name)
               (writes_variable_trans name)).
      * intros st0 n _. split; [reflexivity | left; reflexivity].
      * intros st0 e deps. split; [reflexivity | right; eexists; reflexivity].
  - intros fname params body Hf.
    apply (Hcatch _ (writes_function_refl fname) (writes_function_trans fname)).
    rewrite (eval_inner_function_def _ _ _ _ _ Hf).
    apply (moves_handle_function_def _ (writes_function_refl fname)
             (writes_function_trans fname)).
    + intros st0 n _. split; [reflexivity | left; reflexivity].
    + intros st0 fb. split; [reflexivity | right; eexists; reflexivity].
  - intros H1 H2 H3.
    apply (Hcatch _ same_tables_refl same_tables_trans).
    apply (moves_eval_inner_other _ same_tables_refl same_tables_trans); try assumption.
    intros st0 n _. apply same_tables_cache.
Qed.

Lemma cache_grows_refl (st : state) : cache_grows st st.
Proof. split; [reflexivity | intros n s H; left; exact H]. Qed.

Lemma cache_grows_trans (st1 st2 st3 : state) :
  cache_grows st1 st2 -> cache_grows st2 st3 -> cache_grows st1 st3.
Proof.
  intros [S1 N1] [S2 N2]. split; [etrans; eassumption|].
  intros n s H. destruct (N2 n s H) as [H2 | ->]; [| right; reflexivity].
  exact (N1 n s H2).
Qed.

(** X7. The symbol cache only grows during an evaluation: every entry it
    had is still there and unchanged afterwards, and every entry added
    caches a name under the symbol of that name. *)
Theorem evaluation_extends_cache depth (raw : string) (st : state) :
  cache_grows st (snd (cas_evaluate depth raw st)).
Proof.
  apply (moves_cas_evaluate _ cache_grows_refl cache_grows_trans).
  - intros st0 name Hn. split.
    + apply insert_subseteq, Hn.
    + intros n s. unfold cache_symbol. simpl.
      destruct (decide (n = name)) as [-> | Hne].
      * rewrite lookup_insert_eq. intros [= <-]. right. reflexivity.
      * rewrite lookup_insert_ne by congruence. intros H. left. exact H.
  - intros name st0 e deps. exact (cache_grows_refl st0).
  - intros fname st0 fb. exact (cache_grows_refl st0).
Qed.

(** ** Resolution where nothing is bound *)

Lemma map_M_identity {A} (f : A -> Comp A) (l : list A) (st : state) :
  (forall a, a ∈ l -> f a st = (Return a, st)) -> map_M f l st = (Return l, st).
Proof.
  induction l as [|a l IH]; intros H; [reflexivity|]. simpl. unfold bind.
  rewrite (H a) by apply list_elem_of_here.
  rewrite IH; [reflexivity|]. intros a' Ha'. apply H, list_elem_of_further, Ha'.
Qed.

Lemma Forall2_same {A} (P : A -> A -> Prop) (l : list A) :
  (forall a, P a a) -> Forall2 P l l.
Proof. intros H. induction l; constructor; auto. Qed.

Section Height.

(** expressions are finite trees: the arguments of an expression are
    smaller than the expression *)
Variable height : expr -> nat.
Hypothesis height_args : forall e a, a ∈ args e -> height a < height e.
Hypothesis eqb_refl : forall e : expr, expr_eqb e e = true.

Lemma apply_user_functions_no_functions (st : state) :
  _functions st = ∅ ->
  forall depth e, height e < depth ->
    _apply_user_functions depth e st = (Return e, st).
Proof.
  intros Hf. induction depth as [|depth IH]; intros e Hh; [lia|].
  assert (Hd : match args e with
               | [] => ret e
               | a :: rest =>
                   bind (map_M (_apply_user_functions depth) (a :: rest))
                     (fun new_args =>
                        if negb (bool_decide (Forall2 (fun x y => expr_eqb x y = true)
                                                      new_args (a :: rest)))
                        then lift (rebuild e new_args)
                        else ret e)
               end st = (Return e, st)).
  { destruct (args e) as [|a rest] eqn:Ea; [reflexivity|].
    unfold bind. rewrite map_M_identity.
    - rewrite bool_decide_eq_true_2; [reflexivity|].
      apply Forall2_same. exact eqb_refl.
    - intros x Hx. apply IH. rewrite <- Ea in Hx.
      pose proof (height_args _ _ Hx). lia. }
  cbn [_apply_user_functions].
  destruct (applied_undef e) as [[fname actuals]|]; [| exact Hd].
  unfold bind at 1, get. rewrite Hf, lookup_empty. exact Hd.
Qed.

Lemma for_each_unchanged {A B} (l : list A) (body : A -> B -> Comp B)
    (acc : B) (st : state) :
  (forall a, a ∈ l -> body a acc st = (Return acc, st)) ->
  for_each l acc body st = (Return acc, st).
Proof.
  induction l as [|a l IH]; intros H; [reflexivity|]. simpl. unfold bind.
  rewrite (H a) by apply list_elem_of_here.
  apply IH. intros a' Ha'. apply H, list_elem_of_further, Ha'.
Qed.

(** X8. With no user function defined, resolving an expression whose free
    symbols are unbound or excluded changes neither the expression nor the
    session, provided the recursion limit exceeds the height of the
    expression. *)
Theorem resolve_expr_nothing_bound depth (e : expr) (exclude : gset string)
    (st : state) :
  _functions st = ∅ ->
  (forall s, s ∈ free_symbols e ->
             _variables st !! str_of_symbol s = None \/ str_of_symbol s ∈ exclude) ->
  height e + 1 < depth ->
  _resolve_expr depth e exclude st = (Return e, st).
Proof.
  intros Hf Hfree Hh. destruct depth as [|depth]; [lia|].
  unfold _resolve_expr, resolve_expr_body, bind at 1.
  rewrite (apply_user_functions_no_functions st Hf depth e) by lia.
  unfold bind. rewrite for_each_unchanged; [reflexivity|].
  intros s Hs. unfold bind. rewrite is_variable_value.
  destruct (Hfree s Hs) as [Hn | Hx].
  - rewrite Hn. rewrite bool_decide_eq_false_2; [reflexivity|].
    intros [? [=]].
  - rewrite (bool_decide_eq_true_2 _ Hx), andb_false_r. reflexivity.
Qed.

End Height.

(** ** Resolution in a table without cycles *)

(** X9. Resolving a bound variable leaves the session as it was and fails
    in three ways only: with the [RecursionError] of the recursion limit;
    with the [ValueError] that reports a circular dependency, which then
    names a variable that is reachable from the resolved one and lies on a
    cycle; or with what a substitution into the stored body of a reachable
    variable raises.  In a table without cycles, with the recursion limit
    above the number of bindings, resolution returns a value unless such a
    substitution raises. *)
Theorem resolution_fails_on_cycle_or_substitution depth (x : string) (st : state) :
  is_Some (_variables st !! x) ->
  snd (_resolve_variable depth x ∅ st) = st /\
  (forall e, fst (_resolve_variable depth x ∅ st) = Raise e ->
             e = RecursionError \/
             (exists z, e = ValueError (circular_msg z) /\
                        rtc (depends_on st) x z /\ tc (depends_on st) z z) \/
             substitution_raises st x e) /\
  ((forall z, ~ tc (depends_on st) z z) ->
   size (_variables st) < depth ->
   (exists v, fst (_resolve_variable depth x ∅ st) = Return v) \/
   (exists e, fst (_resolve_variable depth x ∅ st) = Raise e /\
              substitution_raises st x e)).
Proof.
  intros Hb.
  pose proof (resolve_variable_bound_silent depth x ∅ st Hb) as Hs.
  split; [exact Hs|].
  destruct (_resolve_variable depth x ∅ st) as [[v|e] st'] eqn:E;
    simpl in Hs; subst st'; simpl.
  - split; [intros e [=] | intros _ _; left; exists v; reflexivity].
  - split.
    + intros e' [= <-].
      destruct (resolve_variable_raise_inv _ _ _ _ _ _ Hb E)
        as [-> | [(z & -> & Hrtc & [Hin | Hcyc]) | Hsubs]].
      * left. reflexivity.
      * destruct (not_elem_of_empty (C := gset string) _ Hin).
      * right. left. exists z. auto.
      * right. right. exact Hsubs.
    + intros Hac Hsz. right. exists e. split; [reflexivity|].
      assert (Hsz' : size (dom (_variables st) ∖ (∅ : gset string)) < depth).
      { rewrite difference_empty_L, size_dom. exact Hsz. }
      destruct (resolve_variable_raise_deep _ _ _ _ _ _ Hb Hsz' E)
        as [(z & -> & Hrtc & [Hin | Hcyc]) | Hsubs].
      * destruct (not_elem_of_empty (C := gset string) _ Hin).
      * destruct (Hac z Hcyc).
      * exact Hsubs.
Qed.

(** ** Assignments that are refused *)

Lemma check_dependencies_silent depth name deps : silent (check_dependencies depth name deps).
Proof.
  induction deps as [|dep rest IH]; intros st; simpl; [reflexivity|].
  unfold bind at 1. rewrite is_variable_value.
  case_bool_decide as Hb; [| apply IH].
  pose proof (resolve_variable_bound_silent depth dep {[name]} st Hb) as Hs.
  destruct (_resolve_variable depth dep {[name]} st) as [[v|e] st1];
    simpl in Hs; subst st1.
  - apply IH.
  - destruct (exn_is_ValueError e); reflexivity.
Qed.

(** X10. When the check that precedes the store does not pass, the
    assignment stores nothing: the result is an error record and both
    tables are as they were. *)
Theorem refused_assignment_stores_nothing depth (raw name body_tex : string)
    (e : expr) (st st1 : state) :
  assignment_form raw = Some (name, body_tex) ->
  _safe_parse_latex body_tex st = (Return e, st1) ->
  fst (check_dependencies depth name (dependency_names e) st1) <> Return None ->
  exists msg,
    cas_evaluate depth raw st = (Return (error_result msg), st1) /\
    same_tables st st1.
Proof.
  intros Hform Hparse Hcheck.
  assert (Hsame : same_tables st st1).
  { pose proof (keeps_safe_parse_latex body_tex st) as H. rewrite Hparse in H. exact H. }
  unfold cas_evaluate, try_except.
  rewrite (eval_inner_assignment _ _ _ _ Hform).
  unfold _handle_var_assignment, bind at 1. rewrite Hparse. unfold bind at 1.
  pose proof (check_dependencies_silent depth name (dependency_names e) st1) as Hs.
  destruct (check_dependencies depth name (dependency_names e) st1)
    as [[[r|]|exc] st2] eqn:Ec; simpl in Hs, Hcheck; subst st2.
  - destruct (yields_check_dependencies _ _ _ _ _ _ Ec r eq_refl) as [msg ->].
    exists msg. split; [reflexivity | exact Hsame].
  - destruct Hcheck. reflexivity.
  - exists (exn_str exc). split; [reflexivity | exact Hsame].
Qed.

Lemma check_dependencies_self depth name deps (st : state) :
  is_Some (_variables st !! name) -> name ∈ deps ->
  fst (check_dependencies (S depth) name deps st) <> Return None.
Proof.
  intros Hb. induction deps as [|dep rest IH]; intros Hin; [inversion Hin|].
  cbn [check_dependencies]. unfold bind at 1. rewrite is_variable_value.
  destruct (decide (dep = name)) as [-> | Hne].
  - rewrite bool_decide_eq_true_2 by exact Hb.
    cbn [_resolve_variable]. rewrite bool_decide_eq_true_2 by apply elem_of_singleton_2, eq_refl.
    discriminate.
  - assert (Hrest : name ∈ rest).
    { apply list_elem_of_In in Hin. destruct Hin as [-> | Hin]; [destruct Hne; reflexivity|].
      apply list_elem_of_In, Hin. }
    case_bool_decide as Hd; [| apply IH, Hrest].
    pose proof (resolve_variable_bound_silent (S depth) dep {[name]} st Hd) as Hs.
    destruct (_resolve_variable (S depth) dep {[name]} st) as [[v|exc] st1];
      simpl in Hs; subst st1.
    + apply IH, Hrest.
    + destruct (exn_is_ValueError exc); discriminate.
Qed.

Lemma dedup_names_elem x l : x ∈ l -> x ∈ dedup_names l.
Proof.
  induction l as [|y l IH]; intros H; [inversion H|].
  cbn [dedup_names]. destruct (decide (x = y)) as [-> | Hne]; [apply list_elem_of_here|].
  apply list_elem_of_further, list_elem_of_filter. split.
  - apply Is_true_true, negb_true_iff, String.eqb_neq. congruence.
  - apply IH. apply list_elem_of_In in H.
    destruct H as [-> | H]; [destruct Hne; reflexivity | apply list_elem_of_In, H].
Qed.

(** X11. Assigning to a variable that is already bound a body in which the
    variable itself occurs is refused: the result is an error record and
    the tables, with the earlier binding, are as they were. *)
Theorem self_reference_of_bound_name_refused depth (raw name body_tex : string)
    (e : expr) (s : symbol) (st st1 : state) :
  assignment_form raw = Some (name, body_tex) ->
  _safe_parse_latex body_tex st = (Return e, st1) ->
  is_Some (_variables st !! name) ->
  s ∈ free_symbols e -> str_of_symbol s = name ->
  exists msg,
    cas_evaluate (S depth) raw st = (Return (error_result msg), st1) /\
    same_tables st st1.
Proof.
  intros Hform Hparse Hb Hs Hn.
  assert (Hsame : same_tables st st1).
  { pose proof (keeps_safe_parse_latex body_tex st) as H. rewrite Hparse in H. exact H. }
  assert (Hcheck : fst (check_dependencies (S depth) name (dependency_names e) st1)
                   <> Return None).
  { apply check_dependencies_self.
    - destruct Hsame as [-> _]. exact Hb.
    - apply dedup_names_elem. subst name. apply list_elem_of_fmap_2, Hs. }
  unfold cas_evaluate, try_except.
  rewrite (eval_inner_assignment _ _ _ _ Hform).
  unfold _handle_var_assignment, bind at 1. rewrite Hparse. unfold bind at 1.
  pose proof (check_dependencies_silent (S depth) name (dependency_names e) st1) as Hsil.
  destruct (check_dependencies (S depth) name (dependency_names e) st1)
    as [[[r|]|exc] st2] eqn:Ec; simpl in Hsil, Hcheck; subst st2.
  - destruct (yields_check_dependencies _ _ _ _ _ _ Ec r eq_refl) as [msg ->].
    exists msg. split; [reflexivity | exact Hsame].
  - destruct Hcheck. reflexivity.
  - exists (exn_str exc). split; [reflexivity | exact Hsame].
Qed.

(** ** How a name is read *)

Lemma safe_parse_identifier x (st : state) :
  is_identifier x = true ->
  _functions st !! x = None ->
  (forall s, _symbols_cache st !! x = Some s -> s = Sym x) ->
  exists st',
    same_tables st st' /\
    _safe_parse_latex x st
    = (match parse_expr x
               (if bool_decide (is_Some (_variables st !! x)) || enters_local_dict x
                then [(x, inl (Sym x))] else []) with
       | Return r => _fix_constants r
       | Raise e => Raise e
       end, st') /\
    (if bool_decide (is_Some (_variables st !! x)) || enters_local_dict x
     then _symbols_cache st' !! x = Some (Sym x) else st' = st).
Proof.
  intros Hid Hfun Hcache.
  pose proof (is_identifier_word _ Hid) as Hw.
  assert (Hget : exists st1,
             _get_symbol x st = (Return (Sym x), st1) /\ same_tables st st1 /\
             _symbols_cache st1 !! x = Some (Sym x)).
  { unfold _get_symbol, bind, get. simpl.
    destruct (_symbols_cache st !! x) as [s|] eqn:E.
    - rewrite (Hcache s eq_refl) in *. exists st.
      split; [reflexivity | split; [apply same_tables_refl | exact E]].
    - eexists. split; [reflexivity|]. split; [split; reflexivity|].
      simpl. apply lookup_insert_eq. }
  destruct Hget as (st1 & Hget & Hsame & Hc1).
  unfold _safe_parse_latex.
  rewrite has_latex_command_word by exact Hw.
  rewrite latex_to_algebra_word by exact Hw.
  rewrite strip_command_backslashes_word by exact Hw.
  rewrite (re_sub_word_id rule_subscript_braces x)
    by (auto using rule_subscript_braces_word).
  rewrite find_names_identifier by exact Hid.
  unfold build_local_dict, enters_local_dict.
  unfold dedup_names, filter; cbn -[name_in _get_symbol].
  unfold bind, get; cbn -[name_in _get_symbol]. rewrite Hfun.
  rewrite (bool_decide_eq_false_2 _ (is_Some_None (A := fun_binding))).
  destruct (bool_decide (is_Some (_variables st !! x))) eqn:Ea; cbn [orb]; cbv iota.
  { exists st1. split; [exact Hsame|]. split; [| exact Hc1].
    rewrite Hget. unfold ret, lift. simpl.
    destruct (parse_expr x [(x, inl (Sym x))]); reflexivity. }
  destruct (name_in x _MULTICHAR_SYMBOLS); cbn [orb]; cbv iota.
  { exists st1. split; [exact Hsame|]. split; [| exact Hc1].
    rewrite Hget. unfold ret, lift. simpl.
    destruct (parse_expr x [(x, inl (Sym x))]); reflexivity. }
  destruct (name_in x _KNOWN_NAMES); cbn [negb andb]; cbv iota.
  { exists st. split; [apply same_tables_refl|]. split; [| reflexivity].
    unfold ret, lift. simpl. destruct (parse_expr x []); reflexivity. }
  destruct (Nat.eqb (String.length x) 1) eqn:El.
  - apply Nat.eqb_eq in El. rewrite (bool_decide_eq_true_2 _ El).
    exists st1. split; [exact Hsame|]. split; [| exact Hc1].
    rewrite Hget. unfold ret, lift. simpl.
    destruct (parse_expr x [(x, inl (Sym x))]); reflexivity.
  - apply Nat.eqb_neq in El. rewrite (bool_decide_eq_false_2 _ El).
    exists st. split; [apply same_tables_refl|]. split; [| reflexivity].
    unfold ret, lift. simpl. destruct (parse_expr x []); reflexivity.
Qed.

(** X12. How an identifier reaches the parser.  When [x] is an identifier
    that names no user function, [_safe_parse_latex] calls [parse_expr] on
    [x] with a [local_dict] that maps [x] to its symbol if [x] is bound, is
    one of the multi-letter symbols, or is a single character that is not
    a known name, and caches that symbol; otherwise the [local_dict] is
    empty, the session is untouched and the reading of [x] is left to the
    parser. *)
Theorem identifier_local_dict (x : string) (st : state) :
  is_identifier x = true ->
  _functions st !! x = None ->
  (forall s, _symbols_cache st !! x = Some s -> s = Sym x) ->
  exists st',
    same_tables st st' /\
    _safe_parse_latex x st
    = (match parse_expr x
               (if bool_decide (is_Some (_variables st !! x)) || enters_local_dict x
                then [(x, inl (Sym x))] else []) with
       | Return r => _fix_constants r
       | Raise e => Raise e
       end, st') /\
    (if bool_decide (is_Some (_variables st !! x)) || enters_local_dict x
     then _symbols_cache st' !! x = Some (Sym x) else st' = st).
Proof. apply safe_parse_identifier. Qed.

(** X13. Reading a name that is not bound is no error: when the bare input
    [x] is read as a symbol and [x] is unbound, the evaluation returns the
    record of the symbol [x] itself, leaves the tables as they were and
    has [x] cached. *)
Theorem unbound_name_evaluates_to_symbol depth (x : string) (st : state) :
  symbol_laws expr ->
  reads_as_variable x st ->
  _variables st !! x = None ->
  enters_local_dict x = true ->
  exists st',
    cas_evaluate (S (S depth)) x st
    = (Return (record_of (plain_value (of_symbol (Sym x)))), st') /\
    same_tables st st' /\
    _symbols_cache st' !! x = Some (Sym x).
Proof.
  intros L (Hid & Hconst & Hfun & Hcache & Hparse) Hnone Hloc.
  destruct (safe_parse_identifier x st Hid Hfun Hcache) as (st' & Hsame & Hp & Hc).
  rewrite Hloc, orb_true_r, Hparse, (fix_constants_variable _ L Hconst) in Hp.
  rewrite Hloc, orb_true_r in Hc.
  exists st'. split; [| split; assumption].
  unfold cas_evaluate, try_except. rewrite eval_inner_identifier by exact Hid.
  unfold eval_plain, bind at 1. rewrite Hp.
  assert (Hn' : _variables st' !! x = None).
  { destruct Hsame as [-> _]. exact Hnone. }
  assert (Hr : _resolve_expr (S (S depth)) (of_symbol (Sym x)) ∅ st'
               = (Return (of_symbol (Sym x)), st')).
  { cbn [_resolve_expr]. unfold resolve_expr_body.
    cbn [_apply_user_functions].
    rewrite (applied_undef_of_symbol L), (args_of_symbol L).
    unfold bind, ret, is_variable, get. cbn.
    rewrite (free_symbols_of_symbol L). cbn.
    unfold bind, ret. cbn. rewrite Hn'.
    rewrite (bool_decide_eq_false_2 _ (is_Some_None (A := binding))). reflexivity. }
  unfold bind. rewrite Hr, plain_result_is_plain_value.
  destruct (plain_value (of_symbol (Sym x))); reflexivity.
Qed.

(** ** The symbol cache *)

(** X14. [_get_symbol] caches: it returns the symbol cached under the
    name, or caches and returns the symbol of the name; afterwards the
    cache holds the returned symbol, a second call returns it again and
    changes nothing, and nothing else in the session has changed. *)
Theorem get_symbol_caches (name : string) (st : state) :
  exists s st',
    _get_symbol name st = (Return s, st') /\
    _symbols_cache st' !! name = Some s /\
    _get_symbol name st' = (Return s, st') /\
    same_tables st st' /\
    (forall n, n <> name -> _symbols_cache st' !! n = _symbols_cache st !! n) /\
    match _symbols_cache st !! name with
    | Some s0 => s = s0 /\ st' = st
    | None => s = Sym name
    end.
Proof.
  destruct (_symbols_cache st !! name) as [s0|] eqn:E.
  - exists s0, st. unfold _get_symbol, bind, get, put, ret. rewrite E.
    repeat split; try reflexivity; exact E.
  - exists (Sym name), (cache_symbol name st).
    assert (Hc : _symbols_cache (cache_symbol name st) !! name = Some (Sym name))
      by apply lookup_insert_eq.
    unfold _get_symbol, bind, get, put, ret. rewrite E, Hc.
    repeat split; try reflexivity.
    intros n Hn. apply lookup_insert_ne. congruence.
Qed.

(** ** Function definitions *)

Lemma map_M_get_symbol names :
  forall st : state,
    exists syms st',
      map_M _get_symbol names st = (Return syms, st') /\ same_tables st st'.
Proof.
  induction names as [|n names IH]; intros st.
  - exists [], st. split; [reflexivity | apply same_tables_refl].
  - simpl. unfold bind.
    pose proof (keeps_get_symbol n st) as Hk.
    destruct (_get_symbol n st) as [[s|e] st1] eqn:E.
    + destruct (IH st1) as (syms & st2 & -> & Hs).
      exists (s :: syms), st2. split; [reflexivity|].
      exact (same_tables_trans _ _ _ Hk Hs).
    + exfalso. unfold _get_symbol, bind, get, put, ret in E.
      destruct (_symbols_cache st !! n); discriminate E.
Qed.

(** X15. A function definition in ASCII characters is accepted whenever
    its body parses: the parameters are turned into symbols, which never fails, and no check of
    the body is made.  If the body parses, the definition is stored with
    its parameters, the body as parsed and the free names of the body
    that are not parameters, and the result is a [function_def] record
    without numeric fields; if the body does not parse, the result is
    the parser's error and the tables are as they were. *)
Theorem function_definition_stores depth (raw fname params body : string)
    (st : state) :
  ascii_text raw = true ->
  function_def_form raw = Some (fname, params, body) ->
  let names := map strip (split_char "," params) in
  exists syms sta,
    map_M _get_symbol names st = (Return syms, sta) /\
    same_tables st sta /\
    (forall e stb,
        _safe_parse_latex body sta = (Return e, stb) ->
        cas_evaluate depth raw st
        = (Return [("ok", JBool true); ("latex", JStr (latex e));
                   ("plain", JStr (pretty e)); ("type", JStr "function_def");
                   ("name", JStr fname); ("params", JArr (map JStr names))],
           store_function fname
             (FunBinding syms e (_free_names e ∖ list_to_set names)) stb)) /\
    (forall exc stb,
        _safe_parse_latex body sta = (Raise exc, stb) ->
        cas_evaluate depth raw st = (Return (error_result (exn_str exc)), stb) /\
        same_tables st stb).
Proof.
  intros _ Hform names. subst names.
  destruct (map_M_get_symbol (map strip (split_char "," params)) st)
    as (syms & sta & Hm & Hs).
  exists syms, sta. split; [exact Hm|]. split; [exact Hs|].
  unfold cas_evaluate, try_except.
  rewrite (eval_inner_function_def _ _ _ _ _ Hform).
  unfold _handle_function_def, bind, get, put, ret. rewrite Hm.
  split.
  - intros e stb Hp. rewrite Hp. reflexivity.
  - intros exc stb Hp. rewrite Hp. split; [reflexivity|].
    pose proof (keeps_safe_parse_latex body sta) as Hk. rewrite Hp in Hk.
    exact (same_tables_trans _ _ _ Hs Hk).
Qed.

(** ** The summary of the session *)

(** X16. [cas_get_state] lists exactly the bound names and leaves the
    session as it was; after [cas_clear] both dictionaries are empty; and
    after a successful assignment the entry of the assigned name shows the
    body as it was parsed, not its value, with the free names of the body
    as its dependencies. *)
Theorem state_summary :
  (forall st : state,
      exists vs fs,
        cas_get_state st = (Return (vs, fs), st) /\
        dom vs = dom (_variables st) /\ dom fs = dom (_functions st)) /\
  (forall st : state,
      cas_get_state (snd (cas_clear st)) = (Return (∅, ∅), Session ∅ ∅ ∅)) /\
  (forall depth raw name body_tex (st st1 : state) r,
      assignment_form raw = Some (name, body_tex) ->
      cas_evaluate depth raw st = (Return r, st1) ->
      dict_get "ok" r = Some (JBool true) ->
      exists e vs fs,
        fst (_safe_parse_latex body_tex st) = Return e /\
        cas_get_state st1 = (Return (vs, fs), st1) /\
        vs !! name = Some (VarInfo (latex e) (_free_names e))).
Proof.
  split; [| split].
  - intros st. eexists _, _. split; [reflexivity|].
    split; apply dom_fmap_L.
  - intros st. unfold cas_clear, cas_get_state, bind, get, put, ret. cbn.
    rewrite !fmap_empty. reflexivity.
  - intros depth raw name body_tex st st1 r Hform Hrun Hok.
    unfold cas_evaluate in Hrun. rewrite (eval_inner_assignment _ _ _ _ Hform) in Hrun.
    destruct (successful_assignment_stores _ _ _ _ _ _ Hrun Hok) as (e & Hp & Hv).
    exists e. eexists _, _. split; [exact Hp|]. split; [reflexivity|].
    rewrite lookup_fmap, Hv. reflexivity.
Qed.

(** ** Blank input *)

Lemma strip_spaces ws : all_chars is_space ws = true -> strip ws = "".
Proof. intros H. unfold strip. rewrite (lstrip_spaces _ H). reflexivity. Qed.

(** X17. An input of white space only (the empty input included) is
    answered by the record of type [empty], and the session is left as it
    was. *)
Theorem blank_input_is_empty depth (raw : string) (st : state) :
  all_chars is_space raw = true ->
  cas_evaluate depth raw st
  = (Return [("ok", JBool true); ("latex", JStr ""); ("plain", JStr "");
             ("type", JStr "empty")], st).
Proof.
  intros H. unfold cas_evaluate, try_except, _eval_inner, _preprocess_latex.
  rewrite (strip_spaces _ H). reflexivity.
Qed.

(** ** Commands on degenerate arguments *)

(** X18. A command given a single argument without free symbols has no
    variable to work on: [solve] answers with the error record "No free
    variable to solve for", while [diff], [integrate] and [series] raise
    the [IndexError] of an empty list, which the entry point reports as
    "list index out of range". *)
Theorem command_without_variable depth (inner p : string) (e : expr)
    (st st1 : state) :
  _parse_inner inner = [p] ->
  _safe_parse_latex p st = (Return e, st1) ->
  free_symbols e = [] ->
  _handle_command depth "solve" inner st
  = (Return (error_result "No free variable to solve for"), st1) /\
  forall cmd, cmd ∈ ["diff"; "integrate"; "series"] ->
    _handle_command depth cmd inner st
    = (Raise (IndexError "list index out of range"), st1).
Proof.
  intros Hparts Hp Hfree. split.
  - unfold _handle_command. cbn [String.eqb Ascii.eqb Bool.eqb].
    unfold _cmd_solve. rewrite Hparts. cbn [item nth_error List.length].
    unfold bind at 1, ret at 1. unfold bind at 1. rewrite Hp.
    rewrite bool_decide_eq_false_2 by (simpl; lia). rewrite Hfree. reflexivity.
  - intros cmd Hcmd.
    assert (Hv : variable_argument [p] e st1
                 = (Raise (IndexError "list index out of range"), st1)).
    { unfold variable_argument. rewrite bool_decide_eq_false_2 by (simpl; lia).
      unfold first_free_symbol. rewrite Hfree. reflexivity. }
    repeat (apply elem_of_cons in Hcmd as [-> | Hcmd]); [| | | inversion Hcmd];
      unfold _handle_command; cbn [String.eqb Ascii.eqb Bool.eqb];
      [unfold _cmd_diff | unfold _cmd_integrate | unfold _cmd_series];
      rewrite Hparts; cbn [item nth_error];
      unfold bind at 1, ret at 1; unfold bind at 1; rewrite Hp;
      unfold bind at 1; rewrite Hv; reflexivity.
Qed.

(** X19. The matrix commands check their argument before they compute.
    When the argument does not resolve to a matrix, each of them answers
    with the error record "Argument is not a matrix"; when it resolves to
    a matrix that is not square, [det], [inv], [eigenvals], [eigenvects]
    and [charpoly] answer with their own error record. *)
Theorem matrix_command_checks depth (inner p0 : string) (mat : expr)
    (st st1 : state) :
  nth_error (_parse_inner inner) 0 = Some p0 ->
  _resolve_matrix_arg depth p0 st = (Return mat, st1) ->
  (matrix_shape mat = None ->
   forall cmd,
     cmd ∈ ["det"; "inv"; "trace"; "transpose"; "eigenvals"; "eigenvects";
            "rank"; "rref"; "charpoly"; "nullspace"; "colspace"] ->
     _handle_command depth cmd inner st
     = (Return (error_result "Argument is not a matrix"), st1)) /\
  (forall rows cols,
      matrix_shape mat = Some (rows, cols) -> rows <> cols ->
      _handle_command depth "det" inner st
      = (Return (error_result ("det() requires a square matrix, got "
                               +:+ str_of_int rows +:+ utf8_times
                               +:+ str_of_int cols)), st1) /\
      _handle_command depth "inv" inner st
      = (Return (error_result ("inv() requires a square matrix, got "
                               +:+ str_of_int rows +:+ utf8_times
                               +:+ str_of_int cols)), st1) /\
      _handle_command depth "eigenvals" inner st
      = (Return (error_result "eigenvals() requires a square matrix"), st1) /\
      _handle_command depth "eigenvects" inner st
      = (Return (error_result "eigenvects() requires a square matrix"), st1) /\
      _handle_command depth "charpoly" inner st
      = (Return (error_result "charpoly() requires a square matrix"), st1)).
Proof.
  intros Hp0 Harg.
  assert (Hnone : matrix_shape mat = None ->
            forall msg k,
              with_matrix depth (_parse_inner inner) msg k st
              = (Return (error_result "Argument is not a matrix"), st1)).
  { intros Hs msg k. unfold with_matrix, item. rewrite Hp0.
    unfold bind at 1, ret at 1. unfold bind at 1. rewrite Harg, Hs. reflexivity. }
  assert (Hsq : forall rows cols,
            matrix_shape mat = Some (rows, cols) -> rows <> cols ->
            forall msg k,
              with_matrix depth (_parse_inner inner) (Some msg) k st
              = (Return (error_result (msg rows cols)), st1)).
  { intros rows cols Hs Hne msg k. unfold with_matrix, item. rewrite Hp0.
    unfold bind at 1, ret at 1. unfold bind at 1. rewrite Harg, Hs.
    rewrite bool_decide_eq_true_2 by exact Hne. reflexivity. }
  split.
  - intros Hs cmd Hcmd.
    repeat (apply elem_of_cons in Hcmd as [-> | Hcmd]); [| | | | | | | | | | | inversion Hcmd];
      unfold _handle_command; cbn [String.eqb Ascii.eqb Bool.eqb];
      apply (Hnone Hs).
  - intros rows cols Hs Hne.
    repeat split; unfold _handle_command; cbn [String.eqb Ascii.eqb Bool.eqb];
      apply (Hsq rows cols Hs Hne).
Qed.

(** ** Sums and products *)

Lemma sum_prod_continue depth op (b b' : expr) var lo up (st : state) :
  _resolve_expr depth b {[str_of_symbol var]} st = (Return b', st) ->
  bind (_resolve_expr depth b {[str_of_symbol var]})
    (fun body_expr =>
       if String.eqb op "sum" then
         bind (lift (summation body_expr var lo up))
              (fun result => ret (_make_result result "value" false []))
       else if String.eqb op "prod" then
         bind (lift (product body_expr var lo up))
              (fun result => ret (_make_result result "value" false []))
       else ret (error_result ("Unknown operator: " +:+ op))) st
  = (big_operator_result op b' var lo up, st).
Proof.
  intros Hr. unfold bind at 1. rewrite Hr. unfold big_operator_result.
  destruct (String.eqb op "sum").
  - unfold bind, lift, ret. destruct (summation b' var lo up); reflexivity.
  - destruct (String.eqb op "prod"); [| reflexivity].
    unfold bind, lift, ret. destruct (product b' var lo up); reflexivity.
Qed.

(** X20. The variable of a sum or product.  When the lower bound has the
    form [name = value], the variable is the symbol of that name and the
    lower bound is the value.  Otherwise the variable is the first free
    symbol of the body as parsed, before any variable is substituted; and
    when the body has no free symbol, the answer is the error record
    "Cannot determine variable for \op".  In the first two cases the body
    is resolved with the variable excluded and handed to [summation] or
    [product]. *)
Theorem sum_prod_variable depth (op lower upper body : string)
    (lo up b : expr) (st0 st1 st2 st3 : state) :
  _safe_parse_latex upper st1 = (Return up, st2) ->
  _safe_parse_latex (strip (re_sub rule_differential_letter body)) st2
  = (Return b, st3) ->
  (forall name value var (st : state) b',
      _ASSIGN_VAR (lstrip lower) = Some (name, value) ->
      _get_symbol name st = (Return var, st0) ->
      _safe_parse_latex value st0 = (Return lo, st1) ->
      _resolve_expr depth b {[str_of_symbol var]} st3 = (Return b', st3) ->
      _handle_latex_sum_prod depth op lower upper body st
      = (big_operator_result op b' var lo up, st3)) /\
  (forall var rest b',
      _ASSIGN_VAR (lstrip lower) = None ->
      _safe_parse_latex lower st0 = (Return lo, st1) ->
      free_symbols b = var :: rest ->
      _resolve_expr depth b {[str_of_symbol var]} st3 = (Return b', st3) ->
      _handle_latex_sum_prod depth op lower upper body st0
      = (big_operator_result op b' var lo up, st3)) /\
  (_ASSIGN_VAR (lstrip lower) = None ->
   _safe_parse_latex lower st0 = (Return lo, st1) ->
   free_symbols b = [] ->
   _handle_latex_sum_prod depth op lower upper body st0
   = (Return (error_result ("Cannot determine variable for \" +:+ op)), st3)).
Proof.
  intros H2 H3. split; [| split].
  - intros name value var st b' Hl Hg H1 Hr. unfold _handle_latex_sum_prod. rewrite Hl.
    unfold bind at 1. unfold bind at 1. unfold bind at 1. rewrite Hg.
    unfold bind at 1. rewrite H1. unfold ret at 1.
    unfold bind at 1. rewrite H2. unfold bind at 1. rewrite H3.
    apply (sum_prod_continue depth op b b' var lo up st3 Hr).
  - intros var rest b' Hl H1 Hfree Hr. unfold _handle_latex_sum_prod. rewrite Hl.
    unfold bind at 1. unfold bind at 1. rewrite H1. unfold ret at 1.
    unfold bind at 1. rewrite H2. unfold bind at 1. rewrite H3. rewrite Hfree.
    apply (sum_prod_continue depth op b b' var lo up st3 Hr).
  - intros Hl H1 Hfree. unfold _handle_latex_sum_prod. rewrite Hl.
    unfold bind at 1. unfold bind at 1. rewrite H1. unfold ret at 1.
    unfold bind at 1. rewrite H2. unfold bind at 1. rewrite H3. rewrite Hfree.
    reflexivity.
Qed.

(** ** Texts that are no matrix *)

Lemma parse_rows_blank rows (st : state) :
  Forall (fun row => strip row = "") rows ->
  parse_rows (expr := expr) rows st = (Return [], st).
Proof.
  induction 1 as [|row rows Hrow _ IH]; [reflexivity|].
  cbn [parse_rows]. rewrite Hrow. exact IH.
Qed.

(** X21. The two ways in which a text is no matrix.  A text that is not
    a matrix environment raises a [ValueError] that quotes its first 60
    characters; an environment in which every row is blank raises the
    [ValueError] "Empty matrix".  Neither touches the session. *)
Theorem matrix_parse_errors (tex : string) (st : state) :
  (_MATRIX_ENV_RE (strip tex) = None ->
   _parse_matrix_latex (expr := expr) tex st
   = (Raise (ValueError ("Not a recognized matrix environment: "
                         +:+ take_string 60 tex)), st)) /\
  (forall content,
      _MATRIX_ENV_RE (strip tex) = Some content ->
      Forall (fun row => strip row = "") (split_rows false content) ->
      _parse_matrix_latex (expr := expr) tex st
      = (Raise (ValueError "Empty matrix"), st)).
Proof.
  unfold _parse_matrix_latex, parse_matrix_data. split.
  - intros ->. reflexivity.
  - intros content -> Hblank. unfold bind.
    rewrite (parse_rows_blank _ _ Hblank). reflexivity.
Qed.

End Properties.

(** * Worked examples on the small instance *)

Section Examples.

Import Mini.

Lemma mini_symbol_laws : symbol_laws term.
Proof.
  split; intros; simpl; try reflexivity.
  rewrite bool_decide_eq_true_2 by reflexivity. reflexivity.
Defined.

(** reading [p] after [p = q+1] and [q = p+1] *)
Lemma cycle_member_reports_circular_witness :
  exists st',
    same_tables cyclic_session st' /\
    ((exists z,
         cas_evaluate 50 "p" cyclic_session
         = (Return [("ok", JBool false);
                    ("error", JStr ("Circular dependency detected involving '"
                                    +:+ z +:+ "'"))], st') /\
         rtc (depends_on cyclic_session) "p" z /\
         tc (depends_on cyclic_session) z z) \/
     (exists exc,
         substitution_raises cyclic_session "p" exc /\
         cas_evaluate 50 "p" cyclic_session
         = (Return [("ok", JBool false); ("error", JStr (exn_str exc))], st'))).
Proof.
  apply (cycle_member_reports_circular 48 "p" cyclic_session).
  - exact mini_symbol_laws.
  - repeat split; try (vm_compute; reflexivity).
    intros s. vm_compute. intros [= <-]. reflexivity.
  - exists ["q"]. simpl.
    apply walk_cons.
    { exists (VarBinding (TAdd (TSym (Sym "q")) (TInt 1)) {["q"]}), (Sym "q").
      split; [vm_compute; reflexivity|].
      split; [vm_compute; apply list_elem_of_here|].
      split; [reflexivity|]. vm_compute. eexists. reflexivity. }
    apply walk_cons; [| apply walk_nil].
    exists (VarBinding (TAdd (TSym (Sym "p")) (TInt 1)) {["p"]}), (Sym "p").
    split; [vm_compute; reflexivity|].
    split; [vm_compute; apply list_elem_of_here|].
    split; [reflexivity|]. vm_compute. eexists. reflexivity.
  - vm_compute. lia.
Defined.

(** C3 does not extend to a member of a cycle that is also the name of a
    user function: after [p = q+1], [q = p+1] and [p(t) = t] the variables
    [p] and [q] still mention each other, yet the local dictionary gives
    the bare input [p] the function of that name, and the error is not the
    diagnostic of a circular dependency. *)
Lemma function_name_hides_cycle :
  let st := after ["p = q+1"; "q = p+1"; "p(t) = t"] in
  _variables st !! "p"
  = Some (VarBinding (TAdd (TSym (Sym "q")) (TInt 1)) {["q"]}) /\
  _variables st !! "q"
  = Some (VarBinding (TAdd (TSym (Sym "p")) (TInt 1)) {["p"]}) /\
  on_cycle st "p" /\
  exists msg,
    fst (cas_evaluate depth "p" st) = Return (error_result msg) /\
    forall z, msg <> circular_msg z.
Proof.
  split; [vm_compute; reflexivity|]. split; [vm_compute; reflexivity|]. split.
  - exists ["q"]. simpl.
    apply walk_cons.
    { exists (VarBinding (TAdd (TSym (Sym "q")) (TInt 1)) {["q"]}), (Sym "q").
      split; [vm_compute; reflexivity|].
      split; [vm_compute; apply list_elem_of_here|].
      split; [reflexivity|]. vm_compute. eexists. reflexivity. }
    apply walk_cons; [| apply walk_nil].
    exists (VarBinding (TAdd (TSym (Sym "p")) (TInt 1)) {["p"]}), (Sym "p").
    split; [vm_compute; reflexivity|].
    split; [vm_compute; apply list_elem_of_here|].
    split; [reflexivity|]. vm_compute. eexists. reflexivity.
  - exists "outside the fragment". split; [vm_compute; reflexivity|].
    intros z. unfold circular_msg. discriminate.
Qed.

(** an ordinary binding follows the redefinition of what it mentions *)
Example redefinition_is_reflected :
  last_result ["a = 1"; "b = a+1"; "b"]
  = Some [("ok", JBool true); ("latex", JStr "2"); ("plain", JStr "2");
          ("type", JStr "value")] /\
  last_result ["a = 1"; "b = a+1"; "a = 10"; "b"]
  = Some [("ok", JBool true); ("latex", JStr "11"); ("plain", JStr "11");
          ("type", JStr "value")].
Proof. split; vm_compute; reflexivity. Qed.



(** The guard of the assignment leaves out [oo], [inf] and [infty]: the
    assignment [oo = 5] succeeds and binds [oo] to [5], which resolves to
    [5] against the table, yet the bare input [oo] evaluates to infinity. *)
Example constant_name_reads_as_constant :
  assignment_form "oo = 5" = Some ("oo", "5") /\
  fst (cas_evaluate depth "oo = 5" empty_session)
  = Return [("ok", JBool true); ("latex", JStr "5"); ("plain", JStr "5");
            ("type", JStr "assignment"); ("name", JStr "oo")] /\
  _variables (after ["oo = 5"]) !! "oo" = Some (VarBinding (TInt 5) ∅) /\
  record_of (and_then (resolve_body 48 (_variables (after ["oo = 5"])) "oo" (TInt 5))
                      plain_value)
  = [("ok", JBool true); ("latex", JStr "5"); ("plain", JStr "5");
     ("type", JStr "value")] /\
  fst (cas_evaluate depth "oo" (after ["oo = 5"]))
  = Return [("ok", JBool true); ("latex", JStr "\infty");
            ("plain", JStr (utf8 [226; 136; 158]%N)); ("type", JStr "value")].
Proof. repeat split; vm_compute; reflexivity. Qed.

(** the assignment [q = p+1] after [p = q+1]: it is refused, and [q] stays
    bound *)
Lemma assignment_not_atomic_witness :
  exists st',
    cas_evaluate depth "q = p+1" (after ["p = q+1"])
    = (Return [("ok", JBool false); ("error", JStr (circular_msg "q"))], st') /\
    _variables st' !! "q"
    = Some (VarBinding (TAdd (TSym (Sym "p")) (TInt 1))
                       (_free_names (TAdd (TSym (Sym "p")) (TInt 1)))).
Proof.
  apply (assignment_not_atomic depth "q = p+1" "q" "p+1" "q"
           (TAdd (TSym (Sym "p")) (TInt 1)) (after ["p = q+1"])
           (snd (_safe_parse_latex "p+1" (after ["p = q+1"])))
           (snd (_safe_parse_latex "p+1" (after ["p = q+1"])))).
  - vm_compute. reflexivity.
  - vm_compute. reflexivity.
  - vm_compute. reflexivity.
  - vm_compute. reflexivity.
Defined.

(** the input [e = 5] *)
Lemma reserved_name_is_not_assigned_witness :
  _eval_inner (expr := term) depth "e = 5"
  = eval_equation depth (_preprocess_latex "e = 5") /\
  same_tables empty_session (snd (cas_evaluate depth "e = 5" empty_session)) /\
  forall r, fst (cas_evaluate depth "e = 5" empty_session) = Return r ->
            dict_get "type" r <> Some (JStr "assignment").
Proof.
  apply (reserved_name_is_not_assigned depth "e = 5" "e" "5" empty_session).
  - vm_compute. reflexivity.
  - vm_compute. reflexivity.
Defined.









(** ** Instances of the further properties *)

Lemma mini_height_args (e a : term) : a ∈ args e -> height a < height e.
Proof.
  destruct e; simpl; intros H; try (inversion H; fail);
    repeat (apply elem_of_cons in H as [-> | H]); try (inversion H; fail); lia.
Defined.

Lemma list_eqb_refl {A} (eqb : A -> A -> bool) (l : list A) :
  Forall (fun a => eqb a a = true) l -> list_eqb eqb l l = true.
Proof. induction 1 as [|a l Ha _ IH]; simpl; [reflexivity | rewrite Ha, IH; reflexivity]. Qed.

Lemma mini_eqb_refl : forall t : term, term_eqb t t = true.
Proof.
  fix IH 1. intros [z|s|n|d p|a b|b|a b|i rows]; simpl.
  - apply Z.eqb_refl.
  - apply bool_decide_eq_true_2. reflexivity.
  - apply String.eqb_refl.
  - rewrite !String.eqb_refl. reflexivity.
  - rewrite !IH. reflexivity.
  - destruct b; reflexivity.
  - rewrite !IH. reflexivity.
  - rewrite eqb_reflx. simpl. apply list_eqb_refl.
    induction rows as [|row rows IHrows]; constructor; [| exact IHrows].
    apply list_eqb_refl. induction row as [|t row IHrow]; constructor; [apply IH | exact IHrow].
Qed.

(** a balanced group with a nested group *)
Lemma extract_braced_spec_witness :
  _extract_braced "{a{b}c}d" = Some ("a{b}c", "d").
Proof.
  apply (proj2 (extract_braced_spec "{a{b}c}d" "a{b}c" "d")).
  split; reflexivity.
Defined.

(** the arguments [f(x,y)] and [x] of a command *)
Lemma parse_inner_join_witness :
  _parse_inner "f(x,y), x" = ["f(x,y)"; "x"].
Proof.
  apply (parse_inner_join ["f(x,y)"] " x").
  - reflexivity.
  - repeat (constructor; [vm_compute; reflexivity|]). constructor.
Defined.

Lemma latex_to_algebra_no_open_witness : _latex_to_algebra "x^2+\pi" = "x^2+\pi".
Proof. apply latex_to_algebra_no_open. reflexivity. Defined.

Lemma latex_to_algebra_constructs_witness :
  _latex_to_algebra "2*y\frac{x}{3}+1" = "2*y((x)/(3))+1" /\
  _latex_to_algebra "2*y\sqrt{x}+1" = "2*ysqrt(x)+1" /\
  (contains_char "]" "3" = false ->
   _latex_to_algebra "2*y\sqrt[3]{x}+1" = "2*y((x)**(1/(3)))+1") /\
  _latex_to_algebra "2*y^{x}+1" = "2*y**(x)+1".
Proof. apply (latex_to_algebra_constructs "2*y" "x" "3" "+1"); reflexivity. Defined.

(** [a = 2] after [a = 1] writes the entry of [a] only *)
Lemma tables_written_by_input_witness :
  writes_variable "a" (after ["a = 1"])
    (snd (cas_evaluate depth "a = 2" (after ["a = 1"]))).
Proof.
  apply (proj1 (tables_written_by_input depth "a = 2" (after ["a = 1"]) eq_refl)
           "a" "2").
  left. vm_compute. reflexivity.
Defined.

(** resolving [a+1] where [a] is unbound *)
Lemma resolve_expr_nothing_bound_witness :
  _resolve_expr depth (TAdd (TSym (Sym "a")) (TInt 1)) ∅ empty_session
  = (Return (TAdd (TSym (Sym "a")) (TInt 1)), empty_session).
Proof.
  apply (resolve_expr_nothing_bound height mini_height_args mini_eqb_refl).
  - reflexivity.
  - intros s Hs. left. reflexivity.
  - vm_compute. lia.
Defined.

(** resolving [b] after [a = 1] and [b = a+1] *)
Lemma resolution_fails_on_cycle_or_substitution_witness :
  snd (_resolve_variable depth "b" ∅ (after ["a = 1"; "b = a+1"]))
  = after ["a = 1"; "b = a+1"] /\
  (forall e, fst (_resolve_variable depth "b" ∅ (after ["a = 1"; "b = a+1"])) = Raise e ->
             e = RecursionError \/
             (exists z, e = ValueError (circular_msg z) /\
                        rtc (depends_on (after ["a = 1"; "b = a+1"])) "b" z /\
                        tc (depends_on (after ["a = 1"; "b = a+1"])) z z) \/
             substitution_raises (after ["a = 1"; "b = a+1"]) "b" e) /\
  ((forall z, ~ tc (depends_on (after ["a = 1"; "b = a+1"])) z z) ->
   size (_variables (after ["a = 1"; "b = a+1"])) < depth ->
   (exists v, fst (_resolve_variable depth "b" ∅ (after ["a = 1"; "b = a+1"]))
              = Return v) \/
   (exists e, fst (_resolve_variable depth "b" ∅ (after ["a = 1"; "b = a+1"]))
              = Raise e /\
              substitution_raises (after ["a = 1"; "b = a+1"]) "b" e)).
Proof.
  apply (resolution_fails_on_cycle_or_substitution depth "b"
           (after ["a = 1"; "b = a+1"])).
  vm_compute. eexists. reflexivity.
Defined.

(** [a = b+1] after [a = 1] and [b = a+1] *)
Lemma refused_assignment_stores_nothing_witness :
  exists msg,
    cas_evaluate depth "a = b+1" (after ["a = 1"; "b = a+1"])
    = (Return (error_result msg),
       snd (_safe_parse_latex "b+1" (after ["a = 1"; "b = a+1"]))) /\
    same_tables (after ["a = 1"; "b = a+1"])
      (snd (_safe_parse_latex "b+1" (after ["a = 1"; "b = a+1"]))).
Proof.
  apply (refused_assignment_stores_nothing depth "a = b+1" "a" "b+1"
           (TAdd (TSym (Sym "b")) (TInt 1))).
  - vm_compute. reflexivity.
  - vm_compute. reflexivity.
  - vm_compute. discriminate.
Defined.

(** [a = a+1] after [a = 1] *)
Lemma self_reference_of_bound_name_refused_witness :
  exists msg,
    cas_evaluate depth "a = a+1" (after ["a = 1"])
    = (Return (error_result msg), snd (_safe_parse_latex "a+1" (after ["a = 1"]))) /\
    same_tables (after ["a = 1"]) (snd (_safe_parse_latex "a+1" (after ["a = 1"]))).
Proof.
  apply (self_reference_of_bound_name_refused 49 "a = a+1" "a" "a+1"
           (TAdd (TSym (Sym "a")) (TInt 1)) (Sym "a")).
  - vm_compute. reflexivity.
  - vm_compute. reflexivity.
  - vm_compute. eexists. reflexivity.
  - vm_compute. apply list_elem_of_here.
  - reflexivity.
Defined.

(** the name [y] in the empty session *)
Lemma identifier_local_dict_witness :
  exists st',
    same_tables empty_session st' /\
    _safe_parse_latex "y" empty_session
    = (match parse_expr "y"
               (if bool_decide (is_Some (_variables empty_session !! "y"))
                   || enters_local_dict "y"
                then [("y", inl (Sym "y"))] else []) with
       | Return r => _fix_constants r
       | Raise e => Raise e
       end, st') /\
    (if bool_decide (is_Some (_variables empty_session !! "y")) || enters_local_dict "y"
     then _symbols_cache st' !! "y" = Some (Sym "y") else st' = empty_session).
Proof.
  apply (identifier_local_dict "y" empty_session).
  - reflexivity.
  - reflexivity.
  - intros s. vm_compute. intros [=].
Defined.

(** reading [y] in the empty session *)
Lemma unbound_name_evaluates_to_symbol_witness :
  exists st',
    cas_evaluate 50 "y" empty_session
    = (Return (record_of (plain_value (of_symbol (Sym "y")))), st') /\
    same_tables empty_session st' /\
    _symbols_cache st' !! "y" = Some (Sym "y").
Proof.
  apply (unbound_name_evaluates_to_symbol 48 "y" empty_session).
  - exact mini_symbol_laws.
  - repeat split; try (vm_compute; reflexivity).
    intros s. vm_compute. intros [=].
  - reflexivity.
  - reflexivity.
Defined.

(** the definition [f(x) = x+1] in the empty session *)
Lemma function_definition_stores_witness :
  exists syms sta,
    map_M _get_symbol (map strip (split_char "," "x")) empty_session
    = (Return syms, sta) /\
    same_tables empty_session sta /\
    (forall (e : term) stb,
        _safe_parse_latex "x+1" sta = (Return e, stb) ->
        cas_evaluate depth "f(x) = x+1" empty_session
        = (Return [("ok", JBool true); ("latex", JStr (latex e));
                   ("plain", JStr (pretty e)); ("type", JStr "function_def");
                   ("name", JStr "f");
                   ("params", JArr (map JStr (map strip (split_char "," "x"))))],
           store_function "f"
             (FunBinding syms e
                (_free_names e ∖ list_to_set (map strip (split_char "," "x")))) stb)) /\
    (forall exc stb,
        _safe_parse_latex (expr := term) "x+1" sta = (Raise exc, stb) ->
        cas_evaluate depth "f(x) = x+1" empty_session
        = (Return (error_result (exn_str exc)), stb) /\
        same_tables empty_session stb).
Proof.
  apply (function_definition_stores depth "f(x) = x+1" "f" "x" "x+1" empty_session).
  - reflexivity.
  - vm_compute. reflexivity.
Defined.

(** the summary after [a = 1] and [b = a+1] shows the body of [b] *)
Lemma state_summary_witness :
  exists (e : term) vs fs,
    fst (_safe_parse_latex "a+1" (after ["a = 1"])) = Return e /\
    cas_get_state (snd (cas_evaluate depth "b = a+1" (after ["a = 1"])))
    = (Return (vs, fs), snd (cas_evaluate depth "b = a+1" (after ["a = 1"]))) /\
    vs !! "b" = Some (VarInfo (latex e) (_free_names e)).
Proof.
  apply (proj2 (proj2 (state_summary (expr := term))) depth "b = a+1" "b" "a+1"
           (after ["a = 1"])
           (snd (cas_evaluate depth "b = a+1" (after ["a = 1"])))
           (record (cas_evaluate depth "b = a+1" (after ["a = 1"])))).
  - vm_compute. reflexivity.
  - vm_compute. reflexivity.
  - vm_compute. reflexivity.
Defined.

(** an input of two spaces *)
Lemma blank_input_is_empty_witness :
  cas_evaluate depth "  " empty_session
  = (Return [("ok", JBool true); ("latex", JStr ""); ("plain", JStr "");
             ("type", JStr "empty")], empty_session).
Proof. apply (blank_input_is_empty depth "  " empty_session). reflexivity. Defined.

(** the commands on the argument [5] *)
Lemma command_without_variable_witness :
  _handle_command depth "solve" "5" empty_session
  = (Return (error_result "No free variable to solve for"), empty_session) /\
  forall cmd, cmd ∈ ["diff"; "integrate"; "series"] ->
    _handle_command depth cmd "5" empty_session
    = (Raise (IndexError "list index out of range"), empty_session).
Proof.
  apply (command_without_variable depth "5" "5" (TInt 5) empty_session empty_session);
    reflexivity.
Defined.

(** the matrix commands on the argument [5], and [det] on a matrix of one
    row and two columns *)
Lemma matrix_command_checks_witness :
  (forall cmd,
      cmd ∈ ["det"; "inv"; "trace"; "transpose"; "eigenvals"; "eigenvects";
             "rank"; "rref"; "charpoly"; "nullspace"; "colspace"] ->
      _handle_command depth cmd "5" empty_session
      = (Return (error_result "Argument is not a matrix"), empty_session)) /\
  _handle_command depth "det" "\begin{pmatrix} 1 & 2 \end{pmatrix}" empty_session
  = (Return (error_result ("det() requires a square matrix, got 1"
                           +:+ utf8_times +:+ "2")), empty_session).
Proof.
  split.
  - destruct (matrix_command_checks depth "5" "5" (TInt 5)
                empty_session empty_session) as [H _].
    + vm_compute. reflexivity.
    + vm_compute. reflexivity.
    + apply H. reflexivity.
  - destruct (matrix_command_checks depth "\begin{pmatrix} 1 & 2 \end{pmatrix}"
                "\begin{pmatrix} 1 & 2 \end{pmatrix}"
                (TMatrix false [[TInt 1; TInt 2]]) empty_session empty_session)
      as [_ H].
    + vm_compute. reflexivity.
    + vm_compute. reflexivity.
    + apply (proj1 (H 1%Z 2%Z ltac:(vm_compute; reflexivity) ltac:(discriminate))).
Defined.

(** the sum of [n] with the lower bound [n=0], the sum of [n] with the
    lower bound [0], and the sum of the constant [5] *)
Lemma sum_prod_variable_witness :
  _handle_latex_sum_prod depth "sum" "n=0" "3" "n" empty_session
  = (big_operator_result "sum" (TSym (Sym "n")) (Sym "n") (TInt 0) (TInt 3),
     cache_symbol "n" empty_session) /\
  _handle_latex_sum_prod depth "sum" "0" "3" "n" empty_session
  = (big_operator_result "sum" (TSym (Sym "n")) (Sym "n") (TInt 0) (TInt 3),
     cache_symbol "n" empty_session) /\
  _handle_latex_sum_prod depth "sum" "0" "3" "5" empty_session
  = (Return (error_result "Cannot determine variable for \sum"), empty_session).
Proof.
  split; [| split].
  - destruct (sum_prod_variable depth "sum" "n=0" "3" "n"
                (TInt 0) (TInt 3) (TSym (Sym "n"))
                (cache_symbol "n" empty_session) (cache_symbol "n" empty_session)
                (cache_symbol "n" empty_session) (cache_symbol "n" empty_session))
      as (H & _ & _).
    + vm_compute. reflexivity.
    + vm_compute. reflexivity.
    + apply (H "n" "0" (Sym "n") empty_session (TSym (Sym "n")));
        vm_compute; reflexivity.
  - destruct (sum_prod_variable depth "sum" "0" "3" "n"
                (TInt 0) (TInt 3) (TSym (Sym "n"))
                empty_session empty_session empty_session
                (cache_symbol "n" empty_session))
      as (_ & H & _).
    + vm_compute. reflexivity.
    + vm_compute. reflexivity.
    + apply (H (Sym "n") [] (TSym (Sym "n"))); vm_compute; reflexivity.
  - destruct (sum_prod_variable depth "sum" "0" "3" "5"
                (TInt 0) (TInt 3) (TInt 5)
                empty_session empty_session empty_session empty_session)
      as (_ & _ & H).
    + vm_compute. reflexivity.
    + vm_compute. reflexivity.
    + apply H; vm_compute; reflexivity.
Defined.

(** a text that is no environment, and an environment of blank rows *)
Lemma matrix_parse_errors_witness :
  _parse_matrix_latex (expr := term) "x+1" empty_session
  = (Raise (ValueError "Not a recognized matrix environment: x+1"), empty_session) /\
  _parse_matrix_latex (expr := term) "\begin{pmatrix} \\ \end{pmatrix}" empty_session
  = (Raise (ValueError "Empty matrix"), empty_session).
Proof.
  split.
  - apply (proj1 (matrix_parse_errors "x+1" empty_session)). reflexivity.
  - apply (proj2 (matrix_parse_errors "\begin{pmatrix} \\ \end{pmatrix}" empty_session)
             " \\ ").
    + reflexivity.
    + repeat (constructor; [reflexivity|]). constructor.
Defined.

End Examples.
